(** * dev_events: the Event and Booking pre-save pipelines and the
      cached MongoDB connection, embedded and verified.

    Sources embedded here:
    - [event.model.ts]   ([slugify], [normalizeTime], the Event schema and
                          its [pre('save')] hook);
    - [booking.model.ts] ([emailRegex], the Booking schema and its
                          [pre('save')] hook);
    - [lib/mongodb.ts]   ([connectToDatabase] over the cache [cached]).

    JavaScript strings are sequences of UTF-16 code units; they are modelled
    as lists of [N].  What the JavaScript engine provides and the repository
    only calls (Unicode lower-casing, the implementation-defined fallback of
    [Date.parse], the local time zone) is gathered in a record [Runtime]
    that the definitions take as a parameter. *)

From stdpp Require Import gmap strings list.
From Stdlib Require Import ZArith Lia.
From Equations Require Import Equations.

Local Open Scope Z_scope.

(* ===================================================================== *)
(** * JavaScript strings *)
(* ===================================================================== *)

(** A string value: its UTF-16 code units. *)
Abbreviation jsstring := (list N).

(** The code units of an ASCII literal. *)
Definition js (s : string) : jsstring :=
  map Ascii.N_of_ascii (String.list_ascii_of_string s).

(** ECMAScript WhiteSpace and LineTerminator code points: what
    [String.prototype.trim] strips and what the regular-expression class
    [\s] matches. *)
Definition isWhiteSpace (c : N) : bool :=
  ((9 <=? c) && (c <=? 13) || (c =? 32) || (c =? 160) || (c =? 5760)
   || (8192 <=? c) && (c <=? 8202) || (c =? 8232) || (c =? 8233)
   || (c =? 8239) || (c =? 8287) || (c =? 12288) || (c =? 65279))%N.

Fixpoint trimStart (s : jsstring) : jsstring :=
  match s with
  | c :: r => if isWhiteSpace c then trimStart r else s
  | [] => []
  end.

Definition trimEnd (s : jsstring) : jsstring :=
  rev (trimStart (rev s)).

(** [String.prototype.trim]. *)
Definition trim (s : jsstring) : jsstring := trimEnd (trimStart s).

(** ASCII lower-casing of one code unit: what [toLowerCase] does on the
    code units below 128. *)
Definition lowerASCII (c : N) : N :=
  if ((65 <=? c) && (c <=? 90))%N then (c + 32)%N else c.

Definition isASCII (s : jsstring) : Prop := Forall (fun c => (c < 128)%N) s.

(** [s.replace(/[cls]/g, rep)]: every code unit of the class is replaced. *)
Fixpoint replaceEach (cls : N -> bool) (rep : jsstring) (s : jsstring)
  : jsstring :=
  match s with
  | [] => []
  | c :: r => if cls c then rep ++ replaceEach cls rep r
              else c :: replaceEach cls rep r
  end.

(** [s.replace(/[cls]+/g, rep)]: the scan of a global replace with a greedy
    one-or-more quantifier.  [inrun] holds while the scan is inside a match
    that has already emitted its replacement. *)
Fixpoint replaceRunsFrom (cls : N -> bool) (rep : jsstring) (inrun : bool)
  (s : jsstring) : jsstring :=
  match s with
  | [] => []
  | c :: r =>
      if cls c
      then (if inrun then [] else rep) ++ replaceRunsFrom cls rep true r
      else c :: replaceRunsFrom cls rep false r
  end.

Definition replaceRuns (cls : N -> bool) (rep : jsstring) (s : jsstring)
  : jsstring := replaceRunsFrom cls rep false s.

(** The character classes of [slugify]'s three regular expressions. *)
Definition isLowerAlnum (c : N) : bool :=
  ((97 <=? c) && (c <=? 122) || (48 <=? c) && (c <=? 57))%N.

Definition isDash (c : N) : bool := (c =? 45)%N.

(** [[a-z0-9\s-]] *)
Definition isSlugChar (c : N) : bool :=
  isLowerAlnum c || isWhiteSpace c || isDash c.

(** [[^a-z0-9\s-]] *)
Definition notSlugChar (c : N) : bool := negb (isSlugChar c).

(* ===================================================================== *)
(** * The engine the code runs on *)
(* ===================================================================== *)

(** What the repository calls and the engine defines.
    - [toLowerCase]: [String.prototype.toLowerCase] (the Unicode default
      case conversion);
    - [legacyParse]: what [Date.parse] answers on a string that is not an
      instance of the ECMAScript Date Time String Format (the language
      leaves it to the implementation); [None] is [NaN];
    - [localTZA]: the offset of local time from UTC, in milliseconds; it
      is one offset for all dates (a zone without daylight saving), and
      the offset in force on 1 January 1970 where only times of that day
      are read, as in [normalizeTime]. *)
Record Runtime := {
  toLowerCase : jsstring -> jsstring;
  legacyParse : jsstring -> option Z;
  localTZA    : Z
}.

(** The one fact about [toLowerCase] that statements on concrete titles
    and addresses need: on ASCII it lower-cases the letters A to Z. *)
Definition lowers_ascii (rt : Runtime) : Prop :=
  forall s, isASCII s -> toLowerCase rt s = map lowerASCII s.

(* ===================================================================== *)
(** * event.model.ts: slugify *)
(* ===================================================================== *)

Section Slugify.
Variable rt : Runtime.

(** [slugify], event.model.ts lines 33 to 40. *)
Definition slugify (value : jsstring) : jsstring :=
  replaceRuns isDash (js "-")
    (replaceRuns isWhiteSpace (js "-")
       (replaceEach notSlugChar (js "")
          (trim (toLowerCase rt value)))).
End Slugify.

(* ===================================================================== *)
(** * The ECMAScript Date object, as far as the models use it *)
(* ===================================================================== *)

(** A time value is a number of milliseconds since the epoch; an invalid
    date ([NaN]) is [None]. *)

Definition msPerDay : Z := 86400000.
Definition msPerHour : Z := 3600000.
Definition msPerMinute : Z := 60000.
Definition msPerSecond : Z := 1000.
Definition maxTime : Z := 8640000000000000.

Definition Day (t : Z) : Z := t / msPerDay.
Definition TimeWithinDay (t : Z) : Z := t mod msPerDay.

Definition isLeapYear (y : Z) : bool :=
  (y mod 4 =? 0) && (negb (y mod 100 =? 0) || (y mod 400 =? 0)).

Definition DaysInYear (y : Z) : Z := if isLeapYear y then 366 else 365.

Definition DayFromYear (y : Z) : Z :=
  365 * (y - 1970) + (y - 1969) / 4 - (y - 1901) / 100 + (y - 1601) / 400.

(** The year of a day number: ECMAScript asks for the largest [y] with
    [DayFromYear y <= d]; it is computed from the mean year length and
    adjusted by one ([YearFromDay_spec] below proves that this is the
    year asked for). *)
Definition YearFromDay (d : Z) : Z :=
  let y := 1970 + (d * 10000) / 3652425 in
  if d <? DayFromYear y then y - 1
  else if DayFromYear (y + 1) <=? d then y + 1
  else y.

Definition YearFromTime (t : Z) : Z := YearFromDay (Day t).
Definition DayWithinYear (t : Z) : Z := Day t - DayFromYear (YearFromTime t).

(** Days of the year before month [m] (0 is January). *)
Definition monthStart (leap : bool) (m : Z) : Z :=
  let l := if leap then 1 else 0 in
  if m <=? 0 then 0 else if m =? 1 then 31
  else if m =? 2 then 59 + l else if m =? 3 then 90 + l
  else if m =? 4 then 120 + l else if m =? 5 then 151 + l
  else if m =? 6 then 181 + l else if m =? 7 then 212 + l
  else if m =? 8 then 243 + l else if m =? 9 then 273 + l
  else if m =? 10 then 304 + l else if m =? 11 then 334 + l
  else 365 + l.

Definition DaysInMonth (y m : Z) : Z :=
  monthStart (isLeapYear y) (m + 1) - monthStart (isLeapYear y) m.

(** The month (0 to 11) of day [dy] of a year. *)
Definition monthOfDay (leap : bool) (dy : Z) : Z :=
  if dy <? monthStart leap 1 then 0 else if dy <? monthStart leap 2 then 1
  else if dy <? monthStart leap 3 then 2 else if dy <? monthStart leap 4 then 3
  else if dy <? monthStart leap 5 then 4 else if dy <? monthStart leap 6 then 5
  else if dy <? monthStart leap 7 then 6 else if dy <? monthStart leap 8 then 7
  else if dy <? monthStart leap 9 then 8 else if dy <? monthStart leap 10 then 9
  else if dy <? monthStart leap 11 then 10 else 11.

Definition MonthFromTime (t : Z) : Z :=
  monthOfDay (isLeapYear (YearFromTime t)) (DayWithinYear t).

Definition DateFromTime (t : Z) : Z :=
  DayWithinYear t
  - monthStart (isLeapYear (YearFromTime t)) (MonthFromTime t) + 1.

Definition HourFromTime (t : Z) : Z := (t / msPerHour) mod 24.
Definition MinFromTime (t : Z) : Z := (t / msPerMinute) mod 60.
Definition SecFromTime (t : Z) : Z := (t / msPerSecond) mod 60.
Definition msFromTime (t : Z) : Z := t mod msPerSecond.

Definition MakeTime (h m s ms : Z) : Z :=
  h * msPerHour + m * msPerMinute + s * msPerSecond + ms.

(** [MakeDay] for a month in 0 to 11. *)
Definition MakeDay (y m dt : Z) : Z :=
  DayFromYear y + monthStart (isLeapYear y) m + dt - 1.

Definition MakeDate (day time : Z) : Z := day * msPerDay + time.

Definition TimeClip (t : Z) : option Z :=
  if Z.abs t <=? maxTime then Some t else None.

(** ** Decimal digits *)

Definition digitChar (v : Z) : N := Z.to_N (48 + v).

Definition digitVal (c : N) : option Z :=
  if ((48 <=? c) && (c <=? 57))%N then Some (Z.of_N c - 48) else None.

(** [n] decimal digits of [v], most significant first. *)
Fixpoint fixedDigits (n : nat) (v : Z) : jsstring :=
  match n with
  | O => []
  | S n' => fixedDigits n' (v / 10) ++ [digitChar (v mod 10)]
  end.

(** Read exactly [n] decimal digits. *)
Fixpoint readDigits (n : nat) (acc : Z) (s : jsstring)
  : option (Z * jsstring) :=
  match n with
  | O => Some (acc, s)
  | S n' =>
      match s with
      | c :: r =>
          match digitVal c with
          | Some v => readDigits n' (10 * acc + v) r
          | None => None
          end
      | [] => None
      end
  end.

(** [Number.prototype.toString] on a non-negative integer. *)
Equations? decimal (n : N) : jsstring by wf (N.to_nat n) lt :=
  decimal n with decide (n < 10)%N := {
    | left _ := [digitChar (Z.of_N n)];
    | right _ := decimal (n / 10) ++ [digitChar (Z.of_N (n mod 10))] }.
Proof.
  assert (n / 10 < n)%N; [|lia].
  apply N.div_lt; lia.
Qed.

Definition numberToString (z : Z) : jsstring :=
  if z <? 0 then js "-" ++ decimal (Z.abs_N z) else decimal (Z.to_N z).

(** [s.padStart(n, "0")]. *)
Definition padStart0 (n : nat) (s : jsstring) : jsstring :=
  repeat 48%N (n - length s) ++ s.

(** ** [Date.prototype.toISOString] *)

Definition isoYear (y : Z) : jsstring :=
  if (0 <=? y) && (y <=? 9999) then fixedDigits 4 y
  else (if y <? 0 then js "-" else js "+") ++ fixedDigits 6 (Z.abs y).

Definition toISOString (t : Z) : jsstring :=
  isoYear (YearFromTime t) ++ js "-"
  ++ fixedDigits 2 (MonthFromTime t + 1) ++ js "-"
  ++ fixedDigits 2 (DateFromTime t) ++ js "T"
  ++ fixedDigits 2 (HourFromTime t) ++ js ":"
  ++ fixedDigits 2 (MinFromTime t) ++ js ":"
  ++ fixedDigits 2 (SecFromTime t) ++ js "."
  ++ fixedDigits 3 (msFromTime t) ++ js "Z".

(** ** [Date.parse]: the Date Time String Format *)

(** The rest of [s] when it starts with the code unit [c]. *)
Definition eat (c : N) (s : jsstring) : option jsstring :=
  match s with
  | c' :: r => if (c' =? c)%N then Some r else None
  | [] => None
  end.

(** [YYYY], or a sign and six digits ([-000000] is not a year). *)
Definition parseYear (s : jsstring) : option (Z * jsstring) :=
  match eat 43 s, eat 45 s with
  | Some r, _ => readDigits 6 0 r
  | None, Some r =>
      '(y, r') ← readDigits 6 0 r;
      if y =? 0 then None else Some (- y, r')
  | None, None => readDigits 4 0 s
  end.

(** [YYYY], [YYYY-MM] or [YYYY-MM-DD]; an absent month or day is 1. *)
Definition parseDate (s : jsstring) : option (Z * Z * Z * jsstring) :=
  '(y, r) ← parseYear s;
  match eat 45 r with
  | Some r1 =>
      '(m, r2) ← readDigits 2 0 r1;
      match eat 45 r2 with
      | Some r3 => '(d, r4) ← readDigits 2 0 r3; Some (y, m, d, r4)
      | None => Some (y, m, 1, r2)
      end
  | None => Some (y, 1, 1, r)
  end.

Definition validDate (y m d : Z) : bool :=
  (1 <=? m) && (m <=? 12) && (1 <=? d) && (d <=? DaysInMonth y (m - 1)).

(** [:ss] and [.sss], both optional: seconds and milliseconds. *)
Definition parseSeconds (s : jsstring) : option (Z * Z * jsstring) :=
  match eat 58 s with
  | Some r1 =>
      '(sec, r2) ← readDigits 2 0 r1;
      match eat 46 r2 with
      | Some r3 => '(ms, r4) ← readDigits 3 0 r3; Some (sec, ms, r4)
      | None => Some (sec, 0, r2)
      end
  | None => Some (0, 0, s)
  end.

(** [HH:mm], [HH:mm:ss] or [HH:mm:ss.sss]: the milliseconds into the day;
    the hour 24 is the end of the day, with nothing after it but zeros. *)
Definition parseTime (s : jsstring) : option (Z * jsstring) :=
  '(h, r) ← readDigits 2 0 s;
  r1 ← eat 58 r;
  '(mi, r2) ← readDigits 2 0 r1;
  '(sec, ms, r3) ← parseSeconds r2;
  if (h <=? 23) && (mi <=? 59) && (sec <=? 59)
     || (h =? 24) && (mi =? 0) && (sec =? 0) && (ms =? 0)
  then Some (MakeTime h mi sec ms, r3)
  else None.

(** [+HH:mm] or [-HH:mm] up to the end of the string, in milliseconds. *)
Definition parseSignedOffset (sign : Z) (s : jsstring) : option Z :=
  '(h, r1) ← readDigits 2 0 s;
  r2 ← eat 58 r1;
  '(mi, r3) ← readDigits 2 0 r2;
  match r3 with
  | [] =>
      if (h <=? 23) && (mi <=? 59)
      then Some (sign * (h * msPerHour + mi * msPerMinute))
      else None
  | _ => None
  end.

(** The UTC offset that ends a date-time form: absent ([Some None], local
    time), [Z], or a sign and [HH:mm]. *)
Definition parseOffset (s : jsstring) : option (option Z) :=
  match s with
  | [] => Some None
  | _ =>
      match eat 90 s, eat 43 s, eat 45 s with
      | Some [], _, _ => Some (Some 0)
      | Some _, _, _ => None
      | None, Some r, _ => Some <$> parseSignedOffset 1 r
      | None, None, Some r => Some <$> parseSignedOffset (-1) r
      | None, None, None => None
      end
  end.

(** A string of the Date Time String Format and its time value before
    [TimeClip]; [None] when the string is not an instance of the format.
    Date-only forms are UTC, date-time forms without offset are local. *)
Definition parseISO (tza : Z) (s : jsstring) : option Z :=
  '(y, m, d, r) ← parseDate s;
  if validDate y m d then
    let day := MakeDay y (m - 1) d in
    match r with
    | [] => Some (MakeDate day 0)
    | _ =>
        r1 ← eat 84 r;
        '(tm, r2) ← parseTime r1;
        off ← parseOffset r2;
        Some (MakeDate day tm - default tza off)
    end
  else None.

Section DateObject.
Variable rt : Runtime.

(** [Date.parse(s)] followed by the [TimeClip] of the constructor: the
    time value of [new Date(s)]. *)
Definition Date_parse (s : jsstring) : option Z :=
  match parseISO (localTZA rt) s with
  | Some t => TimeClip t
  | None => legacyParse rt s ≫= TimeClip
  end.

Definition LocalTime (t : Z) : Z := t + localTZA rt.
Definition getHours (t : Z) : Z := HourFromTime (LocalTime t).
Definition getMinutes (t : Z) : Z := MinFromTime (LocalTime t).
End DateObject.

(* ===================================================================== *)
(** * Values, errors and Mongoose documents *)
(* ===================================================================== *)

(** The values a document path can hold when a hook reads it. *)
Inductive value :=
| VUndefined
| VNull
| VBoolean (b : bool)
| VNumber (n : Z)
| VString (s : jsstring)
| VArray (items : list jsstring).

#[global] Instance value_eq_dec : EqDecision value.
Proof. solve_decision. Defined.

(** [typeof v === 'string'] *)
Definition isString (v : value) : bool :=
  match v with VString _ => true | _ => false end.

(** ToBoolean. *)
Definition truthy (v : value) : bool :=
  match v with
  | VUndefined | VNull => false
  | VBoolean b => b
  | VNumber n => negb (n =? 0)
  | VString s => negb (Nat.eqb (length s) 0)
  | VArray _ => true
  end.

(** The errors the three files raise, by their message, and those of the
    libraries they call. *)
Inductive error :=
| RequiredFieldError (field : string)
    (* Field "<field>" is required and cannot be empty. *)
| InvalidDateError
    (* Invalid date format for event. Expected a valid date string. *)
| InvalidTimeError
    (* Invalid time format for event. Expected a valid time string. *)
| MissingEventError
    (* Cannot create booking: referenced event does not exist. *)
| InvalidEmailError
    (* Email must be a valid email address. *)
| MissingUriError
    (* Please define the MONGODB_URI environment variable ... *)
| ValidationError (paths : list string)
    (* Mongoose: the schema validators of these paths failed *)
| TypeError
    (* the engine: a method called on a value that does not have it *)
| ConnectionError (code : N).
    (* Mongoose: mongoose.connect(uri) rejected *)

#[global] Instance error_eq_dec : EqDecision error.
Proof. solve_decision. Defined.

Inductive result (A : Type) :=
| Ok (a : A)
| Throw (e : error).
Arguments Ok {A} a.
Arguments Throw {A} e.

#[global] Instance result_ret : MRet result := fun A a => Ok a.
#[global] Instance result_bind : MBind result := fun A B f m =>
  match m with Ok a => f a | Throw e => Throw e end.

Definition isOk {A} (r : result A) : bool :=
  match r with Ok _ => true | Throw _ => false end.

(** A Mongoose document: its paths, the paths that [isModified] reports,
    and [isNew]. *)
Record Document := {
  fields : gmap string value;
  modified : gset string;
  isNew : bool
}.

(** [doc[path]] *)
Definition get (d : Document) (path : string) : value :=
  default VUndefined (fields d !! path).

(** [doc.isModified(path)] *)
Definition isModified (path : string) (d : Document) : bool :=
  bool_decide (path ∈ modified d).

(** [doc[path] = s] on a [String] path declared with [trim: true]: the
    setter trims, and the path is marked modified when the document is
    new or the value differs from the one it had. *)
Definition setString (path : string) (s : jsstring) (d : Document)
  : Document :=
  let v := VString (trim s) in
  {| fields := <[path := v]> (fields d);
     modified := if isNew d || negb (bool_decide (get d path = v))
                 then {[path]} ∪ modified d else modified d;
     isNew := isNew d |}.

(** What Mongoose does to the document once a save has succeeded. *)
Definition saved (d : Document) : Document :=
  {| fields := fields d; modified := ∅; isNew := false |}.

(** A hook body runs on the document it mutates; an exception leaves the
    mutations made so far in place. *)
Definition hook (A : Type) : Type := Document -> Document * result A.

#[global] Instance hook_ret : MRet hook := fun A a d => (d, Ok a).
#[global] Instance hook_bind : MBind hook := fun A B f m d =>
  match m d with
  | (d', Ok a) => f a d'
  | (d', Throw e) => (d', Throw e)
  end.

Definition throw {A} (e : error) : hook A := fun d => (d, Throw e).
Definition this : hook Document := fun d => (d, Ok d).
Definition assign (path : string) (s : jsstring) : hook unit :=
  fun d => (setString path s d, Ok tt).
Definition lift {A} (r : result A) : hook A := fun d => (d, r).

(** Read a path whose TypeScript type is [string]; a string method called
    on anything else raises a TypeError. *)
Definition readString (path : string) : hook jsstring :=
  fun d => match get d path with
           | VString s => (d, Ok s)
           | _ => (d, Throw TypeError)
           end.

Fixpoint forEach {A} (l : list A) (body : A -> hook unit) : hook unit :=
  match l with
  | [] => mret tt
  | x :: r => body x ;; forEach r body
  end.

(* ===================================================================== *)
(** * event.model.ts *)
(* ===================================================================== *)

(** [items.join(",")], the primitive of an array of strings. *)
Fixpoint joinComma (items : list jsstring) : jsstring :=
  match items with
  | [] => []
  | [s] => s
  | s :: r => s ++ js "," ++ joinComma r
  end.

Section EventModel.
Variable rt : Runtime.

(** [new Date(v).getTime()]: a string is parsed, an array goes through
    its primitive, anything else through ToNumber. *)
Definition Date_new (v : value) : option Z :=
  match v with
  | VString s => Date_parse rt s
  | VArray items => Date_parse rt (joinComma items)
  | VNumber n => TimeClip n
  | VBoolean b => Some (if b then 1 else 0)
  | VNull => Some 0
  | VUndefined => None
  end.

(** [normalizeTime], lines 46 to 59. *)
Definition normalizeTime (value : jsstring) : result jsstring :=
  let trimmed := trim value in
  match Date_parse rt (js "1970-01-01T" ++ trimmed) with
  | None => Throw InvalidTimeError
  | Some time =>
      let hours := padStart0 2 (numberToString (getHours rt time)) in
      let minutes := padStart0 2 (numberToString (getMinutes rt time)) in
      Ok (hours ++ js ":" ++ minutes)
  end.

(** The validators of [agenda] and [tags], lines 122-123 and 136-137. *)
Definition nonEmptyItems (v : value) : bool :=
  match v with
  | VArray items =>
      (0 <? length items)%nat
      && forallb (fun item => (0 <? length (trim item))%nat) items
  | _ => false
  end.

(** A [String] path declared [required: true]. *)
Definition requiredString (v : value) : bool :=
  match v with
  | VString s => (0 <? length s)%nat
  | _ => false
  end.

(** The schema, lines 61 to 146: each path and its validator. *)
Definition eventSchema : list (string * (value -> bool)) :=
  [ ("title", requiredString); ("description", requiredString);
    ("overview", requiredString); ("image", requiredString);
    ("venue", requiredString); ("location", requiredString);
    ("date", requiredString); ("time", requiredString);
    ("mode", requiredString); ("audience", requiredString);
    ("agenda", nonEmptyItems); ("organizer", requiredString);
    ("tags", nonEmptyItems) ].

(** Mongoose's validation of a document against a schema: the paths
    whose validator fails. *)
Definition invalidPaths (schema : list (string * (value -> bool)))
  (d : Document) : list string :=
  map fst (List.filter (fun pv => negb (snd pv (get d (fst pv)))) schema).

Definition validate (schema : list (string * (value -> bool)))
  (d : Document) : result unit :=
  match invalidPaths schema d with
  | [] => Ok tt
  | paths => Throw (ValidationError paths)
  end.

(** Lines 162 to 174. *)
Definition requiredStringFields : list string :=
  [ "title"; "description"; "overview"; "image"; "venue"; "location";
    "date"; "time"; "mode"; "audience"; "organizer" ].

(** The body of the loop, lines 177 to 182. *)
Definition requireNonEmpty (field : string) : hook unit :=
  d ← this;
  match get d field with
  | VString value =>
      if Nat.eqb (length (trim value)) 0
      then throw (RequiredFieldError field)
      else assign field (trim value)
  | _ => throw (RequiredFieldError field)
  end.

(** The hook, lines 157 to 204: the document as the hook leaves it and
    what it hands to [next]. *)
Definition eventPreSave : hook unit :=
  forEach requiredStringFields requireNonEmpty ;;
  d ← this;
  (if isModified "title" d || negb (truthy (get d "slug"))
   then title ← readString "title"; assign "slug" (slugify rt title)
   else mret tt) ;;
  d ← this;
  match Date_new (get d "date") with
  | None => throw InvalidDateError
  | Some parsedDate => assign "date" (toISOString parsedDate)
  end ;;
  time ← readString "time";
  normalized ← lift (normalizeTime time);
  assign "time" normalized.

(** [doc.save()] up to the write itself, on a document that Mongoose
    holds: its paths hold what the casts and the setters of the schema
    have left ([newEvent] below makes such a document from the attributes
    of a caller).  Mongoose validates against the schema, then runs the
    hook; the document is stored when both pass. *)
Definition eventSave (d : Document) : Document * result unit :=
  match validate eventSchema d with
  | Throw e => (d, Throw e)
  | Ok _ => eventPreSave d
  end.
End EventModel.

(** ** [new Event(attrs)] and the write of a new event *)


(** [Boolean.prototype.toString] *)
Definition booleanToString (b : bool) : jsstring :=
  if b then js "true" else js "false".











(** ** The unique index on [slug] *)

(** How the creation of an event ends: the collection with the new
    document, the error of the schema or of the hook, or the duplicate
    key the unique index reports. *)
Inductive creation :=
| Stored (coll : list Document)
| Refused (e : error)
| DuplicateKey (path : string) (v : value).

(** [Event.create(attrs)] on the collection [coll], under the unique index
    on [slug] of lines 70 and 149, once MongoDB has built it: the document
    that has passed the schema and the hook is inserted unless a stored
    document has the same [slug]. *)
Definition createEvent (rt : Runtime) (coll : list Document) (d : Document)
  : creation :=
  match eventSave rt d with
  | (d', Ok _) =>
      if existsb (fun e => bool_decide (get e "slug" = get d' "slug")) coll
      then DuplicateKey "slug" (get d' "slug")
      else Stored (saved d' :: coll)
  | (_, Throw e) => Refused e
  end.

(* ===================================================================== *)
(** * Regular expressions anchored at both ends *)
(* ===================================================================== *)

Inductive regex :=
| Never
| Empty
| Class (cls : N -> bool)
| Seq (r1 r2 : regex)
| Alt (r1 r2 : regex)
| Star (r : regex).

(** [r+] *)
Definition Plus (r : regex) : regex := Seq r (Star r).

Fixpoint nullable (r : regex) : bool :=
  match r with
  | Never => false
  | Empty => true
  | Class _ => false
  | Seq r1 r2 => nullable r1 && nullable r2
  | Alt r1 r2 => nullable r1 || nullable r2
  | Star _ => true
  end.

(** What is left of [r] to match once [c] has been read. *)
Fixpoint derive (c : N) (r : regex) : regex :=
  match r with
  | Never | Empty => Never
  | Class cls => if cls c then Empty else Never
  | Seq r1 r2 =>
      if nullable r1 then Alt (Seq (derive c r1) r2) (derive c r2)
      else Seq (derive c r1) r2
  | Alt r1 r2 => Alt (derive c r1) (derive c r2)
  | Star r1 => Seq (derive c r1) (Star r1)
  end.

(** [/^r$/.test(s)] *)
Fixpoint test (r : regex) (s : jsstring) : bool :=
  match s with
  | [] => nullable r
  | c :: s' => test (derive c r) s'
  end.

(** The strings a regular expression matches. *)
Inductive matches : regex -> jsstring -> Prop :=
| m_empty : matches Empty []
| m_class cls c : cls c = true -> matches (Class cls) [c]
| m_seq r1 r2 s1 s2 :
    matches r1 s1 -> matches r2 s2 -> matches (Seq r1 r2) (s1 ++ s2)
| m_alt_l r1 r2 s : matches r1 s -> matches (Alt r1 r2) s
| m_alt_r r1 r2 s : matches r2 s -> matches (Alt r1 r2) s
| m_star_nil r : matches (Star r) []
| m_star_cons r s1 s2 :
    matches r s1 -> matches (Star r) s2 -> matches (Star r) (s1 ++ s2).

(* ===================================================================== *)
(** * booking.model.ts *)
(* ===================================================================== *)

(** [[^\s@]] *)
Definition isAddrChar (c : N) : bool :=
  negb (isWhiteSpace c || (c =? 64)%N).

(** [emailRegex], line 20: [/^[^\s@]+@[^\s@]+\.[^\s@]+$/]. *)
Definition emailRegex : regex :=
  Seq (Plus (Class isAddrChar))
    (Seq (Class (N.eqb 64))
       (Seq (Plus (Class isAddrChar))
          (Seq (Class (N.eqb 46)) (Plus (Class isAddrChar))))).

Abbreviation ObjectId := N.

Record BookingAttrs := {
  eventId : ObjectId;
  email : jsstring
}.

Section BookingModel.
Variable rt : Runtime.

(** The collection of Event documents, by [_id]. *)
Variable events : gmap ObjectId Document.

(** The setters of the [email] path: [trim: true], [lowercase: true]. *)
Definition emailSetter (s : jsstring) : jsstring :=
  trim (toLowerCase rt s).

(** [new Booking(attrs)]: the attributes go through the setters. *)
Definition newBooking (attrs : BookingAttrs) : BookingAttrs :=
  {| eventId := eventId attrs; email := emailSetter (email attrs) |}.

(** The schema, lines 22 to 44, on a booking whose [eventId] has been
    given and cast: [email] is required and validated.  [refusedPaths]
    below is the schema on any input. *)
Definition validateBooking (doc : BookingAttrs) : result unit :=
  if (0 <? length (email doc))%nat && test emailRegex (email doc)
  then Ok tt else Throw (ValidationError ["email"]).

(** [Event.findById(id).select('_id').lean()] *)
Definition findById (id : ObjectId) : option ObjectId :=
  (fun _ => id) <$> events !! id.

(** The hook, lines 54 to 73. *)
Definition bookingPreSave (doc : BookingAttrs) : result unit :=
  match findById (eventId doc) with
  | None => Throw MissingEventError
  | Some existingEvent =>
      if negb (test emailRegex (email doc))
      then Throw InvalidEmailError
      else Ok tt
  end.

(** [Booking.create(attrs)] up to the write: the document that is
    stored, or the error. *)
Definition createBooking (attrs : BookingAttrs) : result BookingAttrs :=
  let doc := newBooking attrs in
  validateBooking doc ;; bookingPreSave doc ;; Ok doc.
End BookingModel.

(** ** [Booking.create] on any input *)

(** What a caller passes to [Booking.create]: for [eventId], the id it is
    cast to, or [None] when it is absent, [null] or not castable to an
    ObjectId; for [email], any value. *)
Record BookingInput := {
  givenEventId : option ObjectId;
  givenEmail : value
}.

(** What Mongoose makes of the value given for [email]: the cast to
    [String] and the setters; [None] when it is absent, [null] or an array,
    which the cast refuses. *)
Definition castEmail (rt : Runtime) (v : value) : option jsstring :=
  match v with
  | VString s => Some (emailSetter rt s)
  | VNumber n => Some (emailSetter rt (numberToString n))
  | VBoolean b => Some (emailSetter rt (booleanToString b))
  | VUndefined | VNull | VArray _ => None
  end.

(** The schema on [email], lines 29 to 38: required and validated. *)
Definition emailAccepted (rt : Runtime) (v : value) : bool :=
  match castEmail rt v with
  | Some e => (0 <? length e)%nat && test emailRegex e
  | None => false
  end.

(** The paths the schema refuses, lines 24 to 38, in order. *)
Definition refusedPaths (rt : Runtime) (input : BookingInput) : list string :=
  match givenEventId input with Some _ => [] | None => ["eventId"] end
  ++ (if emailAccepted rt (givenEmail input) then [] else ["email"]).

(** [Booking.create(input)] up to the write, for any input: validation
    reports the paths the schema refuses; with none, the hook runs. *)
Definition bookingCreate (rt : Runtime) (events : gmap ObjectId Document)
  (input : BookingInput) : result BookingAttrs :=
  match givenEventId input, castEmail rt (givenEmail input) with
  | Some id, Some e =>
      let doc := {| eventId := id; email := e |} in
      validateBooking doc ;; bookingPreSave events doc ;; Ok doc
  | _, _ => Throw (ValidationError (refusedPaths rt input))
  end.

(* ===================================================================== *)
(** * lib/mongodb.ts *)
(* ===================================================================== *)

Abbreviation Connection := N.
Abbreviation PromiseId := nat.

(** The promise of [mongoose.connect(uri).then(...)]: pending, fulfilled
    with the connection, or rejected with the driver's error. *)
Inductive promiseState :=
| Pending
| Fulfilled (c : Connection)
| Rejected (code : N).

(** [MongooseCache], lines 6 to 9. *)
Record MongooseCache := {
  conn : option Connection;
  promise : option PromiseId
}.

(** What a call does outside the cache. *)
Inductive effect :=
| ReadEnv                                   (* process.env.MONGODB_URI *)
| Connect (uri : jsstring) (p : PromiseId). (* mongoose.connect(uri) *)

(** The process: the cache on [global], the environment, the promises made
    so far (a promise is its index), the calls suspended at the [await] of
    line 65 with the promise each one awaits, and the effects so far,
    latest first. *)
Record World := {
  cached : MongooseCache;
  MONGODB_URI : option jsstring;
  promises : list promiseState;
  waiting : list PromiseId;
  effects : list effect
}.

(** The cache a fresh process starts with, line 29. *)
Definition boot (uri : option jsstring) : World :=
  {| cached := {| conn := None; promise := None |};
     MONGODB_URI := uri; promises := []; waiting := []; effects := [] |}.

(** How a run of the function body ends or where it is suspended. *)
Inductive outcome :=
| Returned (c : Connection)
| Threw (e : error)
| Awaiting (p : PromiseId).

(** [!uri]: undefined or the empty string. *)
Definition absentUri (uri : option jsstring) : bool :=
  match uri with
  | None | Some [] => true
  | Some (_ :: _) => false
  end.

(** [connectToDatabase], lines 43 to 65, from the call to the [return] of
    line 46, the [throw] of line 53 or the [await] of line 65: no other
    code runs in between. *)
Definition connectToDatabase (w : World) : World * outcome :=
  match conn (cached w) with
  | Some c => (w, Returned c)
  | None =>
      match promise (cached w) with
      | Some p =>
          ({| cached := cached w; MONGODB_URI := MONGODB_URI w;
              promises := promises w; waiting := p :: waiting w;
              effects := effects w |}, Awaiting p)
      | None =>
          match MONGODB_URI w with
          | Some (c :: u) =>
              let p := length (promises w) in
              ({| cached := {| conn := None; promise := Some p |};
                  MONGODB_URI := MONGODB_URI w;
                  promises := promises w ++ [Pending];
                  waiting := p :: waiting w;
                  effects := Connect (c :: u) p :: ReadEnv :: effects w |},
               Awaiting p)
          | _ =>
              ({| cached := cached w; MONGODB_URI := MONGODB_URI w;
                  promises := promises w; waiting := waiting w;
                  effects := ReadEnv :: effects w |},
               Threw MissingUriError)
          end
      end
  end.

(** Lines 65 and 66 once the awaited promise [p] is settled; [None] while
    it is pending. *)
Definition resume (p : PromiseId) (w : World) : option (World * outcome) :=
  match promises w !! p with
  | Some (Fulfilled c) =>
      Some ({| cached := {| conn := Some c; promise := promise (cached w) |};
               MONGODB_URI := MONGODB_URI w; promises := promises w;
               waiting := waiting w; effects := effects w |}, Returned c)
  | Some (Rejected code) => Some (w, Threw (ConnectionError code))
  | _ => None
  end.

(** Remove one occurrence of [p]. *)
Fixpoint removeOne (p : PromiseId) (l : list PromiseId) : list PromiseId :=
  match l with
  | [] => []
  | q :: r => if Nat.eqb p q then r else q :: removeOne p r
  end.

(** What can happen next in the process: a caller calls, the driver
    settles a pending attempt, a suspended call continues. *)
Inductive action :=
| Call
| Settle (p : PromiseId) (r : promiseState)
| Continue (p : PromiseId).

Definition exec (a : action) (w : World) : option (World * option outcome) :=
  match a with
  | Call => let '(w', o) := connectToDatabase w in Some (w', Some o)
  | Settle p r =>
      match promises w !! p, r with
      | Some Pending, Fulfilled _ | Some Pending, Rejected _ =>
          Some ({| cached := cached w; MONGODB_URI := MONGODB_URI w;
                   promises := <[p := r]> (promises w);
                   waiting := waiting w; effects := effects w |}, None)
      | _, _ => None
      end
  | Continue p =>
      if bool_decide (p ∈ waiting w) then
        '(w', o) ← resume p w;
        Some ({| cached := cached w'; MONGODB_URI := MONGODB_URI w';
                 promises := promises w';
                 waiting := removeOne p (waiting w');
                 effects := effects w' |}, Some o)
      else None
  end.

(** A schedule, run from [w]: the world reached and the outcomes, latest
    first; [None] when a step is not possible. *)
Fixpoint run (sched : list action) (w : World)
  : option (World * list outcome) :=
  match sched with
  | [] => Some (w, [])
  | a :: rest =>
      '(w1, o) ← exec a w;
      '(w2, os) ← run rest w1;
      Some (w2, os ++ option_list o)
  end.

(** The connection attempts among the effects. *)
Definition attempts (w : World) : list effect :=
  List.filter (fun e => match e with Connect _ _ => true | _ => false end)
    (effects w).

(* ===================================================================== *)
(** * Definitions for the statements and the proofs *)
(* ===================================================================== *)

(** ** The slug as the specification words it *)

(** What is left of [s] after its longest prefix in the class. *)
Fixpoint dropWhile (p : N -> bool) (s : jsstring) : jsstring :=
  match s with
  | c :: r => if p c then dropWhile p r else s
  | [] => []
  end.

(** Replace each run of code units of the class by the single unit [d]. *)
Equations? squeeze (cls : N -> bool) (d : N) (s : jsstring) : jsstring
  by wf (length s) lt :=
  squeeze cls d [] := [];
  squeeze cls d (c :: r) with cls c := {
    | true := d :: squeeze cls d (dropWhile cls r);
    | false := c :: squeeze cls d r }.
Proof.
  assert (H : (length (dropWhile cls r) <= length r)%nat).
  { clear. induction r as [|c r IH]; simpl; [lia|].
    destruct (cls c); simpl; lia. }
  simpl. lia.
Qed.

(** The slug in the words of the specification, to compare [slugify]
    with: lowercase the title, trim it, strip all characters outside
    [[a-z0-9\s-]], replace each run of whitespace with a single dash,
    collapse runs of dashes into one. *)
Definition specSlug (rt : Runtime) (title : jsstring) : jsstring :=
  squeeze isDash 45%N
    (squeeze isWhiteSpace 45%N
       (List.filter isSlugChar (trim (toLowerCase rt title)))).

(** ** The steps of the Event hook *)

(** A string that does not start with whitespace. *)
Definition headOk (s : jsstring) : Prop :=
  match s with
  | c :: _ => isWhiteSpace c = false
  | [] => True
  end.

(** The test of the loop on one field: a string, not empty once trimmed. *)
Definition fieldOk (d : Document) (field : string) : bool :=
  match get d field with
  | VString s => negb (Nat.eqb (length (trim s)) 0)
  | _ => false
  end.

(** A string value trimmed, any other value as it is. *)
Definition trimValue (v : value) : value :=
  match v with VString s => VString (trim s) | _ => v end.

(** The assignment of the loop on one field. *)
Definition trimField (d : Document) (field : string) : Document :=
  match get d field with
  | VString s => setString field (trim s) d
  | _ => d
  end.

(** The assignments of the loop over the fields [l]. *)
Definition trimFields (l : list string) (d : Document) : Document :=
  fold_left trimField l d.

(** [[a-z0-9-]] *)
Definition isSlugOut (c : N) : bool := isLowerAlnum c || isDash c.

(** The string a string value holds. *)
Definition strOf (v : value) : jsstring :=
  match v with VString s => s | _ => [] end.

(** Every required field passes the test of the loop. *)
Definition passesLoop (d : Document) : bool :=
  forallb (fieldOk d) requiredStringFields.

(** The document after the loop. *)
Definition afterLoop (d : Document) : Document :=
  trimFields requiredStringFields d.

(** The document after lines 186 to 188. *)
Definition afterSlug (rt : Runtime) (d1 : Document) : Document :=
  if isModified "title" d1 || negb (truthy (get d1 "slug"))
  then setString "slug" (slugify rt (strOf (get d1 "title"))) d1
  else d1.

(** ** A runtime and documents to run the models on *)

(** An engine that lower-cases ASCII only, has no date format of its own
    and runs in UTC. *)
Definition asciiRuntime : Runtime :=
  {| toLowerCase := map lowerASCII;
     legacyParse := fun _ => None;
     localTZA := 0 |}.

(** A document from its paths, its modified paths and [isNew]. *)
Definition mkDocument (l : list (string * value)) (mods : list string)
  (new : bool) : Document :=
  {| fields := list_to_map l; modified := list_to_set mods; isNew := new |}.

(** The attributes of an event, for a given title. *)
Definition techTalk (title : string) : list (string * value) :=
  [ ("title", VString (js title));
    ("description", VString (js "An evening on AI"));
    ("overview", VString (js "Talks and demos"));
    ("image", VString (js "/images/talk.png"));
    ("venue", VString (js "Hall 1"));
    ("location", VString (js "Berlin"));
    ("date", VString (js "2024-03-01"));
    ("time", VString (js "14:30"));
    ("mode", VString (js "offline"));
    ("audience", VString (js "developers"));
    ("agenda", VArray [js "Intro"; js "Q&A"]);
    ("organizer", VString (js "dev_events"));
    ("tags", VArray [js "ai"]) ].

(** A new document, as [new Event(attrs)] makes it. *)
Definition newTechTalk : Document :=
  mkDocument (techTalk " Tech Talk: AI & You! ") ["title"; "date"; "time"] true.

(** ** Dates *)

(** One more digit read after [readDigits]. *)
Definition readOne (ar : Z * jsstring) : option (Z * jsstring) :=
  match snd ar with
  | c :: r =>
      match digitVal c with
      | Some v => Some (10 * fst ar + v, r)
      | None => None
      end
  | [] => None
  end.

(** The offsets of local time the theorems on local times assume: less
    than a day either way. *)
Definition validOffset (rt : Runtime) : Prop :=
  Z.abs (localTZA rt) < msPerDay.

(** The characters [toISOString] and [normalizeTime] write. *)
Definition isStampChar (c : N) : bool :=
  ((48 <=? c) && (c <=? 58) || (c =? 43) || (c =? 45) || (c =? 46)
   || (c =? 84) || (c =? 90))%N.

(** ** Required fields and more documents *)

(** Absent, not a string, or empty once trimmed. *)
Definition blank (v : value) : Prop :=
  match v with
  | VString s => trim s = []
  | _ => True
  end.

(** A new event whose title is all punctuation. *)
Definition punctuated : Document :=
  mkDocument (techTalk "?!*") ["title"] true.

(** A stored event, read back and saved without a change. *)
Definition storedTechTalk : Document :=
  saved (fst (eventSave asciiRuntime newTechTalk)).

(** One stored event, to run the booking model on. *)
Definition oneEvent : gmap ObjectId Document :=
  {[ 7%N := storedTechTalk ]}.

(** ** The connection cache *)

(** What holds of the cache in every world the process reaches: the calls
    suspended at line 65 await the cached promise, and a cached connection
    is what the cached promise was fulfilled with. *)
Definition wellFormed (w : World) : Prop :=
  (forall q, q ∈ waiting w -> promise (cached w) = Some q)
  /\ (forall c, conn (cached w) = Some c ->
        exists p, promise (cached w) = Some p
                  /\ promises w !! p = Some (Fulfilled c)).

(** The cache after a failed attempt: the rejected promise is cached and
    no connection is. *)
Definition poisoned (p : PromiseId) (code : N) (w : World) : Prop :=
  wellFormed w
  /\ conn (cached w) = None
  /\ promise (cached w) = Some p
  /\ promises w !! p = Some (Rejected code).

(** A connection string. *)
Definition mongoUri : jsstring := js "mongodb://localhost:27017/dev".

(** The world after the first call and the failure of its attempt. *)
Definition failedOnce : World :=
  {| cached := {| conn := None; promise := Some 0%nat |};
     MONGODB_URI := Some mongoUri;
     promises := [Rejected 111];
     waiting := [0%nat];
     effects := [Connect mongoUri 0%nat; ReadEnv] |}.

(** The world three calls later. *)
Definition failedStill : World :=
  {| cached := {| conn := None; promise := Some 0%nat |};
     MONGODB_URI := Some mongoUri;
     promises := [Rejected 111];
     waiting := [0%nat; 0%nat];
     effects := [Connect mongoUri 0%nat; ReadEnv] |}.

(** ** Adjacent characters, times and dates of the format *)

(** Two code units of the class next to each other. *)
Fixpoint hasPair (cls : N -> bool) (s : jsstring) : bool :=
  match s with
  | a :: r =>
      match r with
      | b :: _ => cls a && cls b || hasPair cls r
      | [] => false
      end
  | [] => false
  end.

(** A string that does not start with a code unit of the class. *)
Definition headNot (cls : N -> bool) (s : jsstring) : Prop :=
  match s with
  | c :: _ => cls c = false
  | [] => True
  end.

(** The test of [parseTime] on hours and minutes alone. *)
Definition clockInRange (h mi : Z) : bool :=
  (h <=? 23) && (mi <=? 59) || (h =? 24) && (mi =? 0).

(** A runtime five and a half hours ahead of UTC. *)
Definition kolkataRuntime : Runtime :=
  {| toLowerCase := map lowerASCII;
     legacyParse := fun _ => None;
     localTZA := 19800000 |}.

(** [YYYY-MM-DD] (the year in the form [toISOString] gives it). *)
Definition isoDate (y m d : Z) : jsstring :=
  isoYear y ++ js "-" ++ fixedDigits 2 m ++ js "-" ++ fixedDigits 2 d.

(** ** More events *)

(** An event whose venue is blank and whose time is missing. *)
Definition blankVenue : Document :=
  mkDocument (("venue", VString (js "   ")) :: ("time", VNull)
              :: techTalk " Tech Talk ") ["title"] true.

(** A new event that comes with a slug of its own. *)
Definition ownSlug : Document :=
  mkDocument (("slug", VString (js "my-own-slug"))
              :: techTalk " Tech Talk: AI & You! ") ["title"; "slug"] true.

(** A new event whose title differs from that of [newTechTalk] in case,
    spacing and punctuation only. *)
Definition lookAlike : Document :=
  mkDocument (techTalk "tech talk -- AI you") ["title"] true.

(** ** The attempts and the connection *)

(** What holds of the attempts in every world a process started with the
    connection string [uri] reaches: with no promise cached nothing has
    been attempted; with a promise cached it is the first promise and the
    one attempt made is its own, on the connection string. *)
Definition singleAttempt (uri : option jsstring) (w : World) : Prop :=
  MONGODB_URI w = uri
  /\ match promise (cached w) with
     | None => promises w = [] /\ attempts w = []
     | Some p =>
         p = 0%nat /\ length (promises w) = 1%nat
         /\ exists u, uri = Some u /\ absentUri uri = false
                      /\ attempts w = [Connect u 0%nat]
     end.

(** The cache once the attempt has succeeded: the cached promise is
    fulfilled with [c]. *)
Definition established (p : PromiseId) (c : Connection) (w : World) : Prop :=
  wellFormed w
  /\ promise (cached w) = Some p
  /\ promises w !! p = Some (Fulfilled c).

(** The world after a first call whose attempt has succeeded. *)
Definition connectedOnce : World :=
  {| cached := {| conn := None; promise := Some 0%nat |};
     MONGODB_URI := Some mongoUri;
     promises := [Fulfilled 9];
     waiting := [0%nat];
     effects := [Connect mongoUri 0%nat; ReadEnv] |}.

(** The world after two calls, the success of the attempt and the
    continuation of both calls. *)
Definition connectedTwice : World :=
  {| cached := {| conn := Some 9%N; promise := Some 0%nat |};
     MONGODB_URI := Some mongoUri;
     promises := [Fulfilled 9];
     waiting := [];
     effects := [Connect mongoUri 0%nat; ReadEnv] |}.

(** ** Attributes and what the schema makes of them *)





(** [YYYY-MM-DDTHH:mm] *)
Definition isoMinute (y m d h mi : Z) : jsstring :=
  isoDate y m d ++ js "T" ++ fixedDigits 2 h ++ js ":" ++ fixedDigits 2 mi.

(* ===================================================================== *)
(** * Strings: lemmas *)
(* ===================================================================== *)

Lemma replaceEach_nil cls s :
  replaceEach cls [] s = List.filter (fun c => negb (cls c)) s.
Proof.
  induction s as [|c r IH]; simpl; [reflexivity|].
  destruct (cls c); simpl; rewrite IH; reflexivity.
Qed.

Lemma replaceRunsFrom_true cls d s :
  replaceRunsFrom cls [d] true s
  = replaceRunsFrom cls [d] false (dropWhile cls s).
Proof.
  induction s as [|c r IH]; simpl; [reflexivity|].
  destruct (cls c) eqn:E; simpl; [exact IH|].
  rewrite E. reflexivity.
Qed.

Lemma replaceRuns_squeeze cls d s :
  replaceRuns cls [d] s = squeeze cls d s.
Proof.
  unfold replaceRuns.
  funelim (squeeze cls d s); simpl.
  - reflexivity.
  - rewrite Heq. simpl. f_equal.
    rewrite replaceRunsFrom_true. assumption.
  - rewrite Heq. f_equal. assumption.
Qed.

Lemma filter_notSlugChar s :
  List.filter (fun c => negb (notSlugChar c)) s = List.filter isSlugChar s.
Proof.
  apply List.filter_ext. intros c. unfold notSlugChar.
  apply negb_involutive.
Qed.

Lemma trimStart_headOk s : headOk (trimStart s).
Proof.
  induction s as [|c r IH]; simpl; [exact I|].
  destruct (isWhiteSpace c) eqn:E; [exact IH|]. simpl. exact E.
Qed.

Lemma trimStart_id s : headOk s -> trimStart s = s.
Proof. destruct s as [|c r]; simpl; [reflexivity|]. intros ->. reflexivity. Qed.

Lemma trimStart_split s :
  exists w, s = w ++ trimStart s /\ Forall (fun c => isWhiteSpace c = true) w.
Proof.
  induction s as [|c r (w & Hs & Hw)]; simpl.
  - exists []. split; [reflexivity|constructor].
  - destruct (isWhiteSpace c) eqn:E.
    + exists (c :: w). split; [simpl; congruence|]. constructor; assumption.
    + exists []. split; [reflexivity|constructor].
Qed.

Lemma trimEnd_split s :
  exists w, s = trimEnd s ++ w /\ Forall (fun c => isWhiteSpace c = true) w.
Proof.
  destruct (trimStart_split (rev s)) as (w & Hs & Hw).
  exists (rev w). split.
  - unfold trimEnd. rewrite <- rev_app_distr, <- Hs, rev_involutive.
    reflexivity.
  - apply Forall_forall. intros c Hc.
    rewrite Forall_forall in Hw. apply Hw.
    apply list_elem_of_In. apply list_elem_of_In in Hc.
    apply in_rev. assumption.
Qed.

Lemma trimEnd_lastOk s : headOk (rev (trimEnd s)).
Proof. unfold trimEnd. rewrite rev_involutive. apply trimStart_headOk. Qed.

Lemma trimEnd_headOk s : headOk s -> headOk (trimEnd s).
Proof.
  intros H. destruct (trimEnd_split s) as (w & Hs & _).
  destruct (trimEnd s) as [|c r] eqn:E; [exact I|].
  rewrite Hs in H. simpl in *. exact H.
Qed.

Lemma trimEnd_id s : headOk (rev s) -> trimEnd s = s.
Proof.
  intros H. unfold trimEnd. rewrite trimStart_id by assumption.
  apply rev_involutive.
Qed.

(** [trim] is the identity on a string with no whitespace at either end. *)
Lemma trim_id s : headOk s -> headOk (rev s) -> trim s = s.
Proof.
  intros H1 H2. unfold trim. rewrite (trimStart_id s H1).
  apply trimEnd_id, H2.
Qed.

Lemma trim_headOk s : headOk (trim s).
Proof. apply trimEnd_headOk, trimStart_headOk. Qed.

Lemma trim_lastOk s : headOk (rev (trim s)).
Proof. apply trimEnd_lastOk. Qed.

Lemma trim_idem s : trim (trim s) = trim s.
Proof. apply trim_id; [apply trim_headOk|apply trim_lastOk]. Qed.

Lemma headOk_Forall (p : N -> bool) s :
  (forall c, p c = true -> isWhiteSpace c = false) ->
  Forall (fun c => p c = true) s -> headOk s.
Proof. intros Hp H. destruct H; simpl; auto. Qed.

Lemma Forall_rev_N (P : N -> Prop) s : Forall P s -> Forall P (rev s).
Proof.
  rewrite !Forall_forall. intros H c Hc. apply H.
  apply list_elem_of_In. apply list_elem_of_In in Hc.
  apply in_rev in Hc. assumption.
Qed.

(** [trim] is the identity on a string without whitespace. *)
Lemma trim_no_space (p : N -> bool) s :
  (forall c, p c = true -> isWhiteSpace c = false) ->
  Forall (fun c => p c = true) s -> trim s = s.
Proof.
  intros Hp H. apply trim_id.
  - eapply headOk_Forall; eassumption.
  - eapply headOk_Forall; [eassumption|]. apply Forall_rev_N, H.
Qed.

(* ===================================================================== *)
(** * Documents: lemmas *)
(* ===================================================================== *)

Lemma get_setString k k' s d :
  get (setString k s d) k'
  = if decide (k = k') then VString (trim s) else get d k'.
Proof.
  unfold get, setString. simpl.
  destruct (decide (k = k')) as [->|Hne].
  - rewrite lookup_insert_eq. reflexivity.
  - rewrite lookup_insert_ne by assumption. reflexivity.
Qed.

Lemma get_setString_eq k s d : get (setString k s d) k = VString (trim s).
Proof. rewrite get_setString. destruct (decide (k = k)); congruence. Qed.

Lemma get_setString_ne k k' s d :
  k <> k' -> get (setString k s d) k' = get d k'.
Proof. intros H. rewrite get_setString. destruct (decide (k = k')); congruence. Qed.

Lemma isNew_setString k s d : isNew (setString k s d) = isNew d.
Proof. reflexivity. Qed.

Lemma isModified_setString k k' s d :
  isModified k' (setString k s d)
  = isModified k' d
    || bool_decide (k = k')
       && (isNew d || negb (bool_decide (get d k = VString (trim s)))).
Proof.
  unfold isModified, setString. simpl.
  destruct (isNew d || negb (bool_decide (get d k = VString (trim s)))).
  - rewrite andb_true_r. apply eq_true_iff_eq.
    rewrite orb_true_iff, !bool_decide_eq_true.
    rewrite elem_of_union, elem_of_singleton. intuition congruence.
  - rewrite andb_false_r, orb_false_r. reflexivity.
Qed.

Lemma hook_bind_run {A B} (m : hook A) (f : A -> hook B) d :
  (m ≫= f) d
  = match m d with
    | (d', Ok a) => f a d'
    | (d', Throw e) => (d', Throw e)
    end.
Proof. reflexivity. Qed.

Lemma forEach_cons {A} (x : A) l body d :
  forEach (x :: l) body d
  = match body x d with
    | (d', Ok _) => forEach l body d'
    | (d', Throw e) => (d', Throw e)
    end.
Proof. reflexivity. Qed.

Lemma requireNonEmpty_run f d :
  requireNonEmpty f d
  = if fieldOk d f then (trimField d f, Ok tt)
    else (d, Throw (RequiredFieldError f)).
Proof.
  unfold requireNonEmpty, fieldOk, trimField.
  rewrite hook_bind_run. unfold this.
  destruct (get d f); try reflexivity.
  destruct (Nat.eqb (length (trim s)) 0); reflexivity.
Qed.

Lemma get_trimField d f g :
  get (trimField d f) g
  = if decide (f = g) then trimValue (get d g) else get d g.
Proof.
  unfold trimField.
  destruct (decide (f = g)) as [->|Hne].
  - destruct (get d g) eqn:E; simpl; rewrite ?E; try reflexivity.
    rewrite get_setString_eq, trim_idem. reflexivity.
  - destruct (get d f); try reflexivity.
    apply get_setString_ne, Hne.
Qed.

Lemma trimValue_idem v : trimValue (trimValue v) = trimValue v.
Proof. destruct v; simpl; rewrite ?trim_idem; reflexivity. Qed.

Lemma fieldOk_trimField d f g : fieldOk (trimField d f) g = fieldOk d g.
Proof.
  unfold fieldOk. rewrite get_trimField.
  destruct (decide (f = g)); [|reflexivity].
  destruct (get d g); simpl; rewrite ?trim_idem; reflexivity.
Qed.

Lemma isNew_trimField d f : isNew (trimField d f) = isNew d.
Proof. unfold trimField. destruct (get d f); reflexivity. Qed.

Lemma isNew_trimFields l d : isNew (trimFields l d) = isNew d.
Proof.
  revert d. induction l as [|f l IH]; intros d; simpl; [reflexivity|].
  unfold trimFields in IH. rewrite IH. apply isNew_trimField.
Qed.

Lemma get_trimFields l d g :
  get (trimFields l d) g
  = if bool_decide (g ∈ l) then trimValue (get d g) else get d g.
Proof.
  revert d. induction l as [|f l IH]; intros d; simpl.
  - reflexivity.
  - unfold trimFields in IH. rewrite IH, get_trimField.
    destruct (decide (f = g)) as [->|Hne].
    + rewrite (bool_decide_eq_true_2 (g ∈ g :: l)) by (left).
      rewrite trimValue_idem. destruct (bool_decide (g ∈ l)); reflexivity.
    + rewrite (bool_decide_ext (g ∈ f :: l) (g ∈ l)); [reflexivity|].
      rewrite elem_of_cons. intuition congruence.
Qed.

Lemma forallb_eq {A} (f g : A -> bool) l :
  (forall x, f x = g x) -> forallb f l = forallb g l.
Proof. intros H. induction l; simpl; [reflexivity|]. rewrite H, IHl. reflexivity. Qed.

(** The loop passes exactly when every field passes its test, and then
    it has trimmed them all. *)
Lemma loop_ok l d :
  forallb (fieldOk d) l = true ->
  forEach l requireNonEmpty d = (trimFields l d, Ok tt).
Proof.
  revert d. induction l as [|f l IH]; intros d H; simpl in H.
  - reflexivity.
  - apply andb_true_iff in H as [Hf Hl].
    rewrite forEach_cons, requireNonEmpty_run, Hf. simpl.
    apply IH. rewrite <- Hl. apply forallb_eq.
    intros g. apply fieldOk_trimField.
Qed.

Lemma loop_fail l d :
  forallb (fieldOk d) l = false ->
  exists d' f, forEach l requireNonEmpty d = (d', Throw (RequiredFieldError f))
               /\ f ∈ l /\ fieldOk d f = false.
Proof.
  revert d. induction l as [|f l IH]; intros d H; simpl in H.
  - discriminate.
  - rewrite forEach_cons, requireNonEmpty_run.
    destruct (fieldOk d f) eqn:Hf; simpl in H.
    + destruct (IH (trimField d f)) as (d' & g & Hrun & Hin & Hg).
      { rewrite <- H. apply forallb_eq. intros g. apply fieldOk_trimField. }
      exists d', g. rewrite fieldOk_trimField in Hg.
      split; [assumption|]. split; [right; assumption|assumption].
    + exists d, f. split; [reflexivity|]. split; [left|assumption].
Qed.

Lemma isModified_trimField d f k :
  isModified k (trimField d f)
  = isModified k d
    || bool_decide (f = k) && isString (get d k)
       && (isNew d || negb (bool_decide (get d k = trimValue (get d k)))).
Proof.
  unfold trimField.
  destruct (decide (f = k)) as [->|Hne].
  - rewrite (bool_decide_eq_true_2 (k = k)) by reflexivity.
    destruct (get d k) eqn:E; simpl; rewrite ?orb_false_r; try reflexivity.
    rewrite isModified_setString, E, trim_idem.
    rewrite (bool_decide_eq_true_2 (k = k)) by reflexivity. reflexivity.
  - rewrite (bool_decide_eq_false_2 (f = k)) by assumption.
    simpl. rewrite orb_false_r.
    destruct (get d f); try reflexivity.
    rewrite isModified_setString, (bool_decide_eq_false_2 (f = k)) by assumption.
    simpl. apply orb_false_r.
Qed.

(** Modified paths stay modified through the loop. *)
Lemma isModified_trimFields_mono l d k :
  isModified k d = true -> isModified k (trimFields l d) = true.
Proof.
  revert d. induction l as [|f l IH]; intros d H; simpl; [assumption|].
  apply IH. rewrite isModified_trimField, H. reflexivity.
Qed.

(** On a stored document whose path [k] is already trimmed, the loop does
    not mark [k] modified. *)
Lemma isModified_trimFields_stable l d k :
  isNew d = false -> trimValue (get d k) = get d k ->
  isModified k (trimFields l d) = isModified k d.
Proof.
  revert d. induction l as [|f l IH]; intros d Hn Ht; simpl; [reflexivity|].
  unfold trimFields in IH. rewrite IH.
  - rewrite isModified_trimField, Hn, Ht.
    rewrite (bool_decide_eq_true_2 (get d k = get d k)) by reflexivity.
    simpl. rewrite andb_false_r. apply orb_false_r.
  - rewrite isNew_trimField. assumption.
  - rewrite get_trimField. destruct (decide (f = k)); [|assumption].
    apply trimValue_idem.
Qed.

(** ** The characters of a slug *)

Lemma isSlugOut_no_space c : isSlugOut c = true -> isWhiteSpace c = false.
Proof.
  unfold isSlugOut, isLowerAlnum, isDash, isWhiteSpace. intros H.
  apply not_true_iff_false. intros Hw.
  rewrite ?orb_true_iff, ?andb_true_iff, ?N.leb_le, ?N.eqb_eq in H.
  rewrite ?orb_true_iff, ?andb_true_iff, ?N.leb_le, ?N.eqb_eq in Hw.
  lia.
Qed.

Lemma filter_Forall (p : N -> bool) s :
  Forall (fun c => p c = true) (List.filter p s).
Proof.
  induction s as [|c r IH]; simpl; [constructor|].
  destruct (p c) eqn:E; [constructor; assumption|assumption].
Qed.

Lemma dropWhile_Forall (P : N -> Prop) p s :
  Forall P s -> Forall P (dropWhile p s).
Proof.
  induction 1 as [|c r Hc Hr IH]; simpl; [constructor|].
  destruct (p c); [assumption|constructor; assumption].
Qed.

Lemma squeeze_Forall (P : N -> Prop) cls d s :
  P d -> Forall (fun c => cls c = false -> P c) s ->
  Forall P (squeeze cls d s).
Proof.
  intros Hd. funelim (squeeze cls d s); intros Hs.
  - constructor.
  - constructor; [assumption|]. apply H; [assumption|].
    apply dropWhile_Forall. inversion Hs; assumption.
  - inversion Hs; subst. constructor; [auto|]. apply H; assumption.
Qed.

(** A slug holds lower-case letters, digits and dashes only. *)
Lemma slugify_chars rt title :
  Forall (fun c => isSlugOut c = true) (slugify rt title).
Proof.
  unfold slugify. change (js "-") with [45%N]. change (js "") with (@nil N).
  rewrite !replaceRuns_squeeze, replaceEach_nil, filter_notSlugChar.
  apply squeeze_Forall; [reflexivity|].
  apply Forall_impl with (P := fun c => isSlugOut c = true); [|auto].
  apply squeeze_Forall; [reflexivity|].
  eapply Forall_impl; [apply filter_Forall|].
  intros c Hc Hw. simpl in Hc. unfold isSlugChar in Hc. unfold isSlugOut.
  rewrite Hw, orb_false_r in Hc. assumption.
Qed.

(** The [trim] setter of the [slug] path leaves a slug as it is. *)
Lemma trim_slugify rt title : trim (slugify rt title) = slugify rt title.
Proof.
  apply (trim_no_space isSlugOut).
  - apply isSlugOut_no_space.
  - apply slugify_chars.
Qed.

(* ===================================================================== *)
(** * The Event hook, step by step *)
(* ===================================================================== *)

Lemma fieldOk_string d f :
  fieldOk d f = true -> exists s, get d f = VString s /\ trim s <> [].
Proof.
  unfold fieldOk. destruct (get d f); try discriminate.
  intros H. exists s. split; [reflexivity|].
  intros E. rewrite E in H. discriminate.
Qed.

Lemma passesLoop_field d f :
  passesLoop d = true -> f ∈ requiredStringFields -> fieldOk d f = true.
Proof.
  unfold passesLoop. rewrite forallb_forall. intros H Hin.
  apply H, list_elem_of_In, Hin.
Qed.

Lemma afterLoop_field d f :
  passesLoop d = true -> f ∈ requiredStringFields ->
  get (afterLoop d) f = VString (trim (strOf (get d f))).
Proof.
  intros Hp Hin. unfold afterLoop.
  rewrite get_trimFields, (bool_decide_eq_true_2 _ Hin).
  destruct (fieldOk_string d f (passesLoop_field d f Hp Hin)) as (s & -> & _).
  reflexivity.
Qed.

Lemma afterLoop_other d f :
  f ∉ requiredStringFields -> get (afterLoop d) f = get d f.
Proof.
  intros Hin. unfold afterLoop.
  rewrite get_trimFields, (bool_decide_eq_false_2 _ Hin). reflexivity.
Qed.

Lemma in_required_title : "title" ∈ requiredStringFields.
Proof. apply list_elem_of_In. simpl. tauto. Qed.

Lemma in_required_date : "date" ∈ requiredStringFields.
Proof. apply list_elem_of_In. simpl. tauto. Qed.

Lemma in_required_time : "time" ∈ requiredStringFields.
Proof. apply list_elem_of_In. simpl. tauto. Qed.

Lemma slug_not_required : "slug" ∉ requiredStringFields.
Proof. rewrite list_elem_of_In. simpl. intuition discriminate. Qed.

Lemma get_afterSlug_ne rt d k : k <> "slug" -> get (afterSlug rt d) k = get d k.
Proof.
  intros H. unfold afterSlug.
  destruct (isModified "title" d || negb (truthy (get d "slug")));
    [|reflexivity].
  apply get_setString_ne. congruence.
Qed.

Lemma loop_passes d :
  passesLoop d = true ->
  forEach requiredStringFields requireNonEmpty d = (afterLoop d, Ok tt).
Proof. apply loop_ok. Qed.

(** The hook on a document that passes the loop, statement by
    statement. *)
Lemma eventPreSave_run rt d :
  passesLoop d = true ->
  eventPreSave rt d
  = let d1 := afterLoop d in
    let d2 := afterSlug rt d1 in
    match Date_parse rt (strOf (get d1 "date")) with
    | None => (d2, Throw InvalidDateError)
    | Some t =>
        let d3 := setString "date" (toISOString t) d2 in
        match normalizeTime rt (strOf (get d1 "time")) with
        | Throw e => (d3, Throw e)
        | Ok n => (setString "time" n d3, Ok tt)
        end
    end.
Proof.
  intros Hp. unfold eventPreSave.
  rewrite hook_bind_run, (loop_passes _ Hp).
  set (d1 := afterLoop d).
  assert (Ht : get d1 "title" = VString (trim (strOf (get d "title"))))
    by (apply afterLoop_field; [assumption|apply in_required_title]).
  assert (Hd : get d1 "date" = VString (trim (strOf (get d "date"))))
    by (apply afterLoop_field; [assumption|apply in_required_date]).
  assert (Hm : get d1 "time" = VString (trim (strOf (get d "time"))))
    by (apply afterLoop_field; [assumption|apply in_required_time]).
  cbv zeta.
  rewrite hook_bind_run. unfold this at 1. rewrite hook_bind_run.
  assert (Hslug :
    (if isModified "title" d1 || negb (truthy (get d1 "slug"))
     then title ← readString "title"; assign "slug" (slugify rt title)
     else mret tt) d1 = (afterSlug rt d1, Ok tt)).
  { unfold afterSlug.
    destruct (isModified "title" d1 || negb (truthy (get d1 "slug")));
      [|reflexivity].
    rewrite hook_bind_run. unfold readString. rewrite Ht. reflexivity. }
  rewrite Hslug. rewrite hook_bind_run. unfold this at 1.
  rewrite hook_bind_run.
  rewrite (get_afterSlug_ne rt d1 "date") by discriminate.
  rewrite Hd. cbn [Date_new strOf].
  destruct (Date_parse rt _) as [t|]; [|reflexivity].
  unfold assign at 1.
  rewrite hook_bind_run. unfold readString.
  rewrite get_setString_ne by discriminate.
  rewrite (get_afterSlug_ne rt d1 "time") by discriminate.
  rewrite Hm. rewrite hook_bind_run. unfold lift. cbn [strOf].
  destruct (normalizeTime rt _); reflexivity.
Qed.

Lemma eventPreSave_loop_fails rt d :
  passesLoop d = false ->
  exists d' f, eventPreSave rt d = (d', Throw (RequiredFieldError f))
               /\ f ∈ requiredStringFields /\ fieldOk d f = false.
Proof.
  intros Hp. destruct (loop_fail _ _ Hp) as (d' & f & Hrun & Hin & Hf).
  exists d', f. split; [|split; assumption].
  unfold eventPreSave. rewrite hook_bind_run, Hrun. reflexivity.
Qed.

Lemma slugify_specSlug rt title : slugify rt title = specSlug rt title.
Proof.
  unfold slugify, specSlug.
  change (js "-") with [45%N]. change (js "") with (@nil N).
  rewrite !replaceRuns_squeeze, replaceEach_nil, filter_notSlugChar.
  reflexivity.
Qed.

(** The slug path after the hook, on a document that passes the loop. *)
Lemma slug_after_hook rt d :
  passesLoop d = true ->
  get (fst (eventPreSave rt d)) "slug" = get (afterSlug rt (afterLoop d)) "slug".
Proof.
  intros Hp. rewrite (eventPreSave_run rt d Hp). cbv zeta.
  destruct (Date_parse rt _); [|reflexivity].
  destruct (normalizeTime rt _); simpl;
    rewrite ?get_setString_ne by discriminate; reflexivity.
Qed.

(** The title path after the hook, on a document that passes the loop. *)
Lemma title_after_hook rt d :
  passesLoop d = true ->
  get (fst (eventPreSave rt d)) "title"
  = VString (trim (strOf (get d "title"))).
Proof.
  intros Hp. rewrite (eventPreSave_run rt d Hp). cbv zeta.
  rewrite <- (afterLoop_field d "title" Hp in_required_title).
  destruct (Date_parse rt _); [destruct (normalizeTime rt _)|]; simpl;
    rewrite ?get_setString_ne by discriminate;
    apply get_afterSlug_ne; discriminate.
Qed.

Lemma asciiRuntime_lowers : lowers_ascii asciiRuntime.
Proof. intros s _. reflexivity. Qed.

Lemma isASCII_js s :
  forallb (fun c => (c <? 128)%N) (js s) = true -> isASCII (js s).
Proof.
  intros H. apply Forall_forall. intros c Hc.
  rewrite forallb_forall in H. apply N.ltb_lt, H, list_elem_of_In, Hc.
Qed.

(* ===================================================================== *)
(** * Dates: lemmas *)
(* ===================================================================== *)

(** ** Digits *)
Lemma digitVal_digitChar v : 0 <= v <= 9 -> digitVal (digitChar v) = Some v.
Proof.
  intros H. unfold digitVal, digitChar.
  assert (Hb : ((48 <=? Z.to_N (48 + v)) && (Z.to_N (48 + v) <=? 57))%N = true).
  { apply andb_true_iff. split; apply N.leb_le; lia. }
  rewrite Hb. f_equal. lia.
Qed.

Lemma digitChar_range v :
  0 <= v <= 9 -> (48 <= digitChar v <= 57)%N.
Proof. unfold digitChar. lia. Qed.

Lemma readDigits_snoc n acc s :
  readDigits (S n) acc s = readDigits n acc s ≫= readOne.
Proof.
  revert acc s. induction n as [|n IH]; intros acc s.
  - simpl. unfold readOne. simpl. destruct s as [|c r]; [reflexivity|].
    destruct (digitVal c); reflexivity.
  - change (readDigits (S (S n)) acc s)
      with (match s with
            | c :: r => match digitVal c with
                        | Some v => readDigits (S n) (10 * acc + v) r
                        | None => None
                        end
            | [] => None
            end).
    destruct s as [|c r]; [reflexivity|]. simpl readDigits at 2.
    destruct (digitVal c); [|reflexivity]. apply IH.
Qed.

(** Reading back [n] digits that were written. *)
Lemma readDigits_fixedDigits n v acc rest :
  0 <= v < 10 ^ Z.of_nat n ->
  readDigits n acc (fixedDigits n v ++ rest)
  = Some (acc * 10 ^ Z.of_nat n + v, rest).
Proof.
  revert v rest. induction n as [|n IH]; intros v rest Hv.
  - simpl in *. f_equal. f_equal. lia.
  - rewrite readDigits_snoc. simpl fixedDigits. rewrite <- app_assoc.
    assert (Hp : 10 ^ Z.of_nat (S n) = 10 * 10 ^ Z.of_nat n).
    { rewrite Nat2Z.inj_succ, Z.pow_succ_r by lia. reflexivity. }
    rewrite IH by (rewrite Hp in Hv;
                   split; [apply Z.div_pos; lia|
                           apply Z.div_lt_upper_bound; lia]).
    simpl. unfold readOne. simpl.
    rewrite digitVal_digitChar by (pose proof (Z.mod_pos_bound v 10); lia).
    f_equal. f_equal. rewrite Hp.
    pose proof (Z.div_mod v 10). lia.
Qed.

Lemma fixedDigits_digits n v :
  Forall (fun c => (48 <= c <= 57)%N) (fixedDigits n v).
Proof.
  revert v. induction n as [|n IH]; intros v; simpl; [constructor|].
  apply Forall_app. split; [apply IH|].
  constructor; [|constructor].
  apply digitChar_range. pose proof (Z.mod_pos_bound v 10). lia.
Qed.

Lemma fixedDigits_length n v : length (fixedDigits n v) = n.
Proof.
  revert v. induction n as [|n IH]; intros v; simpl; [reflexivity|].
  rewrite length_app, IH. simpl. lia.
Qed.

(** ** The calendar *)
Ltac div_lia := Z.div_mod_to_equations; lia.

Lemma isLeapYear_spec y :
  isLeapYear y = true <-> y mod 4 = 0 /\ (y mod 100 <> 0 \/ y mod 400 = 0).
Proof.
  unfold isLeapYear.
  rewrite andb_true_iff, orb_true_iff, negb_true_iff, !Z.eqb_eq, Z.eqb_neq.
  reflexivity.
Qed.

Lemma DayFromYear_succ y : DayFromYear (y + 1) = DayFromYear y + DaysInYear y.
Proof.
  unfold DaysInYear.
  destruct (isLeapYear y) eqn:E.
  - apply isLeapYear_spec in E. unfold DayFromYear. div_lia.
  - assert (H : ~ (y mod 4 = 0 /\ (y mod 100 <> 0 \/ y mod 400 = 0))).
    { rewrite <- isLeapYear_spec, E. discriminate. }
    unfold DayFromYear. div_lia.
Qed.

(** [YearFromDay] is the year ECMAScript defines: the one whose days
    include [d]. *)
Lemma YearFromDay_spec d :
  DayFromYear (YearFromDay d) <= d < DayFromYear (YearFromDay d + 1).
Proof.
  unfold YearFromDay.
  set (y := 1970 + d * 10000 / 3652425).
  assert (Hlo : DayFromYear (y - 1) <= d).
  { unfold DayFromYear, y. div_lia. }
  assert (Hhi : d < DayFromYear (y + 2)).
  { unfold DayFromYear, y. div_lia. }
  destruct (Z.ltb_spec d (DayFromYear y)).
  - replace (y - 1 + 1) with y by lia. lia.
  - destruct (Z.leb_spec (DayFromYear (y + 1)) d).
    + replace (y + 1 + 1) with (y + 2) by lia. lia.
    + lia.
Qed.

Lemma DayFromYear_mono y1 y2 : y1 <= y2 -> DayFromYear y1 <= DayFromYear y2.
Proof. unfold DayFromYear. intros H. div_lia. Qed.

(** The year is unique: ECMAScript's "largest [y] with
    [DayFromYear y <= d]". *)
Lemma YearFromDay_unique d y :
  DayFromYear y <= d < DayFromYear (y + 1) -> YearFromDay d = y.
Proof.
  intros H. pose proof (YearFromDay_spec d) as H'.
  destruct (Z.lt_trichotomy (YearFromDay d) y) as [Hlt|[Heq|Hgt]];
    [|assumption|].
  - pose proof (DayFromYear_mono (YearFromDay d + 1) y). lia.
  - pose proof (DayFromYear_mono (y + 1) (YearFromDay d)). lia.
Qed.

Lemma DayWithinYear_range t :
  0 <= DayWithinYear t < DaysInYear (YearFromTime t).
Proof.
  unfold DayWithinYear, YearFromTime.
  pose proof (YearFromDay_spec (Day t)) as H.
  rewrite DayFromYear_succ in H. lia.
Qed.

Lemma monthOfDay_range (leap : bool) (dy : Z) :
  0 <= dy < (if leap then 366 else 365) ->
  0 <= monthOfDay leap dy <= 11
  /\ monthStart leap (monthOfDay leap dy) <= dy
     < monthStart leap (monthOfDay leap dy + 1).
Proof.
  intros H. unfold monthOfDay.
  destruct leap;
    repeat match goal with
           | |- context [Z.ltb dy ?b] =>
               let b' := eval vm_compute in b in
               change b with b'; destruct (Z.ltb_spec dy b')
           end; vm_compute monthStart; lia.
Qed.

Lemma DaysInMonth_range y m : 0 <= m <= 11 -> 28 <= DaysInMonth y m <= 31.
Proof.
  intros H. unfold DaysInMonth.
  assert (Hm : m = 0 \/ m = 1 \/ m = 2 \/ m = 3 \/ m = 4 \/ m = 5 \/ m = 6
               \/ m = 7 \/ m = 8 \/ m = 9 \/ m = 10 \/ m = 11) by lia.
  destruct (isLeapYear y);
    repeat (destruct Hm as [->|Hm]; [vm_compute; split; discriminate|]);
    subst; vm_compute; split; discriminate.
Qed.

(** The date fields of a time value are a date of the calendar. *)
Lemma date_fields_valid t :
  validDate (YearFromTime t) (MonthFromTime t + 1) (DateFromTime t) = true.
Proof.
  pose proof (DayWithinYear_range t) as Hd.
  unfold DaysInYear in Hd.
  pose proof (monthOfDay_range (isLeapYear (YearFromTime t))
                (DayWithinYear t) Hd) as (Hm & Hs).
  unfold validDate, DateFromTime, DaysInMonth.
  fold (MonthFromTime t) in *.
  replace (MonthFromTime t + 1 - 1) with (MonthFromTime t) by lia.
  rewrite !andb_true_iff, !Z.leb_le. lia.
Qed.

(** [MakeDay] rebuilds the day from its date fields. *)
Lemma MakeDay_fields t :
  MakeDay (YearFromTime t) (MonthFromTime t) (DateFromTime t) = Day t.
Proof. unfold MakeDay, DateFromTime, DayWithinYear. lia. Qed.

(** ** The time within the day *)
Lemma time_fields t :
  0 <= HourFromTime t <= 23 /\ 0 <= MinFromTime t <= 59
  /\ 0 <= SecFromTime t <= 59 /\ 0 <= msFromTime t <= 999
  /\ MakeTime (HourFromTime t) (MinFromTime t) (SecFromTime t) (msFromTime t)
     = TimeWithinDay t.
Proof.
  unfold HourFromTime, MinFromTime, SecFromTime, msFromTime, MakeTime,
    TimeWithinDay, msPerHour, msPerMinute, msPerSecond, msPerDay.
  div_lia.
Qed.

Lemma MakeDate_fields t : MakeDate (Day t) (TimeWithinDay t) = t.
Proof.
  unfold MakeDate, Day, TimeWithinDay, msPerDay.
  pose proof (Z.div_mod t 86400000). lia.
Qed.

(** The years of the time values: -271821 to 275760. *)
Lemma year_range t :
  Z.abs t <= maxTime -> -271821 <= YearFromTime t <= 275760.
Proof.
  intros H. unfold YearFromTime.
  pose proof (YearFromDay_spec (Day t)) as Hy.
  assert (Hd : -100000000 <= Day t <= 100000000).
  { unfold Day, msPerDay, maxTime in *. div_lia. }
  revert Hy. generalize (YearFromDay (Day t)). intros y.
  rewrite DayFromYear_succ. unfold DaysInYear, DayFromYear.
  destruct (isLeapYear y); div_lia.
Qed.

(** ** Reading back what [toISOString] writes *)
Lemma readDigits_back n v rest :
  0 <= v < 10 ^ Z.of_nat n ->
  readDigits n 0 (fixedDigits n v ++ rest) = Some (v, rest).
Proof. intros H. rewrite readDigits_fixedDigits by assumption. reflexivity. Qed.

Lemma eat_cons c r : eat c (c :: r) = Some r.
Proof. unfold eat. rewrite N.eqb_refl. reflexivity. Qed.

Lemma eat_other c c' r : c' <> c -> eat c (c' :: r) = None.
Proof. intros H. unfold eat. apply N.eqb_neq in H. rewrite H. reflexivity. Qed.

Lemma fixedDigits_cons n v :
  exists c r, fixedDigits (S n) v = c :: r /\ (48 <= c <= 57)%N.
Proof.
  pose proof (fixedDigits_digits (S n) v) as Hd.
  pose proof (fixedDigits_length (S n) v) as Hl.
  destruct (fixedDigits (S n) v) as [|c r]; [discriminate|].
  exists c, r. split; [reflexivity|]. inversion Hd; assumption.
Qed.

Lemma parseYear_isoYear y rest :
  -999999 <= y <= 999999 -> parseYear (isoYear y ++ rest) = Some (y, rest).
Proof.
  intros Hy. unfold parseYear, isoYear.
  destruct (Z.leb_spec 0 y) as [H0|H0]; simpl andb.
  - destruct (Z.leb_spec y 9999) as [H1|H1].
    + destruct (fixedDigits_cons 3 y) as (c & r & E & Hc).
      rewrite E. cbn [app].
      rewrite !eat_other by lia.
      change (c :: r ++ rest) with ((c :: r) ++ rest). rewrite <- E.
      rewrite (readDigits_back 4) by (change (10 ^ Z.of_nat 4) with 10000; lia).
      reflexivity.
    + destruct (Z.ltb_spec y 0); [lia|].
      change (js "+") with [43%N]. cbn [app].
      rewrite eat_cons.
      rewrite (readDigits_back 6) by (change (10 ^ Z.of_nat 6) with 1000000; lia).
      f_equal. f_equal. lia.
  - destruct (Z.ltb_spec y 0); [|lia].
    change (js "-") with [45%N]. cbn [app].
    rewrite eat_other by discriminate. rewrite eat_cons.
    rewrite (readDigits_back 6) by (change (10 ^ Z.of_nat 6) with 1000000; lia).
    cbn [mbind option_bind]. destruct (Z.eqb_spec (Z.abs y) 0); [lia|].
    f_equal. f_equal. lia.
Qed.

Ltac read2 := rewrite (readDigits_back 2) by (change (10 ^ Z.of_nat 2) with 100; lia).

Ltac read3 := rewrite (readDigits_back 3) by (change (10 ^ Z.of_nat 3) with 1000; lia).

Ltac step_bind := cbn [mbind option_bind app].

Lemma parseDate_iso y m d rest :
  -999999 <= y <= 999999 -> 0 <= m <= 99 -> 0 <= d <= 99 ->
  parseDate (isoYear y ++ js "-" ++ fixedDigits 2 m ++ js "-"
             ++ fixedDigits 2 d ++ rest)
  = Some (y, m, d, rest).
Proof.
  intros Hy Hm Hd. unfold parseDate.
  rewrite parseYear_isoYear by assumption.
  change (js "-") with [45%N]. step_bind.
  rewrite eat_cons. read2. step_bind. rewrite eat_cons. read2. reflexivity.
Qed.

Lemma parseTime_full h mi sec ms rest :
  0 <= h <= 23 -> 0 <= mi <= 59 -> 0 <= sec <= 59 -> 0 <= ms <= 999 ->
  parseTime (fixedDigits 2 h ++ js ":" ++ fixedDigits 2 mi ++ js ":"
             ++ fixedDigits 2 sec ++ js "." ++ fixedDigits 3 ms ++ rest)
  = Some (MakeTime h mi sec ms, rest).
Proof.
  intros Hh Hm Hs Hms. unfold parseTime, parseSeconds.
  change (js ":") with [58%N]. change (js ".") with [46%N].
  read2. step_bind. rewrite eat_cons. step_bind. read2. step_bind.
  rewrite eat_cons. read2. step_bind. rewrite eat_cons. read3. step_bind.
  assert (Hc : (h <=? 23) && (mi <=? 59) && (sec <=? 59) = true).
  { rewrite !andb_true_iff, !Z.leb_le. lia. }
  rewrite Hc. reflexivity.
Qed.

Lemma parseTime_short h mi :
  0 <= h <= 23 -> 0 <= mi <= 59 ->
  parseTime (fixedDigits 2 h ++ js ":" ++ fixedDigits 2 mi)
  = Some (MakeTime h mi 0 0, []).
Proof.
  intros Hh Hm. unfold parseTime, parseSeconds.
  change (js ":") with [58%N].
  read2. step_bind. rewrite eat_cons. step_bind.
  rewrite <- (app_nil_r (fixedDigits 2 mi)). read2.
  cbn [mbind option_bind app eat].
  assert (Hc : (h <=? 23) && (mi <=? 59) && (0 <=? 59) = true).
  { rewrite !andb_true_iff, !Z.leb_le. lia. }
  rewrite Hc. reflexivity.
Qed.

(** [Date.parse] reads back what [toISOString] wrote. *)
Lemma parseISO_toISOString tza t :
  Z.abs t <= maxTime -> parseISO tza (toISOString t) = Some t.
Proof.
  intros Ht.
  pose proof (year_range t Ht) as Hy.
  pose proof (date_fields_valid t) as Hv.
  pose proof (time_fields t) as (Hh & Hm & Hs & Hms & Htime).
  assert (Hmd : 1 <= MonthFromTime t + 1 <= 12 /\ 1 <= DateFromTime t <= 31).
  { unfold validDate in Hv. rewrite !andb_true_iff, !Z.leb_le in Hv.
    pose proof (DaysInMonth_range (YearFromTime t) (MonthFromTime t + 1 - 1)).
    lia. }
  unfold parseISO, toISOString.
  rewrite parseDate_iso by lia. step_bind. rewrite Hv.
  change (js "T") with [84%N]. cbn [app]. rewrite eat_cons. step_bind.
  rewrite parseTime_full by assumption. step_bind.
  change (parseOffset (js "Z")) with (Some (Some 0)). step_bind.
  cbn [default]. rewrite Htime.
  replace (MonthFromTime t + 1 - 1) with (MonthFromTime t) by lia.
  rewrite MakeDay_fields, MakeDate_fields. unfold id. f_equal. lia.
Qed.

(** ** Hours and minutes in two digits *)
Lemma decimal_small n : (n < 10)%N -> decimal n = [digitChar (Z.of_N n)].
Proof.
  intros H. simp decimal. destruct (decide (n < 10)%N); [|lia]. reflexivity.
Qed.

Lemma decimal_two n :
  (10 <= n < 100)%N ->
  decimal n = [digitChar (Z.of_N (n / 10)); digitChar (Z.of_N (n mod 10))].
Proof.
  intros H. simp decimal. destruct (decide (n < 10)%N); [lia|].
  cbn. rewrite decimal_small; [reflexivity|].
  apply N.Div0.div_lt_upper_bound. lia.
Qed.

(** Two digits, as [padStart(2, '0')] pads them. *)
Lemma padStart0_two h :
  0 <= h <= 99 -> padStart0 2 (numberToString h) = fixedDigits 2 h.
Proof.
  intros H. unfold numberToString.
  destruct (Z.ltb_spec h 0); [lia|].
  cbn [fixedDigits app].
  destruct (Z.ltb_spec h 10).
  - rewrite decimal_small by lia. rewrite Z2N.id by lia.
    replace (h / 10) with 0 by (symmetry; apply Z.div_small; lia).
    rewrite (Z.mod_small h 10) by lia. reflexivity.
  - rewrite decimal_two by lia.
    change 10%N with (Z.to_N 10).
    rewrite <- Z2N.inj_div, <- Z2N.inj_mod, !Z2N.id by
      (try apply Z.div_pos; try apply Z.mod_pos_bound; lia).
    rewrite (Z.mod_small (h / 10) 10); [reflexivity|].
    split; [apply Z.div_pos; lia|apply Z.div_lt_upper_bound; lia].
Qed.

Lemma getHours_range rt t : 0 <= getHours rt t <= 23.
Proof. unfold getHours. apply time_fields. Qed.

Lemma getMinutes_range rt t : 0 <= getMinutes rt t <= 59.
Proof. unfold getMinutes. apply time_fields. Qed.

(** [normalizeTime] in terms of the parse of the prefixed string. *)
Lemma normalizeTime_run rt value :
  normalizeTime rt value
  = match Date_parse rt (js "1970-01-01T" ++ trim value) with
    | None => Throw InvalidTimeError
    | Some t => Ok (fixedDigits 2 (getHours rt t) ++ js ":"
                    ++ fixedDigits 2 (getMinutes rt t))
    end.
Proof.
  unfold normalizeTime. destruct (Date_parse rt _) as [t|]; [|reflexivity].
  pose proof (getHours_range rt t). pose proof (getMinutes_range rt t).
  rewrite !padStart0_two by lia. reflexivity.
Qed.

Lemma isStampChar_no_space c : isStampChar c = true -> isWhiteSpace c = false.
Proof.
  unfold isStampChar, isWhiteSpace. intros H.
  apply not_true_iff_false. intros Hw.
  rewrite ?orb_true_iff, ?andb_true_iff, ?N.leb_le, ?N.eqb_eq in H.
  rewrite ?orb_true_iff, ?andb_true_iff, ?N.leb_le, ?N.eqb_eq in Hw.
  lia.
Qed.

Lemma fixedDigits_stamp n v :
  Forall (fun c => isStampChar c = true) (fixedDigits n v).
Proof.
  eapply Forall_impl; [apply fixedDigits_digits|].
  intros c Hc. cbv beta in *. unfold isStampChar.
  assert (H : ((48 <=? c) && (c <=? 58))%N = true).
  { rewrite andb_true_iff, !N.leb_le. lia. }
  rewrite H. reflexivity.
Qed.

Lemma js_stamp s :
  forallb isStampChar (js s) = true ->
  Forall (fun c => isStampChar c = true) (js s).
Proof.
  intros H. apply Forall_forall. intros c Hc.
  rewrite forallb_forall in H. apply H, list_elem_of_In, Hc.
Qed.

Lemma isoYear_stamp y : Forall (fun c => isStampChar c = true) (isoYear y).
Proof.
  unfold isoYear.
  destruct ((0 <=? y) && (y <=? 9999)); [apply fixedDigits_stamp|].
  apply Forall_app; split; [|apply fixedDigits_stamp].
  destruct (y <? 0); apply js_stamp; reflexivity.
Qed.

Ltac stamp :=
  lazymatch goal with
  | |- Forall _ (isoYear _ ++ _) =>
      apply Forall_app; split; [apply isoYear_stamp|stamp]
  | |- Forall _ (fixedDigits _ _ ++ _) =>
      apply Forall_app; split; [apply fixedDigits_stamp|stamp]
  | |- Forall _ (js _ ++ _) =>
      apply Forall_app; split; [apply js_stamp; reflexivity|stamp]
  | |- Forall _ (fixedDigits _ _) => apply fixedDigits_stamp
  | |- Forall _ (js _) => apply js_stamp; reflexivity
  end.

Lemma toISOString_stamp t :
  Forall (fun c => isStampChar c = true) (toISOString t).
Proof. unfold toISOString. stamp. Qed.

Lemma trim_toISOString t : trim (toISOString t) = toISOString t.
Proof.
  apply (trim_no_space isStampChar);
    [apply isStampChar_no_space|apply toISOString_stamp].
Qed.

Lemma trim_clock h m :
  trim (fixedDigits 2 h ++ js ":" ++ fixedDigits 2 m)
  = fixedDigits 2 h ++ js ":" ++ fixedDigits 2 m.
Proof.
  apply (trim_no_space isStampChar); [apply isStampChar_no_space|stamp].
Qed.

(** ** [Date.parse] *)
Lemma TimeClip_Some t t' : TimeClip t = Some t' -> t' = t /\ Z.abs t <= maxTime.
Proof.
  unfold TimeClip. destruct (Z.leb_spec (Z.abs t) maxTime); [|discriminate].
  intros [= <-]. split; [reflexivity|assumption].
Qed.

Lemma TimeClip_valid t : Z.abs t <= maxTime -> TimeClip t = Some t.
Proof.
  intros H. unfold TimeClip.
  destruct (Z.leb_spec (Z.abs t) maxTime); [reflexivity|lia].
Qed.

(** A valid date holds a time value. *)
Lemma Date_parse_valid rt s t : Date_parse rt s = Some t -> Z.abs t <= maxTime.
Proof.
  unfold Date_parse. destruct (parseISO _ s) as [t0|].
  - intros H. apply TimeClip_Some in H as [-> H]. assumption.
  - destruct (legacyParse rt s) as [t0|]; [|discriminate].
    cbn [mbind option_bind]. intros H.
    apply TimeClip_Some in H as [-> H]. assumption.
Qed.

Lemma Date_parse_toISOString rt t :
  Z.abs t <= maxTime -> Date_parse rt (toISOString t) = Some t.
Proof.
  intros H. unfold Date_parse.
  rewrite parseISO_toISOString by assumption. apply TimeClip_valid, H.
Qed.

(** A string that is not of the format goes to the engine's own parser. *)
Lemma Date_parse_legacy rt s :
  parseISO (localTZA rt) s = None ->
  Date_parse rt s = legacyParse rt s ≫= TimeClip.
Proof. intros H. unfold Date_parse. rewrite H. reflexivity. Qed.

(** ** A time of day on the epoch date *)
Lemma parseISO_clock tza h m :
  0 <= h <= 23 -> 0 <= m <= 59 ->
  parseISO tza (js "1970-01-01T" ++ fixedDigits 2 h ++ js ":"
                ++ fixedDigits 2 m)
  = Some (MakeTime h m 0 0 - tza).
Proof.
  intros Hh Hm. unfold parseISO.
  change (js "1970-01-01T" ++ fixedDigits 2 h ++ js ":" ++ fixedDigits 2 m)
    with (isoYear 1970 ++ js "-" ++ fixedDigits 2 1 ++ js "-"
          ++ fixedDigits 2 1
          ++ (84%N :: fixedDigits 2 h ++ js ":" ++ fixedDigits 2 m)).
  rewrite parseDate_iso by lia. step_bind.
  change (validDate 1970 1 1) with true. cbn iota.
  rewrite eat_cons. step_bind.
  rewrite parseTime_short by assumption. step_bind.
  reflexivity.
Qed.

Lemma clock_fields h m :
  0 <= h <= 23 -> 0 <= m <= 59 ->
  HourFromTime (MakeTime h m 0 0) = h /\ MinFromTime (MakeTime h m 0 0) = m.
Proof.
  intros Hh Hm.
  unfold HourFromTime, MinFromTime, MakeTime, msPerHour, msPerMinute,
    msPerSecond.
  div_lia.
Qed.

(** [normalizeTime] leaves a normalized time as it is. *)
Lemma normalizeTime_clock rt h m :
  validOffset rt -> 0 <= h <= 23 -> 0 <= m <= 59 ->
  normalizeTime rt (fixedDigits 2 h ++ js ":" ++ fixedDigits 2 m)
  = Ok (fixedDigits 2 h ++ js ":" ++ fixedDigits 2 m).
Proof.
  intros Hz Hh Hm. rewrite normalizeTime_run, trim_clock.
  unfold Date_parse. rewrite parseISO_clock by assumption.
  rewrite TimeClip_valid.
  - unfold getHours, getMinutes, LocalTime.
    replace (MakeTime h m 0 0 - localTZA rt + localTZA rt)
      with (MakeTime h m 0 0) by lia.
    destruct (clock_fields h m Hh Hm) as [-> ->]. reflexivity.
  - unfold validOffset, msPerDay in Hz.
    unfold MakeTime, msPerHour, msPerMinute, msPerSecond, maxTime. lia.
Qed.

Lemma parseISO_nine_five tza : parseISO tza (js "1970-01-01T9:5 AM") = None.
Proof. vm_compute. reflexivity. Qed.

Lemma parseISO_not_a_time tza :
  parseISO tza (js "1970-01-01Tnot-a-time") = None.
Proof. vm_compute. reflexivity. Qed.

Lemma asciiRuntime_offset : validOffset asciiRuntime.
Proof. unfold validOffset. cbn. unfold msPerDay. lia. Qed.

Lemma hook_error_after_loop rt d :
  passesLoop d = true ->
  snd (eventPreSave rt d)
  = match Date_parse rt (trim (strOf (get d "date"))) with
    | None => Throw InvalidDateError
    | Some _ =>
        match normalizeTime rt (trim (strOf (get d "time"))) with
        | Throw e => Throw e
        | Ok _ => Ok tt
        end
    end.
Proof.
  intros Hp. rewrite (eventPreSave_run rt d Hp). cbv zeta.
  rewrite (afterLoop_field d "date" Hp in_required_date).
  rewrite (afterLoop_field d "time" Hp in_required_time).
  cbn [strOf].
  destruct (Date_parse rt _); [|reflexivity].
  destruct (normalizeTime rt _); reflexivity.
Qed.

Lemma normalizeTime_error rt value e :
  normalizeTime rt value = Throw e -> e = InvalidTimeError.
Proof.
  rewrite normalizeTime_run. destruct (Date_parse rt _); [discriminate|].
  intros [= <-]. reflexivity.
Qed.

Lemma date_after_hook rt d t :
  passesLoop d = true ->
  Date_parse rt (trim (strOf (get d "date"))) = Some t ->
  get (fst (eventPreSave rt d)) "date" = VString (toISOString t).
Proof.
  intros Hp Ht. rewrite (eventPreSave_run rt d Hp). cbv zeta.
  rewrite (afterLoop_field d "date" Hp in_required_date).
  cbn [strOf]. rewrite Ht.
  destruct (normalizeTime rt _); cbn [fst];
    rewrite ?get_setString_ne by discriminate;
    rewrite get_setString_eq, trim_toISOString; reflexivity.
Qed.

Lemma fieldOk_blank d f : fieldOk d f = false <-> blank (get d f).
Proof.
  unfold fieldOk, blank. destruct (get d f); try (split; auto; fail).
  destruct (trim s); simpl; split; congruence.
Qed.

Lemma passesLoop_false d f :
  f ∈ requiredStringFields -> blank (get d f) -> passesLoop d = false.
Proof.
  intros Hin Hb. apply not_true_iff_false. intros Hp.
  apply fieldOk_blank in Hb.
  rewrite (passesLoop_field d f Hp Hin) in Hb. discriminate.
Qed.


Lemma passesLoop_not_blank d :
  passesLoop d = true ->
  forall f, f ∈ requiredStringFields -> ~ blank (get d f).
Proof.
  intros Hp f Hin Hb. rewrite (passesLoop_false d f Hin Hb) in Hp.
  discriminate.
Qed.

Lemma invalidPaths_in schema d p v :
  In (p, v) schema -> v (get d p) = false -> invalidPaths schema d <> [].
Proof.
  intros Hin Hv. unfold invalidPaths.
  assert (H : In p (map fst (List.filter
                (fun pv => negb (snd pv (get d (fst pv)))) schema))).
  { apply in_map_iff. exists (p, v). split; [reflexivity|].
    apply filter_In. split; [assumption|]. simpl. rewrite Hv. reflexivity. }
  intros E. rewrite E in H. destruct H.
Qed.

Lemma validate_fails schema d p v :
  In (p, v) schema -> v (get d p) = false ->
  exists paths, validate schema d = Throw (ValidationError paths).
Proof.
  intros Hin Hv. unfold validate.
  pose proof (invalidPaths_in schema d p v Hin Hv) as H.
  destruct (invalidPaths schema d) as [|q l]; [congruence|].
  exists (q :: l). reflexivity.
Qed.

Lemma requiredString_not_blank v : ~ blank v -> requiredString v = true.
Proof.
  destruct v; simpl; try tauto.
  destruct s; [|reflexivity]. intros H. destruct H. reflexivity.
Qed.

Lemma validate_all schema d :
  Forall (fun pv => snd pv (get d (fst pv)) = true) schema ->
  validate schema d = Ok tt.
Proof.
  intros H. unfold validate, invalidPaths.
  assert (E : List.filter (fun pv => negb (snd pv (get d (fst pv)))) schema
              = []).
  { induction H as [|pv l Hpv Hl IH]; simpl; [reflexivity|].
    rewrite Hpv. simpl. exact IH. }
  rewrite E. reflexivity.
Qed.

Lemma validate_passes d :
  (forall f, f ∈ requiredStringFields -> ~ blank (get d f)) ->
  nonEmptyItems (get d "agenda") = true ->
  nonEmptyItems (get d "tags") = true ->
  validate eventSchema d = Ok tt.
Proof.
  intros Hs Ha Ht. apply validate_all. unfold eventSchema.
  repeat (apply Forall_cons_2); try apply Forall_nil_2;
    cbn [fst snd]; try assumption;
    apply requiredString_not_blank, Hs, list_elem_of_In; simpl; tauto.
Qed.


(** A title whose lower-cased form has no character of [[a-z0-9\s-]] has
    the empty slug. *)
Lemma slugify_empty rt title :
  Forall (fun c => isSlugChar c = false) (toLowerCase rt title) ->
  slugify rt title = [].
Proof.
  intros H. rewrite slugify_specSlug. unfold specSlug.
  assert (E : List.filter isSlugChar (trim (toLowerCase rt title)) = []).
  { assert (Ht : Forall (fun c => isSlugChar c = false)
                   (trim (toLowerCase rt title))).
    { unfold trim.
      destruct (trimStart_split (toLowerCase rt title)) as (w1 & E1 & _).
      destruct (trimEnd_split (trimStart (toLowerCase rt title)))
        as (w2 & E2 & _).
      rewrite E1, E2 in H.
      apply Forall_app in H as [_ H]. apply Forall_app in H as [H _].
      exact H. }
    induction Ht as [|c l Hc Hl IH]; simpl; [reflexivity|].
    rewrite Hc. exact IH. }
  rewrite E. reflexivity.
Qed.

Lemma eventSave_pair rt d :
  eventSave rt d = (fst (eventSave rt d), snd (eventSave rt d)).
Proof. destruct (eventSave rt d); reflexivity. Qed.

(* ===================================================================== *)
(** * Saving again *)
(* ===================================================================== *)

(** What a successful hook leaves in each path. *)
Lemma get_after_success rt d :
  passesLoop d = true ->
  snd (eventPreSave rt d) = Ok tt ->
  exists t h m,
    Date_parse rt (trim (strOf (get d "date"))) = Some t
    /\ 0 <= h <= 23 /\ 0 <= m <= 59
    /\ forall k,
         get (fst (eventPreSave rt d)) k
         = if decide (k = "time")
           then VString (fixedDigits 2 h ++ js ":" ++ fixedDigits 2 m)
           else if decide (k = "date") then VString (toISOString t)
           else get (afterSlug rt (afterLoop d)) k.
Proof.
  intros Hp Hok.
  rewrite (hook_error_after_loop rt d Hp) in Hok.
  rewrite (eventPreSave_run rt d Hp). cbv zeta.
  rewrite (afterLoop_field d "date" Hp in_required_date).
  rewrite (afterLoop_field d "time" Hp in_required_time).
  cbn [strOf].
  destruct (Date_parse rt _) as [t|]; [|discriminate].
  rewrite normalizeTime_run in *.
  destruct (Date_parse rt (js "1970-01-01T" ++ _)) as [t'|]; [|discriminate].
  exists t, (getHours rt t'), (getMinutes rt t').
  split; [reflexivity|].
  split; [apply getHours_range|]. split; [apply getMinutes_range|].
  intros k. cbn [fst].
  destruct (decide (k = "time")) as [->|Hk].
  - rewrite get_setString_eq, trim_clock. reflexivity.
  - rewrite get_setString_ne by congruence.
    destruct (decide (k = "date")) as [->|Hk'].
    + rewrite get_setString_eq, trim_toISOString. reflexivity.
    + rewrite get_setString_ne by congruence. reflexivity.
Qed.

Lemma get_saved d k : get (saved d) k = get d k.
Proof. reflexivity. Qed.

Lemma get_afterLoop d k : get (afterLoop d) k
  = if bool_decide (k ∈ requiredStringFields)
    then trimValue (get d k) else get d k.
Proof. apply get_trimFields. Qed.

Lemma get_afterSlug rt d k :
  get (afterSlug rt d) k
  = if decide (k = "slug")
    then (if isModified "title" d || negb (truthy (get d "slug"))
          then VString (slugify rt (strOf (get d "title")))
          else get d "slug")
    else get d k.
Proof.
  destruct (decide (k = "slug")) as [->|Hk];
    [|apply get_afterSlug_ne, Hk].
  unfold afterSlug.
  destruct (isModified "title" d || negb (truthy (get d "slug")));
    [|reflexivity].
  rewrite get_setString_eq, trim_slugify. reflexivity.
Qed.

(** A document whose paths read the same passes the loop alike. *)
Lemma passesLoop_ext d1 d2 :
  (forall k, get d1 k = get d2 k) -> passesLoop d1 = passesLoop d2.
Proof.
  intros H. unfold passesLoop. apply forallb_eq. intros f.
  unfold fieldOk. rewrite H. reflexivity.
Qed.

Lemma fixedDigits_nonempty n v rest : fixedDigits (S n) v ++ rest <> [].
Proof.
  destruct (fixedDigits_cons n v) as (c & r & -> & _). discriminate.
Qed.

Lemma isoYear_nonempty y rest : isoYear y ++ rest <> [].
Proof.
  unfold isoYear. destruct ((0 <=? y) && (y <=? 9999)).
  - apply fixedDigits_nonempty.
  - destruct (y <? 0); discriminate.
Qed.

(** Once the hook has succeeded, every required field holds a string that
    is trimmed and not empty. *)
Lemma required_after_success rt d f :
  passesLoop d = true -> snd (eventPreSave rt d) = Ok tt ->
  f ∈ requiredStringFields ->
  exists s, get (fst (eventPreSave rt d)) f = VString s
            /\ trim s = s /\ s <> [].
Proof.
  intros Hp Hok Hin.
  destruct (get_after_success rt d Hp Hok)
    as (t & h & m & Hparse & Hh & Hm & Hget).
  rewrite Hget.
  destruct (decide (f = "time")) as [->|Ht].
  { eexists. split; [reflexivity|]. split; [apply trim_clock|].
    apply fixedDigits_nonempty. }
  destruct (decide (f = "date")) as [->|Hd].
  { eexists. split; [reflexivity|]. split; [apply trim_toISOString|].
    unfold toISOString. apply isoYear_nonempty. }
  assert (Hs : f <> "slug") by (intros ->; apply slug_not_required, Hin).
  rewrite get_afterSlug_ne by assumption.
  rewrite (afterLoop_field d f Hp Hin).
  destruct (fieldOk_string d f (passesLoop_field d f Hp Hin))
    as (s & E & Hne).
  rewrite E. cbn [strOf].
  eexists. split; [reflexivity|]. split; [apply trim_idem|assumption].
Qed.

Lemma hook_success_doc rt d t n :
  passesLoop d = true ->
  Date_parse rt (trim (strOf (get d "date"))) = Some t ->
  normalizeTime rt (trim (strOf (get d "time"))) = Ok n ->
  fst (eventPreSave rt d)
  = setString "time" n
      (setString "date" (toISOString t) (afterSlug rt (afterLoop d))).
Proof.
  intros Hp Hd Ht. rewrite (eventPreSave_run rt d Hp). cbv zeta.
  rewrite (afterLoop_field d "date" Hp in_required_date).
  rewrite (afterLoop_field d "time" Hp in_required_time).
  cbn [strOf]. rewrite Hd, Ht. reflexivity.
Qed.

Lemma resave rt d :
  validOffset rt -> passesLoop d = true -> snd (eventPreSave rt d) = Ok tt ->
  passesLoop (saved (fst (eventPreSave rt d))) = true
  /\ snd (eventPreSave rt (saved (fst (eventPreSave rt d)))) = Ok tt
  /\ forall k, get (fst (eventPreSave rt (saved (fst (eventPreSave rt d))))) k
               = get (fst (eventPreSave rt d)) k.
Proof.
  intros Hz Hp Hok.
  pose proof (required_after_success rt d) as Hreq.
  destruct (get_after_success rt d Hp Hok)
    as (t & h & m & Hparse & Hh & Hm & Hget).
  set (d' := fst (eventPreSave rt d)) in *.
  assert (Hp' : passesLoop (saved d') = true).
  { unfold passesLoop. apply forallb_forall. intros f Hin.
    apply list_elem_of_In in Hin.
    destruct (Hreq f Hp Hok Hin) as (s & E & Htr & Hne).
    unfold fieldOk. rewrite get_saved, E, Htr.
    destruct s; [congruence|reflexivity]. }
  assert (Hloop : forall k, get (afterLoop (saved d')) k = get d' k).
  { intros k. rewrite get_afterLoop, get_saved.
    destruct (bool_decide (k ∈ requiredStringFields)) eqn:E; [|reflexivity].
    apply bool_decide_eq_true in E.
    destruct (Hreq k Hp Hok E) as (s & -> & Htr & _).
    simpl. rewrite Htr. reflexivity. }
  assert (Hmod : isModified "title" (afterLoop (saved d')) = false).
  { unfold afterLoop. rewrite isModified_trimFields_stable; try reflexivity.
    rewrite get_saved.
    destruct (Hreq "title" Hp Hok in_required_title) as (s & -> & Htr & _).
    simpl. rewrite Htr. reflexivity. }
  assert (Hdate : get d' "date" = VString (toISOString t)).
  { rewrite Hget. reflexivity. }
  assert (Htime : get d' "time"
                  = VString (fixedDigits 2 h ++ js ":" ++ fixedDigits 2 m)).
  { rewrite Hget. reflexivity. }
  assert (Hparse' : Date_parse rt (trim (strOf (get (saved d') "date")))
                    = Some t).
  { rewrite get_saved, Hdate. cbn [strOf]. rewrite trim_toISOString.
    apply Date_parse_toISOString. eapply Date_parse_valid, Hparse. }
  assert (Hnorm : normalizeTime rt (trim (strOf (get (saved d') "time")))
                  = Ok (fixedDigits 2 h ++ js ":" ++ fixedDigits 2 m)).
  { rewrite get_saved, Htime. cbn [strOf]. rewrite trim_clock.
    apply normalizeTime_clock; assumption. }
  assert (Hok' : snd (eventPreSave rt (saved d')) = Ok tt).
  { rewrite (hook_error_after_loop rt _ Hp'), Hparse', Hnorm. reflexivity. }
  split; [assumption|]. split; [assumption|].
  intros k.
  rewrite (hook_success_doc rt (saved d') _ _ Hp' Hparse' Hnorm).
  destruct (decide (k = "time")) as [->|Hkt].
  { rewrite get_setString_eq, trim_clock, Htime. reflexivity. }
  rewrite get_setString_ne by congruence.
  destruct (decide (k = "date")) as [->|Hkd].
  { rewrite get_setString_eq, trim_toISOString, Hdate. reflexivity. }
  rewrite get_setString_ne by congruence.
  rewrite get_afterSlug.
  destruct (decide (k = "slug")) as [->|Hks]; [|apply Hloop].
  rewrite Hmod, !Hloop. cbn [orb].
  destruct (truthy (get d' "slug")) eqn:Hty; [reflexivity|].
  cbn [negb].
  assert (Hslug := Hget "slug").
  destruct (decide ("slug" = "time")) as [?|_]; [discriminate|].
  destruct (decide ("slug" = "date")) as [?|_]; [discriminate|].
  rewrite get_afterSlug in Hslug.
  destruct (decide ("slug" = "slug")) as [_|?]; [|congruence].
  assert (Htitle : get d' "title" = get (afterLoop d) "title").
  { rewrite Hget.
    destruct (decide ("title" = "time")) as [?|_]; [discriminate|].
    destruct (decide ("title" = "date")) as [?|_]; [discriminate|].
    apply get_afterSlug_ne. discriminate. }
  destruct (isModified "title" (afterLoop d)
            || negb (truthy (get (afterLoop d) "slug"))) eqn:Hc.
  - rewrite Hslug, Htitle. reflexivity.
  - apply orb_false_iff in Hc as [_ Hc]. apply negb_false_iff in Hc.
    rewrite Hslug, Hc in Hty. discriminate.
Qed.

Lemma validate_ok_inv schema d p v :
  validate schema d = Ok tt -> In (p, v) schema -> v (get d p) = true.
Proof.
  intros Hv Hin. destruct (v (get d p)) eqn:E; [reflexivity|].
  destruct (validate_fails schema d p v Hin E) as (paths & H).
  rewrite H in Hv. discriminate.
Qed.

Lemma eventSave_ok_inv rt d d' :
  eventSave rt d = (d', Ok tt) ->
  validate eventSchema d = Ok tt /\ passesLoop d = true
  /\ eventPreSave rt d = (d', Ok tt).
Proof.
  unfold eventSave. intros H.
  destruct (validate eventSchema d) as [[]|e] eqn:Hv; [|discriminate].
  split; [reflexivity|]. split; [|assumption].
  destruct (passesLoop d) eqn:Hp; [reflexivity|].
  destruct (eventPreSave_loop_fails rt d Hp) as (d1 & f & E & _).
  rewrite E in H. discriminate.
Qed.

(** Saving a saved event again succeeds and changes no path. *)
Lemma resave_event rt d d' :
  validOffset rt ->
  eventSave rt d = (d', Ok tt) ->
  exists d'', eventSave rt (saved d') = (d'', Ok tt)
              /\ forall k, get d'' k = get d' k.
Proof.
  intros Hz Hsave.
  destruct (eventSave_ok_inv rt d d' Hsave) as (Hv & Hp & Hrun).
  assert (Hok : snd (eventPreSave rt d) = Ok tt) by (rewrite Hrun; reflexivity).
  assert (Hd' : fst (eventPreSave rt d) = d') by (rewrite Hrun; reflexivity).
  destruct (resave rt d Hz Hp Hok) as (Hp' & Hok' & Hget').
  rewrite Hd' in *.
  exists (fst (eventPreSave rt (saved d'))). split; [|exact Hget'].
  assert (Hitems : forall p, p = "agenda" \/ p = "tags" ->
                     nonEmptyItems (get (saved d') p) = true).
  { intros p Hpth. rewrite get_saved, <- Hd'.
    destruct (get_after_success rt d Hp Hok) as (t & h & m & _ & _ & _ & Hg).
    rewrite Hg.
    destruct (decide (p = "time")) as [->|_];
      [destruct Hpth; discriminate|].
    destruct (decide (p = "date")) as [->|_];
      [destruct Hpth; discriminate|].
    rewrite get_afterSlug_ne by (destruct Hpth; subst; discriminate).
    rewrite afterLoop_other.
    - apply (validate_ok_inv eventSchema d p nonEmptyItems Hv).
      destruct Hpth; subst; simpl; tauto.
    - rewrite list_elem_of_In.
      destruct Hpth; subst; simpl; intuition discriminate. }
  assert (Hv' : validate eventSchema (saved d') = Ok tt).
  { apply validate_passes.
    - apply passesLoop_not_blank, Hp'.
    - apply Hitems. left. reflexivity.
    - apply Hitems. right. reflexivity. }
  unfold eventSave. rewrite Hv'.
  rewrite <- Hok'. destruct (eventPreSave rt (saved d')); reflexivity.
Qed.

Lemma derived_slug rt d :
  passesLoop d = true ->
  isModified "title" d = true \/ truthy (get d "slug") = false ->
  get (fst (eventPreSave rt d)) "slug"
  = VString (slugify rt (trim (strOf (get d "title")))).
Proof.
  intros Hp Hc. rewrite slug_after_hook by assumption.
  rewrite get_afterSlug. cbn [decide].
  destruct (decide ("slug" = "slug")) as [_|?]; [|congruence].
  assert (Hcond : isModified "title" (afterLoop d)
                  || negb (truthy (get (afterLoop d) "slug")) = true).
  { destruct Hc as [Hm|Hs].
    - unfold afterLoop. rewrite isModified_trimFields_mono by assumption.
      reflexivity.
    - rewrite (afterLoop_other d "slug" slug_not_required), Hs.
      apply orb_true_r. }
  rewrite Hcond, (afterLoop_field d "title" Hp in_required_title).
  reflexivity.
Qed.

Lemma kept_slug rt d :
  passesLoop d = true ->
  isNew d = false -> isModified "title" d = false ->
  trimValue (get d "title") = get d "title" ->
  truthy (get d "slug") = true ->
  get (fst (eventPreSave rt d)) "slug" = get d "slug".
Proof.
  intros Hp Hn Hm Ht Hs. rewrite slug_after_hook by assumption.
  rewrite get_afterSlug.
  destruct (decide ("slug" = "slug")) as [_|?]; [|congruence].
  unfold afterLoop at 1.
  rewrite isModified_trimFields_stable by assumption.
  rewrite (afterLoop_other d "slug" slug_not_required), Hm, Hs.
  reflexivity.
Qed.

(* ===================================================================== *)
(** * Regular expressions: the test decides the match *)
(* ===================================================================== *)

Lemma seq_inv r1 r2 s :
  matches (Seq r1 r2) s ->
  exists s1 s2, s = s1 ++ s2 /\ matches r1 s1 /\ matches r2 s2.
Proof.
  intros H. inversion H; subst.
  eexists _, _. split; [reflexivity|]. split; assumption.
Qed.

Lemma matches_nil_seq r1 r2 :
  matches (Seq r1 r2) [] -> matches r1 [] /\ matches r2 [].
Proof.
  intros H. apply seq_inv in H as (s1 & s2 & E & H1 & H2).
  symmetry in E. apply app_eq_nil in E as [-> ->].
  split; assumption.
Qed.

Lemma nullable_matches r : nullable r = true <-> matches r [].
Proof.
  induction r as [| |cls|r1 IH1 r2 IH2|r1 IH1 r2 IH2|r IH]; simpl.
  - split; [discriminate|]. intros H. inversion H.
  - split; [constructor|reflexivity].
  - split; [discriminate|]. intros H. inversion H.
  - rewrite andb_true_iff, IH1, IH2. split.
    + intros [H1 H2]. apply (m_seq r1 r2 [] []); assumption.
    + apply matches_nil_seq.
  - rewrite orb_true_iff, IH1, IH2. split.
    + intros [H|H]; [apply m_alt_l|apply m_alt_r]; assumption.
    + intros H. inversion H; subst; [left|right]; assumption.
  - split; [constructor|reflexivity].
Qed.

(** A match of [r*] that starts with [c] starts with a match of [r] that
    starts with [c]. *)
Lemma star_cons_inv r c s :
  matches (Star r) (c :: s) ->
  exists s1 s2, s = s1 ++ s2 /\ matches r (c :: s1) /\ matches (Star r) s2.
Proof.
  intros H. remember (Star r) as rs eqn:Er. remember (c :: s) as cs eqn:Es.
  revert s Er Es.
  induction H as [| | | | | |r0 s1 s2 H1 _ H2 IH2]; intros tl Er Es;
    try discriminate.
  injection Er as ->.
  destruct s1 as [|c1 s1].
  - simpl in Es. apply (IH2 tl eq_refl Es).
  - simpl in Es. injection Es as -> <-.
    exists s1, s2. split; [reflexivity|]. split; assumption.
Qed.

Lemma derive_matches c r s : matches (derive c r) s <-> matches r (c :: s).
Proof.
  revert s.
  induction r as [| |cls|r1 IH1 r2 IH2|r1 IH1 r2 IH2|r IH]; intros s; simpl.
  - split; intros H; inversion H.
  - split; intros H; inversion H.
  - destruct (cls c) eqn:E; split; intros H; inversion H; subst.
    + constructor. assumption.
    + constructor.
    + congruence.
  - assert (Hfirst : matches (Seq (derive c r1) r2) s
                     <-> exists s1 s2, s = s1 ++ s2 /\ matches r1 (c :: s1)
                                       /\ matches r2 s2).
    { split.
      - intros H. apply seq_inv in H as (s1 & s2 & -> & H1 & H2).
        eexists _, _. split; [reflexivity|]. split; [apply IH1|]; assumption.
      - intros (s1 & s2 & -> & H1 & H2). constructor; [apply IH1|]; assumption. }
    assert (Hsplit : matches (Seq r1 r2) (c :: s)
                     <-> (exists s1 s2, s = s1 ++ s2 /\ matches r1 (c :: s1)
                                        /\ matches r2 s2)
                         \/ (matches r1 [] /\ matches r2 (c :: s))).
    { split.
      - intros H. apply seq_inv in H as (s1 & s2 & E & H1 & H2).
        destruct s1 as [|c1 s1].
        + right. simpl in E. subst. split; assumption.
        + left. simpl in E. injection E as <- ->.
          eexists _, _. split; [reflexivity|]. split; assumption.
      - intros [(s1 & s2 & -> & H1 & H2)|[H1 H2]].
        + apply (m_seq r1 r2 (c :: s1) s2); assumption.
        + apply (m_seq r1 r2 [] (c :: s)); assumption. }
    rewrite Hsplit.
    destruct (nullable r1) eqn:En.
    + split.
      * intros H. inversion H; subst.
        -- left. apply Hfirst. assumption.
        -- right. split; [apply nullable_matches, En|apply IH2; assumption].
      * intros [H|[_ H]].
        -- apply m_alt_l, Hfirst, H.
        -- apply m_alt_r, IH2, H.
    + rewrite Hfirst. split; [intros H; left; exact H|].
      intros [H|[H _]]; [exact H|].
      apply nullable_matches in H. congruence.
  - split.
    + intros H. inversion H; subst;
        [apply m_alt_l, IH1|apply m_alt_r, IH2]; assumption.
    + intros H. inversion H; subst;
        [apply m_alt_l, IH1|apply m_alt_r, IH2]; assumption.
  - split.
    + intros H. apply seq_inv in H as (s1 & s2 & -> & H1 & H2).
      apply (m_star_cons r (c :: s1) s2); [apply IH|]; assumption.
    + intros H. apply star_cons_inv in H as (s1 & s2 & -> & H1 & H2).
      constructor; [apply IH|]; assumption.
Qed.

(** [test] decides [matches]. *)
Lemma test_matches r s : test r s = true <-> matches r s.
Proof.
  revert r. induction s as [|c s IH]; intros r; simpl.
  - apply nullable_matches.
  - rewrite IH. apply derive_matches.
Qed.

Lemma star_class cls s :
  matches (Star (Class cls)) s <-> Forall (fun c => cls c = true) s.
Proof.
  split.
  - revert s. induction s as [|c s IH]; intros H; [constructor|].
    apply star_cons_inv in H as (s1 & s2 & -> & H1 & H2).
    inversion H1; subst. constructor; [assumption|]. apply IH. exact H2.
  - induction 1 as [|c s Hc Hs IH]; [constructor|].
    apply (m_star_cons (Class cls) [c] s); [constructor; assumption|exact IH].
Qed.

(** [[cls]+] matches the non-empty strings over the class. *)
Lemma plus_class cls s :
  matches (Plus (Class cls)) s
  <-> s <> [] /\ Forall (fun c => cls c = true) s.
Proof.
  unfold Plus. split.
  - intros H. apply seq_inv in H as (s1 & s2 & -> & H1 & H2).
    inversion H1; subst. split; [discriminate|].
    constructor; [assumption|]. apply star_class, H2.
  - intros [Hne H]. destruct H as [|c s Hc Hs]; [congruence|].
    apply (m_seq (Class cls) (Star (Class cls)) [c] s);
      [constructor; assumption|apply star_class, Hs].
Qed.

Lemma class_one c s : matches (Class (N.eqb c)) s <-> s = [c].
Proof.
  split.
  - intros H. inversion H; subst. f_equal. symmetry. apply N.eqb_eq.
    assumption.
  - intros ->. constructor. apply N.eqb_refl.
Qed.

(** The shape [emailRegex] tests: a local part, an at sign, a domain, a
    dot and a last part, the three of them non-empty and without
    whitespace or at sign. *)
Lemma email_shape s :
  test emailRegex s = true
  <-> exists loc dom tld,
        s = loc ++ [64%N] ++ dom ++ [46%N] ++ tld
        /\ loc <> [] /\ dom <> [] /\ tld <> []
        /\ Forall (fun c => isAddrChar c = true) (loc ++ dom ++ tld).
Proof.
  rewrite test_matches. unfold emailRegex. split.
  - intros H.
    apply seq_inv in H as (loc & r1 & -> & Hl & H).
    apply seq_inv in H as (at1 & r2 & -> & Ha & H).
    apply seq_inv in H as (dom & r3 & -> & Hd & H).
    apply seq_inv in H as (dot & tld & -> & Ho & Ht).
    apply class_one in Ha as ->. apply class_one in Ho as ->.
    apply plus_class in Hl as [Hl1 Hl2].
    apply plus_class in Hd as [Hd1 Hd2].
    apply plus_class in Ht as [Ht1 Ht2].
    exists loc, dom, tld. repeat split; try assumption.
    rewrite !Forall_app. auto.
  - intros (loc & dom & tld & -> & Hl & Hd & Ht & Hall).
    rewrite !Forall_app in Hall. destruct Hall as (Hl' & Hd' & Ht').
    repeat (apply m_seq);
      try (apply plus_class; split; assumption);
      apply class_one; reflexivity.
Qed.

Lemma test_email_nonempty s : test emailRegex s = true -> (0 <? length s)%nat = true.
Proof. destruct s; [discriminate|reflexivity]. Qed.

Lemma createBooking_run rt (events : gmap ObjectId Document) attrs :
  createBooking rt events attrs
  = if test emailRegex (emailSetter rt (email attrs))
    then match events !! eventId attrs with
         | None => Throw MissingEventError
         | Some _ => Ok (newBooking rt attrs)
         end
    else Throw (ValidationError ["email"]).
Proof.
  unfold createBooking, validateBooking, bookingPreSave, findById.
  cbn [newBooking email eventId].
  destruct (test emailRegex (emailSetter rt (email attrs))) eqn:E.
  - rewrite (test_email_nonempty _ E). cbn [andb mbind result_bind].
    destruct (events !! eventId attrs); reflexivity.
  - rewrite andb_false_r. reflexivity.
Qed.

(* ===================================================================== *)
(** * The connection cache: lemmas *)
(* ===================================================================== *)

Lemma wellFormed_boot uri : wellFormed (boot uri).
Proof.
  split; simpl.
  - intros q H. inversion H.
  - discriminate.
Qed.

Lemma removeOne_subset p l q : q ∈ removeOne p l -> q ∈ l.
Proof.
  induction l as [|x l IH]; simpl; [auto|].
  destruct (Nat.eqb p x).
  - intros H. right. exact H.
  - intros H. apply elem_of_cons in H as [->|H]; [left|right; auto].
Qed.

Lemma connect_cases w :
  (exists c, conn (cached w) = Some c /\ connectToDatabase w = (w, Returned c))
  \/ (exists p, conn (cached w) = None /\ promise (cached w) = Some p
        /\ connectToDatabase w
           = ({| cached := cached w; MONGODB_URI := MONGODB_URI w;
                 promises := promises w; waiting := p :: waiting w;
                 effects := effects w |}, Awaiting p))
  \/ (conn (cached w) = None /\ promise (cached w) = None
      /\ absentUri (MONGODB_URI w) = true
      /\ connectToDatabase w
         = ({| cached := cached w; MONGODB_URI := MONGODB_URI w;
               promises := promises w; waiting := waiting w;
               effects := ReadEnv :: effects w |}, Threw MissingUriError))
  \/ (exists uri, conn (cached w) = None /\ promise (cached w) = None
        /\ MONGODB_URI w = Some uri /\ absentUri (Some uri) = false
        /\ connectToDatabase w
           = ({| cached := {| conn := None;
                              promise := Some (length (promises w)) |};
                 MONGODB_URI := MONGODB_URI w;
                 promises := promises w ++ [Pending];
                 waiting := length (promises w) :: waiting w;
                 effects := Connect uri (length (promises w))
                            :: ReadEnv :: effects w |},
              Awaiting (length (promises w)))).
Proof.
  unfold connectToDatabase.
  destruct (conn (cached w)) as [c|]; [left; eauto|].
  destruct (promise (cached w)) as [p|]; [right; left; eauto|].
  destruct (MONGODB_URI w) as [[|c u]|].
  - right. right. left. auto.
  - right. right. right. exists (c :: u). auto.
  - right. right. left. auto.
Qed.

Lemma wellFormed_exec a w w' o :
  wellFormed w -> exec a w = Some (w', o) -> wellFormed w'.
Proof.
  intros [Hw Hc] H. destruct a as [|p r|p]; simpl in H.
  - destruct (connect_cases w)
      as [(c & _ & E)|[(p & Hn & Hp & E)|[(Hn & Hp & _ & E)
         |(uri & Hn & Hp & _ & _ & E)]]];
      rewrite E in H; injection H as <- <-.
    + split; assumption.
    + split; simpl.
      * intros q Hq. apply elem_of_cons in Hq as [->|Hq]; auto.
      * exact Hc.
    + split; simpl; assumption.
    + split; simpl.
      * intros q Hq. apply elem_of_cons in Hq as [->|Hq]; [reflexivity|].
        apply Hw in Hq. congruence.
      * discriminate.
  - destruct (promises w !! p) as [[| |]|] eqn:Ep; try discriminate.
    assert (Hs : w' = {| cached := cached w; MONGODB_URI := MONGODB_URI w;
                         promises := <[p := r]> (promises w);
                         waiting := waiting w; effects := effects w |}).
    { destruct r; [discriminate|injection H as <- <-; reflexivity
                   |injection H as <- <-; reflexivity]. }
    subst w'. split; simpl; [exact Hw|].
    intros c Hcc. destruct (Hc c Hcc) as (p0 & Hp0 & Hf).
    exists p0. split; [assumption|].
    rewrite list_lookup_insert_ne; [assumption|]. congruence.
  - destruct (bool_decide (p ∈ waiting w)) eqn:Ein; [|discriminate].
    apply bool_decide_eq_true in Ein. pose proof (Hw p Ein) as Hp.
    unfold resume in H.
    destruct (promises w !! p) as [[|c|e]|] eqn:Ep; try discriminate;
      cbn in H; injection H as <- <-.
    + split; simpl.
      * intros q Hq. apply removeOne_subset in Hq. auto.
      * intros c0 [= <-]. exists p. split; assumption.
    + split; simpl.
      * intros q Hq. apply removeOne_subset in Hq. auto.
      * exact Hc.
Qed.

Lemma run_cons a sched w :
  run (a :: sched) w
  = match exec a w with
    | Some (w1, o) =>
        match run sched w1 with
        | Some (w2, os) => Some (w2, os ++ option_list o)
        | None => None
        end
    | None => None
    end.
Proof.
  simpl. destruct (exec a w) as [[w1 o]|]; [|reflexivity]. simpl.
  destruct (run sched w1) as [[w2 os]|]; reflexivity.
Qed.

Lemma wellFormed_run sched w w' os :
  wellFormed w -> run sched w = Some (w', os) -> wellFormed w'.
Proof.
  revert w os. induction sched as [|a sched IH]; intros w os Hw H.
  - injection H as <- <-. exact Hw.
  - rewrite run_cons in H.
    destruct (exec a w) as [[w1 o]|] eqn:E; [|discriminate].
    destruct (run sched w1) as [[w2 os2]|] eqn:E2; [|discriminate].
    injection H as <- <-.
    eapply IH; [|exact E2]. eapply wellFormed_exec; eassumption.
Qed.

Lemma poisoned_connect p code w :
  poisoned p code w ->
  connectToDatabase w
  = ({| cached := cached w; MONGODB_URI := MONGODB_URI w;
        promises := promises w; waiting := p :: waiting w;
        effects := effects w |}, Awaiting p).
Proof.
  intros (_ & Hn & Hp & _). unfold connectToDatabase. rewrite Hn, Hp.
  reflexivity.
Qed.

Lemma poisoned_resume p code w :
  poisoned p code w -> resume p w = Some (w, Threw (ConnectionError code)).
Proof. intros (_ & _ & _ & Hr). unfold resume. rewrite Hr. reflexivity. Qed.

Lemma poisoned_exec p code a w w' o :
  poisoned p code w -> exec a w = Some (w', o) ->
  poisoned p code w' /\ attempts w' = attempts w
  /\ (o = None \/ o = Some (Awaiting p)
      \/ o = Some (Threw (ConnectionError code))).
Proof.
  intros Hpo H.
  assert (Hwf' : wellFormed w').
  { destruct Hpo as (Hwf & _). eapply wellFormed_exec; eassumption. }
  pose proof Hpo as (Hwf & Hn & Hp & Hr).
  destruct a as [|q r|q]; simpl in H.
  - rewrite (poisoned_connect p code w Hpo) in H. injection H as <- <-.
    split; [|split; [reflexivity|right; left; reflexivity]].
    split; [exact Hwf'|]. simpl. auto.
  - destruct (promises w !! q) as [[| |]|] eqn:Eq; try discriminate.
    assert (Hs : w' = {| cached := cached w; MONGODB_URI := MONGODB_URI w;
                         promises := <[q := r]> (promises w);
                         waiting := waiting w; effects := effects w |}
                 /\ o = None).
    { destruct r; [discriminate|injection H as <- <-; auto
                   |injection H as <- <-; auto]. }
    destruct Hs as [-> ->].
    split; [|split; [reflexivity|left; reflexivity]].
    split; [exact Hwf'|]. simpl. split; [assumption|]. split; [assumption|].
    rewrite list_lookup_insert_ne; [assumption|]. congruence.
  - destruct (bool_decide (q ∈ waiting w)) eqn:Ein; [|discriminate].
    apply bool_decide_eq_true in Ein.
    destruct Hwf as [Hw _]. pose proof (Hw q Ein) as Hq.
    assert (Hqp : q = p) by congruence. subst q.
    rewrite (poisoned_resume p code w Hpo) in H.
    cbn in H. injection H as <- <-.
    split; [|split; [reflexivity|right; right; reflexivity]].
    split; [exact Hwf'|]. simpl. auto.
Qed.

Lemma poisoned_run p code sched w w' os :
  poisoned p code w -> run sched w = Some (w', os) ->
  poisoned p code w' /\ attempts w' = attempts w
  /\ Forall (fun o => o = Awaiting p \/ o = Threw (ConnectionError code)) os.
Proof.
  revert w os. induction sched as [|a sched IH]; intros w os Hpo H.
  - injection H as <- <-. split; [assumption|]. split; [reflexivity|constructor].
  - rewrite run_cons in H.
    destruct (exec a w) as [[w1 o]|] eqn:E; [|discriminate].
    destruct (run sched w1) as [[w2 os2]|] eqn:E2; [|discriminate].
    injection H as <- <-.
    destruct (poisoned_exec p code a w w1 o Hpo E) as (Hpo1 & Ha1 & Ho).
    destruct (IH w1 os2 Hpo1 E2) as (Hpo2 & Ha2 & Hos).
    split; [assumption|]. split; [congruence|].
    apply Forall_app. split; [assumption|].
    destruct Ho as [-> | [-> | ->]]; simpl.
    + constructor.
    + constructor; [left; reflexivity|constructor].
    + constructor; [right; reflexivity|constructor].
Qed.

(** No step changes a cached promise. *)
Lemma promise_kept a w w' o p :
  promise (cached w) = Some p -> exec a w = Some (w', o) ->
  promise (cached w') = Some p.
Proof.
  intros Hp H. destruct a as [|q r|q]; simpl in H.
  - destruct (connect_cases w)
      as [(c & _ & E)|[(p0 & _ & _ & E)|[(_ & Hn & _)|(uri & _ & Hn & _)]]];
      try congruence; rewrite E in H; injection H as <- <-; assumption.
  - destruct (promises w !! q) as [[| |]|]; try discriminate.
    destruct r; try discriminate; injection H as <- <-; assumption.
  - destruct (bool_decide (q ∈ waiting w)); [|discriminate].
    unfold resume in H.
    destruct (promises w !! q) as [[|c|e]|]; try discriminate;
      cbn in H; injection H as <- <-; assumption.
Qed.

(* ===================================================================== *)
(** * The slug: what it is made of *)
(* ===================================================================== *)

Lemma squeeze_cons cls d c r :
  squeeze cls d (c :: r)
  = if cls c then d :: squeeze cls d (dropWhile cls r)
    else c :: squeeze cls d r.
Proof. simp squeeze. destruct (cls c); reflexivity. Qed.

Lemma squeeze_nil cls d s : squeeze cls d s = [] <-> s = [].
Proof.
  split; [|intros ->; reflexivity].
  destruct s as [|c r]; [reflexivity|].
  rewrite squeeze_cons. destruct (cls c); discriminate.
Qed.

Lemma dropWhile_headNot cls s : headNot cls (dropWhile cls s).
Proof.
  induction s as [|c r IH]; simpl; [exact I|].
  destruct (cls c) eqn:E; [exact IH|]. simpl. exact E.
Qed.

Lemma squeeze_headNot cls d s :
  headNot cls s -> headNot cls (squeeze cls d s).
Proof.
  destruct s as [|c r]; [intros _; exact I|].
  simpl. intros H. rewrite squeeze_cons, H. simpl. exact H.
Qed.

Lemma hasPair_cons cls a s :
  headNot cls s -> hasPair cls (a :: s) = hasPair cls s.
Proof.
  destruct s as [|b r]; [reflexivity|]. simpl. intros ->.
  rewrite andb_false_r. reflexivity.
Qed.

Lemma hasPair_cons_not cls a s :
  cls a = false -> hasPair cls (a :: s) = hasPair cls s.
Proof.
  intros H. destruct s as [|b r]; [reflexivity|].
  change (hasPair cls (a :: b :: r))
    with (cls a && cls b || hasPair cls (b :: r)).
  rewrite H. reflexivity.
Qed.

(** After [squeeze] no two code units of the class are adjacent. *)
Lemma squeeze_noPair cls d s : hasPair cls (squeeze cls d s) = false.
Proof.
  remember (length s) as n eqn:En. revert s En.
  induction n as [n IH] using lt_wf_ind. intros s En.
  destruct s as [|c r]; [reflexivity|].
  rewrite squeeze_cons. destruct (cls c) eqn:E.
  - rewrite hasPair_cons by apply squeeze_headNot, dropWhile_headNot.
    apply (IH (length (dropWhile cls r))); [|reflexivity].
    subst n. simpl.
    assert (H : (length (dropWhile cls r) <= length r)%nat); [|lia].
    clear. induction r as [|c r IH]; simpl; [lia|].
    destruct (cls c); simpl; lia.
  - rewrite hasPair_cons_not by assumption.
    apply (IH (length r)); [subst n; simpl; lia|reflexivity].
Qed.

(** [squeeze] leaves a string without adjacent code units of the class,
    all of whose code units of the class are [d], as it is. *)
Lemma squeeze_id cls d s :
  Forall (fun c => cls c = true -> c = d) s ->
  hasPair cls s = false -> squeeze cls d s = s.
Proof.
  induction s as [|c r IH]; intros Hd Hp; [reflexivity|].
  inversion Hd as [|? ? Hc Hr]; subst.
  rewrite squeeze_cons. destruct (cls c) eqn:E.
  - rewrite (Hc eq_refl). 
    destruct r as [|b r']; [reflexivity|].
    change (hasPair cls (c :: b :: r'))
      with (cls c && cls b || hasPair cls (b :: r')) in Hp.
    apply orb_false_iff in Hp as [Hcb Hp].
    rewrite E in Hcb. simpl in Hcb.
    simpl dropWhile. rewrite Hcb. f_equal. apply IH; assumption.
  - f_equal. apply IH; [assumption|].
    rewrite hasPair_cons_not in Hp by assumption. exact Hp.
Qed.

Lemma squeeze_none cls d s :
  Forall (fun c => cls c = false) s -> squeeze cls d s = s.
Proof.
  induction 1 as [|c r Hc Hr IH]; [reflexivity|].
  rewrite squeeze_cons, Hc, IH. reflexivity.
Qed.

Lemma hasPair_lookup cls s i a b :
  hasPair cls s = false ->
  s !! i = Some a -> s !! S i = Some b -> cls a = true -> cls b = false.
Proof.
  revert i. induction s as [|c r IH]; intros i Hp Ha Hb Hca; [discriminate|].
  destruct r as [|c' r']; [discriminate|].
  change (hasPair cls (c :: c' :: r'))
    with (cls c && cls c' || hasPair cls (c' :: r')) in Hp.
  apply orb_false_iff in Hp as [Hcc Hp].
  destruct i as [|i].
  - simpl in Ha, Hb. injection Ha as ->. injection Hb as ->.
    rewrite Hca in Hcc. exact Hcc.
  - apply (IH i); assumption.
Qed.

Lemma squeeze_length cls d s : (length (squeeze cls d s) <= length s)%nat.
Proof.
  remember (length s) as n eqn:En. revert s En.
  induction n as [n IH] using lt_wf_ind. intros s En.
  destruct s as [|c r]; [simp squeeze; simpl; lia|].
  assert (Hd : (length (dropWhile cls r) <= length r)%nat).
  { clear. induction r as [|c r IH]; simpl; [lia|].
    destruct (cls c); simpl; lia. }
  rewrite squeeze_cons. subst n. destruct (cls c); simpl.
  - assert (H : (length (squeeze cls d (dropWhile cls r))
                 <= length (dropWhile cls r))%nat).
    { apply (IH (length (dropWhile cls r))); [simpl; lia|reflexivity]. }
    lia.
  - assert (H : (length (squeeze cls d r) <= length r)%nat).
    { apply (IH (length r)); [simpl; lia|reflexivity]. }
    lia.
Qed.

Lemma trimStart_length s : (length (trimStart s) <= length s)%nat.
Proof.
  induction s as [|c r IH]; simpl; [lia|].
  destruct (isWhiteSpace c); simpl; lia.
Qed.

Lemma trim_length s : (length (trim s) <= length s)%nat.
Proof.
  unfold trim, trimEnd. rewrite length_rev.
  pose proof (trimStart_length (rev (trimStart s))).
  rewrite length_rev in H. pose proof (trimStart_length s). lia.
Qed.

Lemma filter_length_le (p : N -> bool) s :
  (length (List.filter p s) <= length s)%nat.
Proof. induction s as [|c r IH]; simpl; [lia|]. destruct (p c); simpl; lia. Qed.

Lemma filter_all (p : N -> bool) s :
  Forall (fun c => p c = true) s -> List.filter p s = s.
Proof.
  induction 1 as [|c r Hc Hr IH]; simpl; [reflexivity|].
  rewrite Hc, IH. reflexivity.
Qed.

Lemma filter_none_iff (p : N -> bool) s :
  List.filter p s = [] <-> Forall (fun c => p c = false) s.
Proof.
  induction s as [|c r IH]; simpl.
  - split; [constructor|reflexivity].
  - destruct (p c) eqn:E.
    + split; [discriminate|]. intros H. inversion H; congruence.
    + rewrite IH. split; [constructor; assumption|].
      intros H. inversion H; assumption.
Qed.

Lemma isSlugOut_fixed c :
  isSlugOut c = true ->
  (c < 128)%N /\ lowerASCII c = c /\ isSlugChar c = true
  /\ (isDash c = true -> c = 45%N).
Proof.
  unfold isSlugOut, isSlugChar, isLowerAlnum, isDash, lowerASCII. intros H.
  assert (Hr : ((97 <= c <= 122) \/ (48 <= c <= 57) \/ c = 45)%N).
  { rewrite ?orb_true_iff, ?andb_true_iff, ?N.leb_le, ?N.eqb_eq in H. lia. }
  split; [lia|]. split; [|split].
  - destruct (N.leb_spec 65 c), (N.leb_spec c 90); simpl; try reflexivity.
    lia.
  - unfold isWhiteSpace.
    rewrite ?orb_true_iff, ?andb_true_iff, ?N.leb_le, ?N.eqb_eq. lia.
  - rewrite N.eqb_eq. auto.
Qed.

(* ===================================================================== *)
(** * Times of the format *)
(* ===================================================================== *)

Lemma parseTime_rest h mi rest :
  0 <= h <= 99 -> 0 <= mi <= 99 -> eat 58 rest = None ->
  parseTime (fixedDigits 2 h ++ js ":" ++ fixedDigits 2 mi ++ rest)
  = if clockInRange h mi then Some (MakeTime h mi 0 0, rest) else None.
Proof.
  intros Hh Hm He. unfold parseTime, parseSeconds, clockInRange.
  change (js ":") with [58%N].
  read2. step_bind. rewrite eat_cons. step_bind. read2. step_bind.
  rewrite He. cbn [mbind option_bind].
  change (0 <=? 59) with true. change (0 =? 0) with true.
  rewrite !andb_true_r. reflexivity.
Qed.

Lemma parseISO_epoch_time tza rest :
  parseISO tza (js "1970-01-01T" ++ rest)
  = '(tm, r2) ← parseTime rest;
    off ← parseOffset r2;
    Some (tm - default tza off).
Proof.
  unfold parseISO.
  change (js "1970-01-01T" ++ rest)
    with (isoYear 1970 ++ js "-" ++ fixedDigits 2 1 ++ js "-"
          ++ fixedDigits 2 1 ++ (84%N :: rest)).
  rewrite parseDate_iso by lia. step_bind.
  change (validDate 1970 1 1) with true. cbn iota.
  rewrite eat_cons. step_bind.
  destruct (parseTime rest) as [[tm r2]|]; [|reflexivity]. step_bind.
  destruct (parseOffset r2) as [off|]; [|reflexivity]. step_bind.
  f_equal.
Qed.

Lemma time_of_day_fields h mi sec ms :
  0 <= h <= 23 -> 0 <= mi <= 59 -> 0 <= sec <= 59 -> 0 <= ms <= 999 ->
  HourFromTime (MakeTime h mi sec ms) = h
  /\ MinFromTime (MakeTime h mi sec ms) = mi.
Proof.
  intros Hh Hm Hs Hms.
  unfold HourFromTime, MinFromTime, MakeTime, msPerHour, msPerMinute,
    msPerSecond.
  div_lia.
Qed.

Lemma trim_stamp s :
  Forall (fun c => isStampChar c = true) s -> trim s = s.
Proof. apply (trim_no_space isStampChar), isStampChar_no_space. Qed.

Lemma Date_parse_epoch_time rt rest tm r2 off :
  parseTime rest = Some (tm, r2) -> parseOffset r2 = Some off ->
  Date_parse rt (js "1970-01-01T" ++ rest)
  = TimeClip (tm - default (localTZA rt) off).
Proof.
  intros Ht Ho. unfold Date_parse.
  rewrite parseISO_epoch_time, Ht. step_bind. rewrite Ho. reflexivity.
Qed.

Lemma Date_parse_epoch_none rt rest :
  parseTime rest = None ->
  Date_parse rt (js "1970-01-01T" ++ rest)
  = legacyParse rt (js "1970-01-01T" ++ rest) ≫= TimeClip.
Proof.
  intros Ht. apply Date_parse_legacy.
  rewrite parseISO_epoch_time, Ht. reflexivity.
Qed.

Lemma TimeClip_clock rt tm :
  validOffset rt -> 0 <= tm <= msPerDay -> 
  TimeClip (tm - localTZA rt) = Some (tm - localTZA rt).
Proof.
  intros Hz Ht. apply TimeClip_valid.
  unfold validOffset, msPerDay, maxTime in *. lia.
Qed.

(* ===================================================================== *)
(** * Dates of the calendar *)
(* ===================================================================== *)

Lemma validDate_inv y m d :
  validDate y m d = true ->
  1 <= m <= 12 /\ 1 <= d <= DaysInMonth y (m - 1).
Proof.
  unfold validDate. rewrite !andb_true_iff, !Z.leb_le. lia.
Qed.

Lemma month_cases m :
  1 <= m <= 12 ->
  m = 1 \/ m = 2 \/ m = 3 \/ m = 4 \/ m = 5 \/ m = 6 \/ m = 7 \/ m = 8
  \/ m = 9 \/ m = 10 \/ m = 11 \/ m = 12.
Proof. lia. Qed.

(** The day of the year of a date of the calendar, and its month back. *)
Lemma day_of_year_fields (leap : bool) (m d : Z) :
  1 <= m <= 12 ->
  1 <= d <= monthStart leap m - monthStart leap (m - 1) ->
  0 <= monthStart leap (m - 1) + d - 1 < (if leap then 366 else 365)
  /\ monthOfDay leap (monthStart leap (m - 1) + d - 1) = m - 1.
Proof.
  intros Hm Hd. apply month_cases in Hm.
  unfold monthOfDay.
  destruct leap;
    repeat (destruct Hm as [->|Hm]); try subst m;
    vm_compute monthStart in *;
    (split; [lia|]);
    repeat match goal with
           | |- context [Z.ltb ?a ?b] => destruct (Z.ltb_spec a b)
           end; lia.
Qed.

Lemma calendar_fields y m d tm :
  validDate y m d = true -> 0 <= tm < msPerDay ->
  let t := MakeDate (MakeDay y (m - 1) d) tm in
  Day t = MakeDay y (m - 1) d /\ TimeWithinDay t = tm
  /\ YearFromTime t = y /\ MonthFromTime t = m - 1 /\ DateFromTime t = d.
Proof.
  intros Hv Htm t.
  apply validDate_inv in Hv as [Hm Hd].
  unfold DaysInMonth in Hd.
  replace (m - 1 + 1) with m in Hd by lia.
  destruct (day_of_year_fields (isLeapYear y) m d Hm Hd) as [Hr Hmo].
  assert (Hday : Day t = MakeDay y (m - 1) d).
  { unfold t, Day, MakeDate, msPerDay in *. div_lia. }
  assert (Htw : TimeWithinDay t = tm).
  { unfold t, TimeWithinDay, MakeDate, msPerDay in *. div_lia. }
  assert (Hy : YearFromTime t = y).
  { unfold YearFromTime. rewrite Hday. apply YearFromDay_unique.
    rewrite DayFromYear_succ. unfold MakeDay, DaysInYear.
    destruct (isLeapYear y); lia. }
  assert (Hdw : DayWithinYear t = monthStart (isLeapYear y) (m - 1) + d - 1).
  { unfold DayWithinYear. rewrite Hday, Hy. unfold MakeDay. lia. }
  assert (Hmf : MonthFromTime t = m - 1).
  { unfold MonthFromTime. rewrite Hy, Hdw. exact Hmo. }
  repeat split; try assumption.
  unfold DateFromTime. rewrite Hmf, Hy, Hdw. lia.
Qed.

Lemma validDate_two_digits y m d :
  validDate y m d = true -> 0 <= m <= 99 /\ 0 <= d <= 99.
Proof.
  intros H. apply validDate_inv in H as [Hm Hd].
  pose proof (DaysInMonth_range y (m - 1)). lia.
Qed.

Lemma parseDate_isoDate y m d rest :
  -999999 <= y <= 999999 -> validDate y m d = true ->
  parseDate (isoDate y m d ++ rest) = Some (y, m, d, rest).
Proof.
  intros Hy Hv. destruct (validDate_two_digits y m d Hv) as [Hm Hd].
  unfold isoDate. rewrite <- !app_assoc.
  apply parseDate_iso; assumption.
Qed.

Lemma parseISO_isoDate tza y m d :
  -999999 <= y <= 999999 -> validDate y m d = true ->
  parseISO tza (isoDate y m d) = Some (MakeDate (MakeDay y (m - 1) d) 0).
Proof.
  intros Hy Hv. unfold parseISO.
  rewrite <- (app_nil_r (isoDate y m d)).
  rewrite parseDate_isoDate by assumption. step_bind. rewrite Hv.
  reflexivity.
Qed.

Lemma parseISO_isoDate_time tza y m d rest :
  -999999 <= y <= 999999 -> validDate y m d = true ->
  parseISO tza (isoDate y m d ++ js "T" ++ rest)
  = '(tm, r2) ← parseTime rest;
    off ← parseOffset r2;
    Some (MakeDate (MakeDay y (m - 1) d) tm - default tza off).
Proof.
  intros Hy Hv. unfold parseISO.
  rewrite parseDate_isoDate by assumption. step_bind. rewrite Hv.
  change (js "T") with [84%N]. cbn [app]. rewrite eat_cons. step_bind.
  reflexivity.
Qed.

(** The time values of the years 0 to 9999 are time values. *)
Lemma common_era_in_range y m d tm :
  0 <= y <= 9999 -> validDate y m d = true -> 0 <= tm <= msPerDay ->
  Z.abs (MakeDate (MakeDay y (m - 1) d) tm) <= maxTime - msPerDay.
Proof.
  intros Hy Hv Htm. apply validDate_inv in Hv as [Hm Hd].
  unfold DaysInMonth in Hd. replace (m - 1 + 1) with m in Hd by lia.
  destruct (day_of_year_fields (isLeapYear y) m d Hm Hd) as [Hr _].
  assert (Hr' : 0 <= monthStart (isLeapYear y) (m - 1) + d - 1 < 366)
    by (destruct (isLeapYear y); lia).
  unfold MakeDate, MakeDay, DayFromYear, msPerDay, maxTime in *.
  clear Hr Hd. generalize dependent (monthStart (isLeapYear y) (m - 1)).
  intros ms Hr'. div_lia.
Qed.

Lemma midnight_fields t :
  TimeWithinDay t = 0 ->
  HourFromTime t = 0 /\ MinFromTime t = 0 /\ SecFromTime t = 0
  /\ msFromTime t = 0.
Proof.
  intros H. destruct (time_fields t) as (Hh & Hm & Hs & Hms & E).
  rewrite H in E.
  unfold MakeTime, msPerHour, msPerMinute, msPerSecond in E. lia.
Qed.

Lemma toISOString_midnight y m d :
  validDate y m d = true ->
  toISOString (MakeDate (MakeDay y (m - 1) d) 0)
  = isoDate y m d ++ js "T00:00:00.000Z".
Proof.
  intros Hv.
  destruct (calendar_fields y m d 0 Hv ltac:(unfold msPerDay; lia))
    as (_ & Htw & Hy & Hm & Hd).
  destruct (midnight_fields _ Htw) as (Hh & Hmi & Hs & Hms).
  unfold toISOString, isoDate.
  rewrite Hy, Hm, Hd, Hh, Hmi, Hs, Hms.
  replace (m - 1 + 1) with m by lia.
  rewrite <- !app_assoc. reflexivity.
Qed.

Lemma isoDate_stamp y m d :
  Forall (fun c => isStampChar c = true) (isoDate y m d).
Proof. unfold isoDate. stamp. Qed.

(* ===================================================================== *)
(** * The Event hook: its outcomes and its footprint *)
(* ===================================================================== *)

(** The loop stops at the first field that fails its test: the fields
    before it are trimmed, the others are as they were. *)
Lemma loop_stops pre f post d :
  forallb (fieldOk d) pre = true -> fieldOk d f = false ->
  forEach (pre ++ f :: post) requireNonEmpty d
  = (trimFields pre d, Throw (RequiredFieldError f)).
Proof.
  revert d. induction pre as [|g pre IH]; intros d Hpre Hf.
  - cbn [app]. rewrite forEach_cons, requireNonEmpty_run, Hf. reflexivity.
  - simpl in Hpre. apply andb_true_iff in Hpre as [Hg Hpre].
    cbn [app]. rewrite forEach_cons, requireNonEmpty_run, Hg.
    simpl. apply IH.
    + rewrite <- Hpre. apply forallb_eq. intros k. apply fieldOk_trimField.
    + rewrite fieldOk_trimField. assumption.
Qed.

Lemma forallb_false_split {A} (p : A -> bool) l :
  forallb p l = false ->
  exists pre x post, l = pre ++ x :: post /\ forallb p pre = true
                     /\ p x = false.
Proof.
  induction l as [|a l IH]; simpl; [discriminate|].
  destruct (p a) eqn:Ha; simpl.
  - intros H. destruct (IH H) as (pre & x & post & -> & Hpre & Hx).
    exists (a :: pre), x, post. simpl. rewrite Ha. auto.
  - intros _. exists [], a, l. auto.
Qed.

(** The hook on a document that does not pass the loop. *)
Lemma eventPreSave_stops rt d pre f post :
  requiredStringFields = pre ++ f :: post ->
  forallb (fieldOk d) pre = true -> fieldOk d f = false ->
  eventPreSave rt d = (trimFields pre d, Throw (RequiredFieldError f)).
Proof.
  intros E Hpre Hf. unfold eventPreSave.
  rewrite hook_bind_run, E, (loop_stops pre f post d Hpre Hf). reflexivity.
Qed.

Lemma eventPreSave_fail_cases rt d :
  passesLoop d = false ->
  exists pre f post,
    requiredStringFields = pre ++ f :: post
    /\ forallb (fieldOk d) pre = true /\ fieldOk d f = false
    /\ eventPreSave rt d = (trimFields pre d, Throw (RequiredFieldError f)).
Proof.
  intros Hp. destruct (forallb_false_split _ _ Hp)
    as (pre & f & post & E & Hpre & Hf).
  exists pre, f, post. split; [assumption|]. split; [assumption|].
  split; [assumption|]. apply eventPreSave_stops with post; assumption.
Qed.

Lemma isModified_afterSlug_mono rt d k :
  isModified k d = true -> isModified k (afterSlug rt d) = true.
Proof.
  intros H. unfold afterSlug.
  destruct (isModified "title" d || negb (truthy (get d "slug")));
    [|assumption].
  rewrite isModified_setString, H. reflexivity.
Qed.

Lemma isNew_afterSlug rt d : isNew (afterSlug rt d) = isNew d.
Proof.
  unfold afterSlug.
  destruct (isModified "title" d || negb (truthy (get d "slug")));
    reflexivity.
Qed.

(** On a new document the loop marks every field it assigns. *)
Lemma isModified_trimFields_new l d f :
  isNew d = true -> f ∈ l -> isString (get d f) = true ->
  isModified f (trimFields l d) = true.
Proof.
  revert d. induction l as [|g l IH]; intros d Hn Hin Hs.
  - apply elem_of_nil in Hin. destruct Hin.
  - simpl. destruct (decide (g = f)) as [->|Hne].
    + apply isModified_trimFields_mono.
      rewrite isModified_trimField, Hn, Hs.
      rewrite (bool_decide_eq_true_2 (f = f)) by reflexivity.
      apply orb_true_r.
    + apply IH.
      * rewrite isNew_trimField. assumption.
      * apply elem_of_cons in Hin as [->|Hin]; [congruence|assumption].
      * rewrite get_trimField. destruct (decide (g = f)); [congruence|].
        assumption.
Qed.

(** The slug the hook leaves in a new document. *)
Lemma new_slug rt d :
  isNew d = true -> passesLoop d = true ->
  get (fst (eventPreSave rt d)) "slug"
  = VString (slugify rt (trim (strOf (get d "title")))).
Proof.
  intros Hn Hp. rewrite slug_after_hook by assumption.
  rewrite get_afterSlug.
  destruct (decide ("slug" = "slug")) as [_|?]; [|congruence].
  assert (Hm : isModified "title" (afterLoop d) = true).
  { apply isModified_trimFields_new;
      [assumption|apply in_required_title|].
    destruct (fieldOk_string d "title"
                (passesLoop_field d "title" Hp in_required_title))
      as (s & -> & _). reflexivity. }
  rewrite Hm, (afterLoop_field d "title" Hp in_required_title).
  reflexivity.
Qed.

(** Assigning to a path of a stored document the value it holds changes
    nothing. *)
Lemma setString_same k s d :
  isNew d = false -> get d k = VString (trim s) -> setString k s d = d.
Proof.
  intros Hn Hg. unfold setString. rewrite Hn, Hg.
  rewrite (bool_decide_eq_true_2 (VString (trim s) = VString (trim s)))
    by reflexivity.
  cbn [orb negb].
  assert (Hl : fields d !! k = Some (VString (trim s))).
  { unfold get in Hg. destruct (fields d !! k) as [v|]; simpl in Hg;
      [congruence|discriminate]. }
  rewrite (insert_id _ _ _ Hl). destruct d; simpl in *. congruence.
Qed.

Lemma trimFields_same l d :
  isNew d = false ->
  (forall f, f ∈ l -> exists s, get d f = VString s /\ trim s = s) ->
  trimFields l d = d.
Proof.
  intros Hn H. induction l as [|f l IH]; [reflexivity|].
  simpl. assert (E : trimField d f = d).
  { destruct (H f) as (s & Hs & Ht); [left|].
    unfold trimField. rewrite Hs. apply setString_same; [assumption|].
    rewrite Hs, trim_idem, Ht. reflexivity. }
  rewrite E. apply IH. intros g Hg. apply H. right. assumption.
Qed.

(** The hook on a stored document that holds what a successful hook
    leaves: nothing is written and nothing is marked. *)
Lemma hook_fixed rt d t h m :
  validOffset rt -> isNew d = false -> isModified "title" d = false ->
  passesLoop d = true ->
  (forall f, f ∈ requiredStringFields ->
     exists s, get d f = VString s /\ trim s = s) ->
  (truthy (get d "slug") = true
   \/ get d "slug" = VString (slugify rt (strOf (get d "title")))) ->
  Z.abs t <= maxTime ->
  get d "date" = VString (toISOString t) ->
  0 <= h <= 23 -> 0 <= m <= 59 ->
  get d "time" = VString (fixedDigits 2 h ++ js ":" ++ fixedDigits 2 m) ->
  eventPreSave rt d = (d, Ok tt).
Proof.
  intros Hz Hn Hm Hp Hreq Hslug Ht Hdate Hh Hmi Htime.
  rewrite (eventPreSave_run rt d Hp). cbv zeta.
  assert (E1 : afterLoop d = d) by (apply trimFields_same; assumption).
  rewrite E1.
  assert (E2 : afterSlug rt d = d).
  { unfold afterSlug. rewrite Hm. cbn [orb].
    destruct (truthy (get d "slug")) eqn:Hty; [reflexivity|].
    cbn [negb]. apply setString_same; [assumption|].
    rewrite trim_slugify. destruct Hslug as [?|Hs]; [discriminate|exact Hs]. }
  rewrite E2, Hdate, Htime. cbn [strOf].
  rewrite (Date_parse_toISOString rt t Ht).
  rewrite normalizeTime_clock by assumption.
  assert (E3 : setString "date" (toISOString t) d = d).
  { apply setString_same; [assumption|].
    rewrite trim_toISOString. assumption. }
  rewrite E3.
  rewrite setString_same; [reflexivity|assumption|].
  rewrite trim_clock. assumption.
Qed.

(* ===================================================================== *)
(** * The address of a booking *)
(* ===================================================================== *)

Lemma isAddrChar_spec c :
  isAddrChar c = true <-> isWhiteSpace c = false /\ c <> 64%N.
Proof.
  unfold isAddrChar. rewrite negb_true_iff, orb_false_iff, N.eqb_neq.
  reflexivity.
Qed.

Lemma filter_at_addr s :
  Forall (fun c => isAddrChar c = true) s -> List.filter (N.eqb 64) s = [].
Proof.
  induction 1 as [|c s Hc Hs IH]; [reflexivity|].
  apply isAddrChar_spec in Hc as [_ Hc]. cbn [List.filter].
  destruct (N.eqb_spec 64 c) as [E|_]; [congruence|exact IH].
Qed.

(* ===================================================================== *)
(** * The connection cache: attempts and connections *)
(* ===================================================================== *)

Lemma exec_settle_inv p r w w' o :
  exec (Settle p r) w = Some (w', o) ->
  promises w !! p = Some Pending /\ r <> Pending /\ o = None
  /\ w' = {| cached := cached w; MONGODB_URI := MONGODB_URI w;
             promises := <[p := r]> (promises w);
             waiting := waiting w; effects := effects w |}.
Proof.
  simpl. destruct (promises w !! p) as [[| |]|]; try discriminate;
    destruct r; try discriminate; intros [= <- <-]; auto.
Qed.

Lemma exec_continue_inv p w w' o :
  exec (Continue p) w = Some (w', o) ->
  p ∈ waiting w
  /\ ((exists c, promises w !! p = Some (Fulfilled c)
                 /\ o = Some (Returned c)
                 /\ w' = {| cached := {| conn := Some c;
                                         promise := promise (cached w) |};
                            MONGODB_URI := MONGODB_URI w;
                            promises := promises w;
                            waiting := removeOne p (waiting w);
                            effects := effects w |})
      \/ (exists code, promises w !! p = Some (Rejected code)
                       /\ o = Some (Threw (ConnectionError code))
                       /\ w' = {| cached := cached w;
                                  MONGODB_URI := MONGODB_URI w;
                                  promises := promises w;
                                  waiting := removeOne p (waiting w);
                                  effects := effects w |})).
Proof.
  simpl. destruct (bool_decide (p ∈ waiting w)) eqn:Ein; [|discriminate].
  apply bool_decide_eq_true in Ein. unfold resume.
  destruct (promises w !! p) as [[|c|code]|]; try discriminate;
    cbn; intros [= <- <-]; (split; [assumption|]).
  - left. exists c. auto.
  - right. exists code. auto.
Qed.

Lemma singleAttempt_boot uri : singleAttempt uri (boot uri).
Proof. split; [reflexivity|]. simpl. auto. Qed.

Lemma singleAttempt_exec uri a w w' o :
  singleAttempt uri w -> exec a w = Some (w', o) ->
  singleAttempt uri w'
  /\ forall p, o = Some (Awaiting p) -> p = 0%nat.
Proof.
  intros [Hu Hs] H. destruct a as [|p r|p].
  - simpl in H.
    destruct (connect_cases w)
      as [(c & Hc & E)|[(p & Hn & Hp & E)|[(Hn & Hp & Ha & E)
         |(u & Hn & Hp & Hm & Ha & E)]]];
      rewrite E in H; injection H as <- <-.
    + split; [split; assumption|discriminate].
    + rewrite Hp in Hs. destruct Hs as (-> & Hl & Hat).
      split; [|intros q [= <-]; reflexivity].
      split; [exact Hu|]. cbn [cached promise promises]. rewrite Hp.
      split; [reflexivity|]. split; [assumption|exact Hat].
    + split; [|discriminate].
      split; [exact Hu|]. cbn [cached promise promises]. rewrite Hp in *.
      exact Hs.
    + rewrite Hp in Hs. destruct Hs as (Hps & Hat).
      rewrite Hps. cbn [length].
      split; [|intros q [= <-]; reflexivity].
      split; [exact Hu|]. cbn [cached promise promises].
      split; [reflexivity|]. split; [reflexivity|].
      exists u. split; [congruence|]. split; [congruence|].
      unfold attempts in *. cbn [effects List.filter]. rewrite Hat.
      reflexivity.
  - apply exec_settle_inv in H as (Hp & _ & -> & ->).
    split; [|discriminate].
    split; [exact Hu|]. cbn [cached promises].
    destruct (promise (cached w)) as [q|].
    + destruct Hs as (-> & Hl & Hat). split; [reflexivity|].
      split; [|exact Hat]. rewrite length_insert. exact Hl.
    + destruct Hs as (Hps & _). rewrite Hps in Hp. discriminate.
  - apply exec_continue_inv in H
      as (_ & [(c & _ & -> & ->)|(code & _ & -> & ->)]);
      (split; [|discriminate]); (split; [exact Hu|exact Hs]).
Qed.

Lemma singleAttempt_run uri sched w w' os :
  singleAttempt uri w -> run sched w = Some (w', os) ->
  singleAttempt uri w'
  /\ Forall (fun o => forall p, o = Awaiting p -> p = 0%nat) os.
Proof.
  revert w os. induction sched as [|a sched IH]; intros w os Hs H.
  - injection H as <- <-. split; [assumption|constructor].
  - rewrite run_cons in H.
    destruct (exec a w) as [[w1 o]|] eqn:E; [|discriminate].
    destruct (run sched w1) as [[w2 os2]|] eqn:E2; [|discriminate].
    injection H as <- <-.
    destruct (singleAttempt_exec uri a w w1 o Hs E) as [Hs1 Ho].
    destruct (IH w1 os2 Hs1 E2) as [Hs2 Hos].
    split; [assumption|]. apply Forall_app. split; [assumption|].
    destruct o as [o|]; simpl; [|constructor].
    constructor; [|constructor]. intros p ->. apply Ho. reflexivity.
Qed.

(** A cached connection stays cached. *)
Lemma conn_kept a w w' o c :
  wellFormed w -> conn (cached w) = Some c -> exec a w = Some (w', o) ->
  conn (cached w') = Some c.
Proof.
  intros [Hw Hc] Hcc H. destruct a as [|p r|p].
  - simpl in H. unfold connectToDatabase in H. rewrite Hcc in H.
    injection H as <- <-. assumption.
  - apply exec_settle_inv in H as (_ & _ & _ & ->). assumption.
  - apply exec_continue_inv in H
      as (Hin & [(c' & Hf & _ & ->)|(code & _ & _ & ->)]);
      [|assumption].
    cbn [cached conn].
    destruct (Hc c Hcc) as (p0 & Hp0 & Hf0).
    pose proof (Hw p Hin) as Hp. congruence.
Qed.

Lemma conn_kept_run sched w w' os c :
  wellFormed w -> conn (cached w) = Some c -> run sched w = Some (w', os) ->
  conn (cached w') = Some c.
Proof.
  revert w os. induction sched as [|a sched IH]; intros w os Hw Hc H.
  - injection H as <- <-. assumption.
  - rewrite run_cons in H.
    destruct (exec a w) as [[w1 o]|] eqn:E; [|discriminate].
    destruct (run sched w1) as [[w2 os2]|] eqn:E2; [|discriminate].
    injection H as <- <-.
    eapply IH; [| |exact E2].
    + eapply wellFormed_exec; eassumption.
    + eapply conn_kept; eassumption.
Qed.

(** A call or a continuation that returns a connection leaves it in the
    cache. *)
Lemma returned_cached a w w' c :
  exec a w = Some (w', Some (Returned c)) -> conn (cached w') = Some c.
Proof.
  intros H. destruct a as [|p r|p].
  - simpl in H.
    destruct (connect_cases w)
      as [(c0 & Hc & E)|[(p & _ & _ & E)|[(_ & _ & _ & E)
         |(u & _ & _ & _ & _ & E)]]];
      rewrite E in H; injection H as <-; try discriminate.
    congruence.
  - apply exec_settle_inv in H as (_ & _ & ? & _). discriminate.
  - apply exec_continue_inv in H
      as (_ & [(c' & _ & Ho & ->)|(code & _ & Ho & _)]);
      [|discriminate].
    injection Ho as <-. reflexivity.
Qed.

Lemma returned_run sched w w' os c :
  wellFormed w -> run sched w = Some (w', os) -> Returned c ∈ os ->
  conn (cached w') = Some c.
Proof.
  revert w os. induction sched as [|a sched IH]; intros w os Hw H Hin.
  - injection H as <- <-. apply elem_of_nil in Hin. destruct Hin.
  - rewrite run_cons in H.
    destruct (exec a w) as [[w1 o]|] eqn:E; [|discriminate].
    destruct (run sched w1) as [[w2 os2]|] eqn:E2; [|discriminate].
    injection H as <- <-.
    assert (Hw1 : wellFormed w1) by (eapply wellFormed_exec; eassumption).
    apply elem_of_app in Hin as [Hin|Hin].
    + eapply IH; eassumption.
    + destruct o as [o|]; simpl in Hin;
        [|apply elem_of_nil in Hin; destruct Hin].
      apply list_elem_of_singleton in Hin as <-.
      eapply conn_kept_run; [exact Hw1| |exact E2].
      eapply returned_cached, E.
Qed.

Lemma absent_exec uri a w w' o :
  absentUri uri = true -> MONGODB_URI w = uri ->
  cached w = {| conn := None; promise := None |} -> promises w = [] ->
  exec a w = Some (w', o) ->
  a = Call /\ o = Some (Threw MissingUriError)
  /\ MONGODB_URI w' = uri /\ cached w' = cached w /\ promises w' = []
  /\ waiting w' = waiting w
  /\ effects w' = ReadEnv :: effects w.
Proof.
  intros Ha Hu Hc Hp H. destruct a as [|p r|p].
  - simpl in H. unfold connectToDatabase in H. rewrite Hc, Hu in H.
    cbn [conn promise] in H.
    destruct uri as [[|x u]|]; try discriminate;
      injection H as <- <-; cbn; auto 10.
  - apply exec_settle_inv in H as (H & _). rewrite Hp in H. discriminate.
  - apply exec_continue_inv in H
      as (_ & [(c & H & _)|(code & H & _)]); rewrite Hp in H; discriminate.
Qed.

Lemma replicate_middle {A} n (x : A) l :
  replicate n x ++ x :: l = x :: replicate n x ++ l.
Proof.
  induction n as [|n IH]; [reflexivity|]. simpl. rewrite IH. reflexivity.
Qed.

Lemma absent_run uri sched w w' os :
  absentUri uri = true -> MONGODB_URI w = uri ->
  cached w = {| conn := None; promise := None |} -> promises w = [] ->
  run sched w = Some (w', os) ->
  sched = replicate (length sched) Call
  /\ os = replicate (length sched) (Threw MissingUriError)
  /\ cached w' = cached w /\ promises w' = []
  /\ effects w' = replicate (length sched) ReadEnv ++ effects w.
Proof.
  intros Ha. revert w os.
  induction sched as [|a sched IH]; intros w os Hu Hc Hp H.
  - injection H as <- <-. auto.
  - rewrite run_cons in H.
    destruct (exec a w) as [[w1 o]|] eqn:E; [|discriminate].
    destruct (run sched w1) as [[w2 os2]|] eqn:E2; [|discriminate].
    injection H as <- <-.
    destruct (absent_exec uri a w w1 o Ha Hu Hc Hp E)
      as (-> & -> & Hu1 & Hc1 & Hp1 & _ & He1).
    destruct (IH w1 os2 Hu1 (eq_trans Hc1 Hc) Hp1 E2)
      as (Hs & -> & Hc2 & Hp2 & He2).
    cbn [length replicate]. split; [f_equal; exact Hs|]. split.
    + change (option_list (Some (Threw MissingUriError)))
        with [Threw MissingUriError].
      rewrite replicate_middle, app_nil_r. reflexivity.
    + split; [congruence|]. split; [assumption|].
      rewrite He2, He1. apply replicate_middle.
Qed.

Lemma established_exec p c a w w' o :
  established p c w -> exec a w = Some (w', o) ->
  established p c w' /\ attempts w' = attempts w
  /\ (o = None \/ o = Some (Awaiting p) \/ o = Some (Returned c)).
Proof.
  intros Hes H.
  assert (Hwf' : wellFormed w').
  { destruct Hes as (Hwf & _). eapply wellFormed_exec; eassumption. }
  pose proof Hes as (Hwf & Hp & Hf).
  destruct a as [|q r|q].
  - simpl in H.
    destruct (connect_cases w)
      as [(c0 & Hc & E)|[(p0 & Hn & Hp0 & E)|[(_ & Hn & _)
         |(u & _ & Hn & _)]]]; try congruence;
      rewrite E in H; injection H as <- <-.
    + split; [assumption|]. split; [reflexivity|]. right. right.
      destruct Hwf as [_ Hcc]. destruct (Hcc c0 Hc) as (p1 & Hp1 & Hf1).
      do 2 f_equal. congruence.
    + split; [|split; [reflexivity|]].
      * split; [exact Hwf'|]. simpl. auto.
      * right. left. congruence.
  - apply exec_settle_inv in H as (Hq & _ & -> & ->).
    split; [|split; [reflexivity|left; reflexivity]].
    split; [exact Hwf'|]. simpl. split; [assumption|].
    rewrite list_lookup_insert_ne; [assumption|]. congruence.
  - apply exec_continue_inv in H
      as (Hin & [(c' & Hf' & -> & ->)|(code & Hf' & -> & ->)]).
    + destruct Hwf as [Hw _]. pose proof (Hw q Hin) as Hq.
      assert (c' = c) by congruence. subst c'.
      split; [|split; [reflexivity|right; right; reflexivity]].
      split; [exact Hwf'|]. simpl. auto.
    + destruct Hwf as [Hw _]. pose proof (Hw q Hin) as Hq. congruence.
Qed.

Lemma established_run p c sched w w' os :
  established p c w -> run sched w = Some (w', os) ->
  established p c w' /\ attempts w' = attempts w
  /\ Forall (fun o => o = Awaiting p \/ o = Returned c) os.
Proof.
  revert w os. induction sched as [|a sched IH]; intros w os Hes H.
  - injection H as <- <-. split; [assumption|]. split; [reflexivity|constructor].
  - rewrite run_cons in H.
    destruct (exec a w) as [[w1 o]|] eqn:E; [|discriminate].
    destruct (run sched w1) as [[w2 os2]|] eqn:E2; [|discriminate].
    injection H as <- <-.
    destruct (established_exec p c a w w1 o Hes E) as (Hes1 & Ha1 & Ho).
    destruct (IH w1 os2 Hes1 E2) as (Hes2 & Ha2 & Hos).
    split; [assumption|]. split; [congruence|].
    apply Forall_app. split; [assumption|].
    destruct Ho as [-> | [-> | ->]]; simpl.
    + constructor.
    + constructor; [left; reflexivity|constructor].
    + constructor; [right; reflexivity|constructor].
Qed.

(* ===================================================================== *)
(** * The unique index *)
(* ===================================================================== *)

Lemma existsb_elem {A} (p : A -> bool) l x :
  x ∈ l -> p x = true -> existsb p l = true.
Proof.
  intros Hin Hp. apply existsb_exists. exists x.
  split; [apply list_elem_of_In, Hin|exact Hp].
Qed.

(* ===================================================================== *)
(** * The constructor of an event and the schema *)
(* ===================================================================== *)























(* ===================================================================== *)
(** * A booking from any input *)
(* ===================================================================== *)

Lemma bookingCreate_run rt events input :
  bookingCreate rt events input
  = match refusedPaths rt input with
    | [] =>
        match givenEventId input, castEmail rt (givenEmail input) with
        | Some id, Some e =>
            match events !! id with
            | Some _ => Ok {| eventId := id; email := e |}
            | None => Throw MissingEventError
            end
        | _, _ => Throw (ValidationError [])
        end
    | paths => Throw (ValidationError paths)
    end.
Proof.
  unfold bookingCreate, refusedPaths, emailAccepted.
  destruct (givenEventId input) as [id|];
    destruct (castEmail rt (givenEmail input)) as [e|]; try reflexivity.
  unfold validateBooking, bookingPreSave, findById. cbn [email eventId].
  destruct (test emailRegex e) eqn:Et.
  - rewrite (test_email_nonempty _ Et). cbn [andb app mbind result_bind].
    destruct (events !! id); reflexivity.
  - rewrite andb_false_r. reflexivity.
Qed.

(* ===================================================================== *)
(** * Dates with a time *)
(* ===================================================================== *)

Lemma minute_fields t h mi :
  0 <= h <= 23 -> 0 <= mi <= 59 ->
  TimeWithinDay t = MakeTime h mi 0 0 ->
  HourFromTime t = h /\ MinFromTime t = mi /\ SecFromTime t = 0
  /\ msFromTime t = 0.
Proof.
  intros Hh Hmi H. destruct (time_fields t) as (H1 & H2 & H3 & H4 & E).
  rewrite H in E.
  unfold MakeTime, msPerHour, msPerMinute, msPerSecond in E. lia.
Qed.

Lemma toISOString_minute y m d h mi :
  validDate y m d = true -> 0 <= h <= 23 -> 0 <= mi <= 59 ->
  toISOString (MakeDate (MakeDay y (m - 1) d) (MakeTime h mi 0 0))
  = isoMinute y m d h mi ++ js ":00.000Z".
Proof.
  intros Hv Hh Hmi.
  assert (Htm : 0 <= MakeTime h mi 0 0 < msPerDay).
  { unfold MakeTime, msPerHour, msPerMinute, msPerSecond, msPerDay. lia. }
  destruct (calendar_fields y m d _ Hv Htm) as (_ & Htw & Hy & Hm & Hd).
  destruct (minute_fields _ h mi Hh Hmi Htw) as (H1 & H2 & H3 & H4).
  unfold toISOString, isoMinute, isoDate.
  rewrite Hy, Hm, Hd, H1, H2, H3, H4.
  replace (m - 1 + 1) with m by lia.
  rewrite <- !app_assoc. reflexivity.
Qed.

Lemma isoMinute_stamp y m d h mi :
  Forall (fun c => isStampChar c = true) (isoMinute y m d h mi).
Proof.
  unfold isoMinute. apply Forall_app. split; [apply isoDate_stamp|stamp].
Qed.

Lemma Date_parse_minute_utc rt y m d h mi :
  0 <= y <= 9999 -> validDate y m d = true ->
  0 <= h <= 23 -> 0 <= mi <= 59 ->
  Date_parse rt (isoMinute y m d h mi ++ js "Z")
  = Some (MakeDate (MakeDay y (m - 1) d) (MakeTime h mi 0 0)).
Proof.
  intros Hy Hv Hh Hm.
  assert (Hc : clockInRange h mi = true).
  { unfold clockInRange. rewrite orb_true_iff, !andb_true_iff, !Z.leb_le.
    lia. }
  assert (Htm : 0 <= MakeTime h mi 0 0 <= msPerDay).
  { unfold MakeTime, msPerHour, msPerMinute, msPerSecond, msPerDay. lia. }
  pose proof (common_era_in_range y m d _ Hy Hv Htm) as Hr.
  unfold Date_parse, isoMinute. rewrite <- !app_assoc.
  rewrite parseISO_isoDate_time by (assumption || lia).
  rewrite parseTime_rest by (lia || reflexivity). rewrite Hc. step_bind.
  change (parseOffset (js "Z")) with (Some (Some 0)). step_bind.
  cbn [default]. unfold id.
  replace (MakeDate (MakeDay y (m - 1) d) (MakeTime h mi 0 0) - 0)
    with (MakeDate (MakeDay y (m - 1) d) (MakeTime h mi 0 0)) by lia.
  apply TimeClip_valid. unfold msPerDay in *. lia.
Qed.

Lemma Date_parse_minute_local rt y m d h mi :
  validOffset rt ->
  0 <= y <= 9999 -> validDate y m d = true ->
  0 <= h <= 23 -> 0 <= mi <= 59 ->
  Date_parse rt (isoMinute y m d h mi)
  = Some (MakeDate (MakeDay y (m - 1) d) (MakeTime h mi 0 0) - localTZA rt).
Proof.
  intros Hz Hy Hv Hh Hm.
  assert (Hc : clockInRange h mi = true).
  { unfold clockInRange. rewrite orb_true_iff, !andb_true_iff, !Z.leb_le.
    lia. }
  assert (Htm : 0 <= MakeTime h mi 0 0 <= msPerDay).
  { unfold MakeTime, msPerHour, msPerMinute, msPerSecond, msPerDay. lia. }
  pose proof (common_era_in_range y m d _ Hy Hv Htm) as Hr.
  unfold validOffset in Hz.
  unfold Date_parse, isoMinute.
  rewrite parseISO_isoDate_time by (assumption || lia).
  rewrite <- (app_nil_r (fixedDigits 2 mi)).
  rewrite parseTime_rest by (lia || reflexivity). rewrite Hc. step_bind.
  change (parseOffset []) with (Some (@None Z)). step_bind.
  cbn [default]. apply TimeClip_valid. unfold msPerDay in *. lia.
Qed.

(* ===================================================================== *)
(** * C1: the slug *)
(* ===================================================================== *)

(** C1. [slugify] computes what the specification words: the title
    lower-cased, trimmed, stripped of the characters outside
    [[a-z0-9\s-]], each run of whitespace replaced by one dash and runs of
    dashes collapsed; on an engine that lower-cases ASCII the title
    "Tech Talk: AI & You!" gives "tech-talk-ai-you"; and in every write
    that passes the loop over the required fields and in which the title
    is modified or the slug is absent, the hook leaves in [slug] that
    function of the title it leaves in [title]. *)
Theorem C1_slug_recomputed (rt : Runtime) :
  (forall title, slugify rt title = specSlug rt title)
  /\ (lowers_ascii rt ->
      slugify rt (js "Tech Talk: AI & You!") = js "tech-talk-ai-you")
  /\ (forall d,
        passesLoop d = true ->
        isModified "title" d = true \/ truthy (get d "slug") = false ->
        exists title,
          get (fst (eventPreSave rt d)) "title" = VString title
          /\ get (fst (eventPreSave rt d)) "slug"
             = VString (specSlug rt title)).
Proof.
  split; [apply slugify_specSlug|]. split.
  - intros Hl. unfold slugify. rewrite Hl.
    + vm_compute. reflexivity.
    + apply isASCII_js. vm_compute. reflexivity.
  - intros d Hp Hc. eexists. split; [apply title_after_hook, Hp|].
    rewrite slug_after_hook by assumption.
    assert (Ht := afterLoop_field d "title" Hp in_required_title).
    unfold afterSlug.
    assert (Hcond : isModified "title" (afterLoop d)
                    || negb (truthy (get (afterLoop d) "slug")) = true).
    { destruct Hc as [Hm|Hs].
      - unfold afterLoop. rewrite isModified_trimFields_mono by assumption.
        reflexivity.
      - rewrite (afterLoop_other d "slug" slug_not_required), Hs.
        apply orb_true_r. }
    rewrite Hcond, get_setString_eq, Ht, trim_slugify.
    cbn [strOf]. rewrite slugify_specSlug. reflexivity.
Qed.

Lemma C1_slug_recomputed_witness :
  slugify asciiRuntime (js "Tech Talk: AI & You!") = js "tech-talk-ai-you"
  /\ exists title,
       get (fst (eventPreSave asciiRuntime newTechTalk)) "title" = VString title
       /\ get (fst (eventPreSave asciiRuntime newTechTalk)) "slug"
          = VString (specSlug asciiRuntime title).
Proof.
  destruct (C1_slug_recomputed asciiRuntime) as (_ & Hex & Hhook).
  split.
  - apply Hex, asciiRuntime_lowers.
  - apply (Hhook newTechTalk).
    + vm_compute. reflexivity.
    + left. vm_compute. reflexivity.
Defined.

(* ===================================================================== *)
(** * C2: the time *)
(* ===================================================================== *)

(** C2. [normalizeTime] parses the trimmed string prefixed with the epoch
    date; when the parse fails it throws the invalid-time error; when it
    succeeds it returns two digits of hours (0 to 23), a colon and two
    digits of minutes (0 to 59); "14:30" normalizes to "14:30".  The
    string "9:5 AM" prefixed with "1970-01-01T" is not of the Date Time
    String Format, so its fate is the engine's: on every engine whose own
    parser rejects it, as V8's does for whatever follows the separator T
    and is not a time of the format, [normalizeTime] throws on "9:5 AM",
    where the claim and the comment of line 48 say it is accepted; the
    same holds of "not-a-time". *)
Theorem C2_normalizeTime (rt : Runtime) :
  (forall value,
     Date_parse rt (js "1970-01-01T" ++ trim value) = None ->
     normalizeTime rt value = Throw InvalidTimeError)
  /\ (forall value t,
        Date_parse rt (js "1970-01-01T" ++ trim value) = Some t ->
        exists h m, 0 <= h <= 23 /\ 0 <= m <= 59
          /\ normalizeTime rt value
             = Ok (fixedDigits 2 h ++ js ":" ++ fixedDigits 2 m))
  /\ (validOffset rt -> normalizeTime rt (js "14:30") = Ok (js "14:30"))
  /\ (legacyParse rt (js "1970-01-01Tnot-a-time") = None ->
      normalizeTime rt (js "not-a-time") = Throw InvalidTimeError)
  /\ (legacyParse rt (js "1970-01-01T9:5 AM") = None ->
      normalizeTime rt (js "9:5 AM") = Throw InvalidTimeError).
Proof.
  repeat split.
  - intros value H. rewrite normalizeTime_run, H. reflexivity.
  - intros value t H. rewrite normalizeTime_run, H.
    exists (getHours rt t), (getMinutes rt t).
    split; [apply getHours_range|]. split; [apply getMinutes_range|].
    reflexivity.
  - intros Hz.
    apply (normalizeTime_clock rt 14 30 Hz); lia.
  - intros H. rewrite normalizeTime_run.
    change (js "1970-01-01T" ++ trim (js "not-a-time"))
      with (js "1970-01-01Tnot-a-time").
    rewrite Date_parse_legacy by apply parseISO_not_a_time.
    rewrite H. reflexivity.
  - intros H. rewrite normalizeTime_run.
    change (js "1970-01-01T" ++ trim (js "9:5 AM"))
      with (js "1970-01-01T9:5 AM").
    rewrite Date_parse_legacy by apply parseISO_nine_five.
    rewrite H. reflexivity.
Qed.

Lemma C2_normalizeTime_witness :
  normalizeTime asciiRuntime (js "14:30") = Ok (js "14:30")
  /\ normalizeTime asciiRuntime (js "not-a-time") = Throw InvalidTimeError
  /\ normalizeTime asciiRuntime (js "9:5 AM") = Throw InvalidTimeError.
Proof.
  destruct (C2_normalizeTime asciiRuntime) as (_ & _ & H1 & H2 & H3).
  split; [apply H1, asciiRuntime_offset|].
  split; [apply H2|apply H3]; reflexivity.
Defined.

(* ===================================================================== *)
(** * C3: the date *)
(* ===================================================================== *)

(** C3. The hook parses the date (as the loop has trimmed it).  It hands
    the invalid-date error to [next] exactly when the write has passed the
    loop over the required fields and the date does not parse; when the
    date parses, the hook overwrites the path with the ISO string of the
    time value; "2024-03-01" becomes "2024-03-01T00:00:00.000Z". *)
Theorem C3_date_normalized (rt : Runtime) (d : Document) :
  (snd (eventPreSave rt d) = Throw InvalidDateError
   <-> passesLoop d = true
       /\ Date_parse rt (trim (strOf (get d "date"))) = None)
  /\ (forall t,
        passesLoop d = true ->
        Date_parse rt (trim (strOf (get d "date"))) = Some t ->
        get (fst (eventPreSave rt d)) "date" = VString (toISOString t))
  /\ get (fst (eventPreSave rt newTechTalk)) "date"
     = VString (js "2024-03-01T00:00:00.000Z").
Proof.
  split; [|split].
  - destruct (passesLoop d) eqn:Hp.
    + rewrite (hook_error_after_loop rt d Hp).
      destruct (Date_parse rt _) as [t|].
      * split; [|intros [_ H]; discriminate].
        destruct (normalizeTime rt _) eqn:E; [discriminate|].
        apply normalizeTime_error in E. subst. discriminate.
      * split; [intros _; split; reflexivity|reflexivity].
    + destruct (eventPreSave_loop_fails rt d Hp) as (d' & f & -> & _).
      split; [discriminate|intros [H _]; discriminate].
  - apply date_after_hook.
  - apply (date_after_hook rt newTechTalk 1709251200000).
    + vm_compute. reflexivity.
    + vm_compute. reflexivity.
Qed.

Lemma C3_date_normalized_witness :
  get (fst (eventPreSave asciiRuntime newTechTalk)) "date"
  = VString (toISOString 1709251200000).
Proof.
  apply (proj1 (proj2 (C3_date_normalized asciiRuntime newTechTalk))).
  - vm_compute. reflexivity.
  - vm_compute. reflexivity.
Defined.

(* ===================================================================== *)
(** * C4: the required fields, the agenda and the tags *)
(* ===================================================================== *)




(* ===================================================================== *)
(** * C5: the booking *)
(* ===================================================================== *)

(** C5. The hook hands the missing-event error to [next] exactly when the
    lookup of [eventId] finds no Event; a creation ends in that error
    exactly when the address has passed the schema and there is no such
    Event.  When the Event exists and the address, trimmed and
    lower-cased, passes [emailRegex], the creation succeeds and stores the
    trimmed and lower-cased address; "Foo@Bar.COM" is stored as
    "foo@bar.com".  The hook tests the address again: with the Event
    present and an address that fails [emailRegex], it hands the
    invalid-email error to [next]; before the hook, the schema refuses
    with a ValidationError an address that fails [emailRegex]. *)
Theorem C5_booking (rt : Runtime) (events : gmap ObjectId Document) :
  (forall doc,
     bookingPreSave events doc = Throw MissingEventError
     <-> events !! eventId doc = None)
  /\ (forall attrs,
        createBooking rt events attrs = Throw MissingEventError
        <-> test emailRegex (emailSetter rt (email attrs)) = true
            /\ events !! eventId attrs = None)
  /\ (forall attrs,
        is_Some (events !! eventId attrs) ->
        test emailRegex (trim (toLowerCase rt (email attrs))) = true ->
        createBooking rt events attrs
        = Ok {| eventId := eventId attrs;
                email := trim (toLowerCase rt (email attrs)) |})
  /\ (forall attrs,
        test emailRegex (trim (toLowerCase rt (email attrs))) = false ->
        createBooking rt events attrs = Throw (ValidationError ["email"]))
  /\ (forall doc,
        is_Some (events !! eventId doc) ->
        test emailRegex (email doc) = false ->
        bookingPreSave events doc = Throw InvalidEmailError)
  /\ (forall id,
        lowers_ascii rt -> is_Some (events !! id) ->
        createBooking rt events {| eventId := id; email := js "Foo@Bar.COM" |}
        = Ok {| eventId := id; email := js "foo@bar.com" |}).
Proof.
  split; [|split; [|split; [|split; [|split]]]].
  - intros doc. unfold bookingPreSave, findById.
    destruct (events !! eventId doc); simpl.
    + destruct (test emailRegex (email doc)); simpl; split; discriminate.
    + split; reflexivity.
  - intros attrs. rewrite createBooking_run.
    destruct (test emailRegex _); [|split; [discriminate|intros [? _]; discriminate]].
    destruct (events !! eventId attrs);
      [split; [discriminate|intros [_ ?]; discriminate]|].
    split; [intros _; split; reflexivity|reflexivity].
  - intros attrs [e He] Ht. rewrite createBooking_run.
    unfold emailSetter, newBooking, emailSetter. rewrite Ht, He. reflexivity.
  - intros attrs Ht. rewrite createBooking_run.
    unfold emailSetter. rewrite Ht. reflexivity.
  - intros doc [e He] Ht. unfold bookingPreSave, findById.
    rewrite He, Ht. reflexivity.
  - intros id Hl [e He]. rewrite createBooking_run.
    unfold newBooking, emailSetter. cbn [email eventId].
    rewrite Hl by (apply isASCII_js; reflexivity).
    change (trim (map lowerASCII (js "Foo@Bar.COM"))) with (js "foo@bar.com").
    change (test emailRegex (js "foo@bar.com")) with true.
    cbn iota. rewrite He. reflexivity.
Qed.

Lemma C5_booking_witness :
  createBooking asciiRuntime oneEvent
    {| eventId := 7%N; email := js "  Foo@Bar.COM " |}
  = Ok {| eventId := 7%N; email := js "foo@bar.com" |}
  /\ bookingPreSave oneEvent {| eventId := 7%N; email := js "foo@bar" |}
     = Throw InvalidEmailError
  /\ createBooking asciiRuntime oneEvent
       {| eventId := 7%N; email := js "Foo@Bar.COM" |}
     = Ok {| eventId := 7%N; email := js "foo@bar.com" |}
  /\ createBooking asciiRuntime oneEvent
       {| eventId := 8%N; email := js "Foo@Bar.COM" |}
     = Throw MissingEventError.
Proof.
  destruct (C5_booking asciiRuntime oneEvent)
    as (_ & H2 & H3 & _ & H4 & H5).
  assert (Hsome : is_Some (oneEvent !! 7%N)).
  { exists storedTechTalk. apply lookup_singleton_eq. }
  split; [|split; [|split]].
  - apply (H3 {| eventId := 7%N; email := js "  Foo@Bar.COM " |});
      [exact Hsome|reflexivity].
  - apply H4; [exact Hsome|reflexivity].
  - apply H5; [apply asciiRuntime_lowers|exact Hsome].
  - apply H2. split; [reflexivity|]. apply lookup_singleton_ne. discriminate.
Defined.

(* ===================================================================== *)
(** * C6: the missing connection string *)
(* ===================================================================== *)

(** C6. A call throws, before it is ever suspended, exactly when no
    connection is cached, no promise is cached and the connection string
    is absent (undefined or empty, the test [!uri]), and what it throws is
    the missing-URI error; the continuation of a suspended call never
    throws that error.  The throwing call has read the environment and has
    started no connection attempt: the attempts, the promises and the
    cache are as they were.  With a connection cached the call returns it
    and the world is as it was: nothing is read and nothing is started. *)
Theorem C6_connect_fails_fast (w : World) :
  (forall e,
     snd (connectToDatabase w) = Threw e
     <-> e = MissingUriError
         /\ conn (cached w) = None /\ promise (cached w) = None
         /\ absentUri (MONGODB_URI w) = true)
  /\ (forall p w' o, resume p w = Some (w', o) -> o <> Threw MissingUriError)
  /\ (snd (connectToDatabase w) = Threw MissingUriError ->
      attempts (fst (connectToDatabase w)) = attempts w
      /\ promises (fst (connectToDatabase w)) = promises w
      /\ cached (fst (connectToDatabase w)) = cached w
      /\ effects (fst (connectToDatabase w)) = ReadEnv :: effects w)
  /\ (forall c, conn (cached w) = Some c ->
                connectToDatabase w = (w, Returned c)).
Proof.
  split; [|split; [|split]].
  - intros e.
    destruct (connect_cases w)
      as [(c & Hc & E)|[(p & Hn & Hp & E)|[(Hn & Hp & Ha & E)
         |(uri & Hn & Hp & Hu & Ha & E)]]]; rewrite E; simpl.
    + split; [discriminate|]. intros (_ & H & _). congruence.
    + split; [discriminate|]. intros (_ & _ & H & _). congruence.
    + split; [intros [= <-]; auto|]. intros (-> & _). reflexivity.
    + split; [discriminate|]. intros (_ & _ & _ & H).
      rewrite Hu in H. congruence.
  - intros p w' o H. unfold resume in H.
    destruct (promises w !! p) as [[|c|code]|]; try discriminate;
      injection H as <- <-; discriminate.
  - intros H.
    destruct (connect_cases w)
      as [(c & Hc & E)|[(p & Hn & Hp & E)|[(Hn & Hp & Ha & E)
         |(uri & Hn & Hp & Hu & Ha & E)]]]; rewrite E in *; simpl in *;
      try discriminate.
    repeat split.
  - intros c Hc. unfold connectToDatabase. rewrite Hc. reflexivity.
Qed.

Lemma C6_connect_fails_fast_witness :
  snd (connectToDatabase (boot None)) = Threw MissingUriError
  /\ snd (connectToDatabase (boot (Some []))) = Threw MissingUriError
  /\ attempts (fst (connectToDatabase (boot None))) = []
  /\ connectToDatabase
       {| cached := {| conn := Some 5%N; promise := Some 0%nat |};
          MONGODB_URI := None; promises := [Fulfilled 5%N];
          waiting := []; effects := [] |}
     = ({| cached := {| conn := Some 5%N; promise := Some 0%nat |};
           MONGODB_URI := None; promises := [Fulfilled 5%N];
           waiting := []; effects := [] |}, Returned 5%N).
Proof.
  split; [|split; [|split]].
  - apply (proj1 (C6_connect_fails_fast (boot None))). repeat split.
  - apply (proj1 (C6_connect_fails_fast (boot (Some [])))). repeat split.
  - apply (proj1 (proj2 (proj2 (C6_connect_fails_fast (boot None))))).
    reflexivity.
  - apply (proj2 (proj2 (proj2 (C6_connect_fails_fast _)))). reflexivity.
Defined.

(* ===================================================================== *)
(** * C7: the failed attempt stays cached *)
(* ===================================================================== *)

(** C7. No step of the process changes a cached promise.  So once the
    process, started with an empty cache, has reached a world whose cached
    promise is rejected, whatever happens afterwards the same promise is
    cached and no connection is; no connection attempt is added; every
    outcome is a call suspended on that promise or a call throwing its
    error; and the next call awaits that promise and its continuation
    throws that error. *)
Theorem C7_pending_never_reset :
  (forall a w w' o p,
     promise (cached w) = Some p -> exec a w = Some (w', o) ->
     promise (cached w') = Some p)
  /\ (forall uri sched1 w1 os1 p code sched2 w2 os2,
        run sched1 (boot uri) = Some (w1, os1) ->
        promise (cached w1) = Some p ->
        promises w1 !! p = Some (Rejected code) ->
        run sched2 w1 = Some (w2, os2) ->
        promise (cached w2) = Some p
        /\ conn (cached w2) = None
        /\ attempts w2 = attempts w1
        /\ Forall (fun o => o = Awaiting p
                            \/ o = Threw (ConnectionError code)) os2
        /\ snd (connectToDatabase w2) = Awaiting p
        /\ snd <$> resume p w2 = Some (Threw (ConnectionError code))).
Proof.
  split; [exact promise_kept|].
  intros uri sched1 w1 os1 p code sched2 w2 os2 Hrun1 Hp Hr Hrun2.
  assert (Hwf : wellFormed w1).
  { eapply wellFormed_run; [apply wellFormed_boot|exact Hrun1]. }
  assert (Hpo : poisoned p code w1).
  { split; [exact Hwf|]. split; [|split; assumption].
    destruct (conn (cached w1)) as [c|] eqn:Ec; [|reflexivity].
    destruct Hwf as [_ Hc]. destruct (Hc c Ec) as (p0 & Hp0 & Hf).
    congruence. }
  destruct (poisoned_run p code sched2 w1 w2 os2 Hpo Hrun2)
    as (Hpo2 & Ha & Hos).
  pose proof Hpo2 as (_ & Hn2 & Hp2 & Hr2).
  repeat split; try assumption.
  - rewrite (poisoned_connect p code w2 Hpo2). reflexivity.
  - rewrite (poisoned_resume p code w2 Hpo2). reflexivity.
Qed.

Lemma C7_pending_never_reset_witness :
  promise (cached failedStill) = Some 0%nat
  /\ conn (cached failedStill) = None
  /\ attempts failedStill = attempts failedOnce
  /\ Forall (fun o => o = Awaiting 0%nat \/ o = Threw (ConnectionError 111))
       [Threw (ConnectionError 111); Awaiting 0%nat; Awaiting 0%nat;
        Threw (ConnectionError 111); Awaiting 0%nat]
  /\ snd (connectToDatabase failedStill) = Awaiting 0%nat
  /\ snd <$> resume 0%nat failedStill = Some (Threw (ConnectionError 111)).
Proof.
  apply (proj2 C7_pending_never_reset (Some mongoUri)
           [Call; Settle 0%nat (Rejected 111)] failedOnce [Awaiting 0%nat]
           0%nat 111%N
           [Call; Continue 0%nat; Call; Call; Continue 0%nat]).
  - reflexivity.
  - reflexivity.
  - reflexivity.
  - reflexivity.
Defined.

(* ===================================================================== *)
(** * C8: the slug is a function of the title *)
(* ===================================================================== *)

(** C8. The slug is a function of the title.  Two writes whose titles are
    equal and that both derive the slug (the title is modified or the slug
    is absent, as in every new document) leave the same slug; a document
    that has been saved and is saved again keeps its title and its slug;
    and a stored document whose title is not modified and whose slug is
    present keeps its slug: the slug is regenerated only when the title
    changed or the slug was absent. *)
Theorem C8_slug_deterministic (rt : Runtime) :
  (forall d1 d2,
     passesLoop d1 = true -> passesLoop d2 = true ->
     get d1 "title" = get d2 "title" ->
     isModified "title" d1 = true \/ truthy (get d1 "slug") = false ->
     isModified "title" d2 = true \/ truthy (get d2 "slug") = false ->
     get (fst (eventPreSave rt d1)) "slug"
     = get (fst (eventPreSave rt d2)) "slug")
  /\ (forall d d',
        validOffset rt ->
        eventSave rt d = (d', Ok tt) ->
        exists d'',
          eventSave rt (saved d') = (d'', Ok tt)
          /\ get d'' "title" = get d' "title"
          /\ get d'' "slug" = get d' "slug")
  /\ (forall d,
        passesLoop d = true ->
        isNew d = false -> isModified "title" d = false ->
        trimValue (get d "title") = get d "title" ->
        truthy (get d "slug") = true ->
        get (fst (eventPreSave rt d)) "slug" = get d "slug").
Proof.
  split; [|split].
  - intros d1 d2 Hp1 Hp2 Ht Hc1 Hc2.
    rewrite !derived_slug by assumption. rewrite Ht. reflexivity.
  - intros d d' Hz Hsave.
    destruct (resave_event rt d d' Hz Hsave) as (d'' & Hs & Hget).
    exists d''. split; [assumption|]. split; apply Hget.
  - apply kept_slug.
Qed.

Lemma C8_slug_deterministic_witness :
  get (fst (eventPreSave asciiRuntime newTechTalk)) "slug"
  = get (fst (eventPreSave asciiRuntime
                (mkDocument (techTalk " Tech Talk: AI & You! ") [] true)))
      "slug"
  /\ (exists d'',
        eventSave asciiRuntime storedTechTalk = (d'', Ok tt)
        /\ get d'' "title" = VString (js "Tech Talk: AI & You!")
        /\ get d'' "slug" = VString (js "tech-talk-ai-you"))
  /\ get (fst (eventPreSave asciiRuntime storedTechTalk)) "slug"
     = get storedTechTalk "slug".
Proof.
  destruct (C8_slug_deterministic asciiRuntime) as (H1 & H2 & H3).
  split; [|split].
  - apply H1.
    + vm_compute. reflexivity.
    + vm_compute. reflexivity.
    + vm_compute. reflexivity.
    + left. vm_compute. reflexivity.
    + right. vm_compute. reflexivity.
  - destruct (H2 newTechTalk (fst (eventSave asciiRuntime newTechTalk))
                asciiRuntime_offset) as (d'' & Hs & Ht & Hg).
    + vm_compute. reflexivity.
    + exists d''. split; [exact Hs|]. rewrite Ht, Hg.
      split; vm_compute; reflexivity.
  - apply H3; vm_compute; reflexivity.
Defined.

(* ===================================================================== *)
(** * C9: the empty slug *)
(* ===================================================================== *)

(** C9. The title "?!*" has no character of [[a-z0-9\s-]], its slug is
    the empty string, and the write of an event with that title is not
    rejected: the schema accepts it and the hook calls [next] without an
    error, leaving the empty string in [slug]. *)
Theorem C9_empty_slug (rt : Runtime) :
  lowers_ascii rt -> validOffset rt ->
  Forall (fun c => isSlugChar c = false) (js "?!*")
  /\ slugify rt (js "?!*") = []
  /\ exists d',
       eventSave rt punctuated = (d', Ok tt)
       /\ get d' "title" = VString (js "?!*")
       /\ get d' "slug" = VString [].
Proof.
  intros Hl Hz.
  assert (Hc : Forall (fun c => isSlugChar c = false) (js "?!*")).
  { repeat constructor. }
  assert (Hlow : toLowerCase rt (js "?!*") = js "?!*").
  { rewrite Hl; [reflexivity|]. apply isASCII_js. reflexivity. }
  assert (Hslug : slugify rt (js "?!*") = []).
  { apply slugify_empty. rewrite Hlow. exact Hc. }
  split; [exact Hc|]. split; [exact Hslug|].
  assert (Hv : validate eventSchema punctuated = Ok tt)
    by (vm_compute; reflexivity).
  assert (Hp : passesLoop punctuated = true) by (vm_compute; reflexivity).
  assert (Hsave : eventSave rt punctuated = eventPreSave rt punctuated).
  { unfold eventSave. rewrite Hv. reflexivity. }
  exists (fst (eventSave rt punctuated)).
  split; [|split].
  - rewrite (eventSave_pair rt punctuated) at 1. f_equal.
    rewrite Hsave, (hook_error_after_loop rt punctuated Hp).
    assert (Hd : trim (strOf (get punctuated "date")) = js "2024-03-01")
      by (vm_compute; reflexivity).
    assert (Ht : trim (strOf (get punctuated "time"))
                 = fixedDigits 2 14 ++ js ":" ++ fixedDigits 2 30)
      by (vm_compute; reflexivity).
    assert (Hparse : Date_parse rt (js "2024-03-01") = Some 1709251200000)
      by (vm_compute; reflexivity).
    rewrite Hd, Ht, Hparse.
    rewrite normalizeTime_clock by (assumption || lia). reflexivity.
  - rewrite Hsave, (title_after_hook rt punctuated Hp).
    f_equal.
  - rewrite Hsave, (slug_after_hook rt punctuated Hp).
    unfold afterSlug.
    assert (Hm : isModified "title" (afterLoop punctuated) = true).
    { apply isModified_trimFields_mono. vm_compute. reflexivity. }
    rewrite Hm. cbn [orb].
    rewrite get_setString_eq.
    rewrite (afterLoop_field punctuated "title" Hp in_required_title).
    cbn [strOf].
    assert (Ht : trim (strOf (get punctuated "title")) = js "?!*")
      by (vm_compute; reflexivity).
    rewrite Ht, Hslug. reflexivity.
Qed.

Lemma C9_empty_slug_witness :
  slugify asciiRuntime (js "?!*") = []
  /\ exists d',
       eventSave asciiRuntime punctuated = (d', Ok tt)
       /\ get d' "title" = VString (js "?!*")
       /\ get d' "slug" = VString [].
Proof.
  apply (C9_empty_slug asciiRuntime asciiRuntime_lowers asciiRuntime_offset).
Defined.

(* ===================================================================== *)
(** * C10: normalizing what has been normalized *)
(* ===================================================================== *)

(** C10. The ISO string of a date that parsed parses again, to the same
    time value, so that its ISO string is the same string; the HH:MM
    string that [normalizeTime] returned is returned again when it is
    normalized; and an event that has been saved, saved again without a
    change, keeps its [date] and its [time].  The last two are for a local
    time zone less than a day from UTC. *)
Theorem C10_normalization_idempotent (rt : Runtime) :
  (forall s t,
     Date_parse rt s = Some t ->
     exists t', Date_parse rt (toISOString t) = Some t'
                /\ toISOString t' = toISOString t)
  /\ (validOffset rt ->
      forall value hhmm,
        normalizeTime rt value = Ok hhmm ->
        normalizeTime rt hhmm = Ok hhmm)
  /\ (validOffset rt ->
      forall d d',
        eventSave rt d = (d', Ok tt) ->
        exists d'',
          eventSave rt (saved d') = (d'', Ok tt)
          /\ get d'' "date" = get d' "date"
          /\ get d'' "time" = get d' "time").
Proof.
  split; [|split].
  - intros s t H. exists t. split; [|reflexivity].
    apply Date_parse_toISOString. eapply Date_parse_valid, H.
  - intros Hz value hhmm H. rewrite normalizeTime_run in H.
    destruct (Date_parse rt _) as [t|]; [|discriminate].
    injection H as <-.
    apply normalizeTime_clock;
      [assumption|apply getHours_range|apply getMinutes_range].
  - intros Hz d d' Hsave.
    destruct (resave_event rt d d' Hz Hsave) as (d'' & Hs & Hget).
    exists d''. split; [assumption|]. split; apply Hget.
Qed.

Lemma C10_normalization_idempotent_witness :
  (exists t', Date_parse asciiRuntime (toISOString 1709251200000) = Some t'
              /\ toISOString t' = toISOString 1709251200000)
  /\ normalizeTime asciiRuntime (js "14:30") = Ok (js "14:30")
  /\ exists d'',
       eventSave asciiRuntime storedTechTalk = (d'', Ok tt)
       /\ get d'' "date" = VString (js "2024-03-01T00:00:00.000Z")
       /\ get d'' "time" = VString (js "14:30").
Proof.
  destruct (C10_normalization_idempotent asciiRuntime) as (H1 & H2 & H3).
  split; [|split].
  - apply (H1 (js "2024-03-01")). vm_compute. reflexivity.
  - apply (H2 asciiRuntime_offset (js " 14:30 ")). vm_compute. reflexivity.
  - destruct (H3 asciiRuntime_offset newTechTalk
                (fst (eventSave asciiRuntime newTechTalk)))
      as (d'' & Hs & Hd & Ht).
    + vm_compute. reflexivity.
    + exists d''. split; [exact Hs|]. rewrite Hd, Ht.
      split; vm_compute; reflexivity.
Defined.

(* ===================================================================== *)
(** * X1: the characters of a slug *)
(* ===================================================================== *)

(** X1. A slug holds lower-case letters, digits and dashes only, never
    two dashes in a row, and is not longer than the lower-cased title. *)
Theorem X1_slug_url_safe (rt : Runtime) (title : jsstring) :
  Forall (fun c => isLowerAlnum c || isDash c = true) (slugify rt title)
  /\ (forall i, slugify rt title !! i = Some 45%N ->
                slugify rt title !! S i <> Some 45%N)
  /\ (length (slugify rt title) <= length (toLowerCase rt title))%nat.
Proof.
  split; [apply slugify_chars|]. split.
  - intros i Ha Hb.
    assert (Hp : hasPair isDash (slugify rt title) = false).
    { rewrite slugify_specSlug. apply squeeze_noPair. }
    pose proof (hasPair_lookup isDash _ i 45%N 45%N Hp Ha Hb eq_refl).
    discriminate.
  - rewrite slugify_specSlug. unfold specSlug.
    etransitivity; [apply squeeze_length|].
    etransitivity; [apply squeeze_length|].
    etransitivity; [apply filter_length_le|]. apply trim_length.
Qed.

Lemma X1_slug_url_safe_witness :
  Forall (fun c => isLowerAlnum c || isDash c = true)
    (slugify asciiRuntime (js "a -- b"))
  /\ (length (slugify asciiRuntime (js "a -- b"))
      <= length (toLowerCase asciiRuntime (js "a -- b")))%nat.
Proof.
  destruct (X1_slug_url_safe asciiRuntime (js "a -- b")) as (H1 & _ & H3).
  split; [exact H1|exact H3].
Defined.

(* ===================================================================== *)
(** * X2: the slug of a slug *)
(* ===================================================================== *)

(** X2. On an engine that lower-cases ASCII, the slug of a slug is that
    slug. *)
Theorem X2_slugify_idempotent (rt : Runtime) (title : jsstring) :
  lowers_ascii rt ->
  slugify rt (slugify rt title) = slugify rt title.
Proof.
  intros Hl.
  pose proof (slugify_chars rt title) as Hc.
  assert (Hp : hasPair isDash (slugify rt title) = false).
  { rewrite slugify_specSlug. apply squeeze_noPair. }
  pose proof (trim_slugify rt title) as Ht.
  set (s := slugify rt title) in *.
  assert (Hlow : toLowerCase rt s = s).
  { rewrite Hl.
    - clear -Hc. induction Hc as [|c r H Hr IH]; simpl; [reflexivity|].
      destruct (isSlugOut_fixed c H) as (_ & -> & _). rewrite IH. reflexivity.
    - eapply Forall_impl; [exact Hc|]. intros c H.
      apply (isSlugOut_fixed c H). }
  rewrite slugify_specSlug. unfold specSlug. rewrite Hlow, Ht.
  rewrite filter_all
    by (eapply Forall_impl; [exact Hc|]; intros c H;
        apply (isSlugOut_fixed c H)).
  rewrite (squeeze_none isWhiteSpace)
    by (eapply Forall_impl; [exact Hc|]; intros c H;
        apply isSlugOut_no_space, H).
  apply squeeze_id; [|exact Hp].
  eapply Forall_impl; [exact Hc|]. intros c H.
  apply (isSlugOut_fixed c H).
Qed.

Lemma X2_slugify_idempotent_witness :
  slugify asciiRuntime (slugify asciiRuntime (js " Tech Talk: AI & You! "))
  = slugify asciiRuntime (js " Tech Talk: AI & You! ").
Proof. apply X2_slugify_idempotent, asciiRuntime_lowers. Defined.

(* ===================================================================== *)
(** * X3: when the slug is empty *)
(* ===================================================================== *)

(** X3. The slug is empty exactly when the lower-cased and trimmed title
    has no character of [[a-z0-9\s-]]. *)
Theorem X3_empty_slug_iff (rt : Runtime) (title : jsstring) :
  slugify rt title = []
  <-> Forall (fun c => isSlugChar c = false) (trim (toLowerCase rt title)).
Proof.
  rewrite slugify_specSlug. unfold specSlug.
  rewrite !squeeze_nil. apply filter_none_iff.
Qed.

Lemma X3_empty_slug_iff_witness : slugify asciiRuntime (js " ?!* ") = [].
Proof.
  apply (proj2 (X3_empty_slug_iff asciiRuntime (js " ?!* "))).
  vm_compute. repeat constructor.
Defined.

(* ===================================================================== *)
(** * X4: seconds and milliseconds *)
(* ===================================================================== *)

(** X4. [normalizeTime] drops the seconds and the milliseconds of a time
    of the format: it truncates to the minute. *)
Theorem X4_time_truncates (rt : Runtime) (h mi sec ms : Z) :
  validOffset rt ->
  0 <= h <= 23 -> 0 <= mi <= 59 -> 0 <= sec <= 59 -> 0 <= ms <= 999 ->
  normalizeTime rt (fixedDigits 2 h ++ js ":" ++ fixedDigits 2 mi ++ js ":"
                    ++ fixedDigits 2 sec ++ js "." ++ fixedDigits 3 ms)
  = Ok (fixedDigits 2 h ++ js ":" ++ fixedDigits 2 mi).
Proof.
  intros Hz Hh Hm Hs Hms. rewrite normalizeTime_run.
  rewrite trim_stamp by stamp.
  rewrite (Date_parse_epoch_time rt _ (MakeTime h mi sec ms) [] None).
  - cbn [default]. rewrite TimeClip_clock.
    + unfold getHours, getMinutes, LocalTime.
      replace (MakeTime h mi sec ms - localTZA rt + localTZA rt)
        with (MakeTime h mi sec ms) by lia.
      destruct (time_of_day_fields h mi sec ms Hh Hm Hs Hms) as [-> ->].
      reflexivity.
    + assumption.
    + unfold MakeTime, msPerHour, msPerMinute, msPerSecond, msPerDay. lia.
  - rewrite <- (app_nil_r (fixedDigits 3 ms)).
    apply parseTime_full; assumption.
  - reflexivity.
Qed.

Lemma X4_time_truncates_witness :
  normalizeTime asciiRuntime (js "23:59:59.999") = Ok (js "23:59").
Proof.
  apply (X4_time_truncates asciiRuntime 23 59 59 999 asciiRuntime_offset);
    lia.
Defined.

(* ===================================================================== *)
(** * X5: a time in UTC *)
(* ===================================================================== *)

(** X5. A time followed by [Z] is a time in UTC, and [normalizeTime]
    returns the hour and minute it is in the local zone of the process:
    the result moves with [localTZA]. *)
Theorem X5_time_utc_to_local (rt : Runtime) (h mi : Z) :
  validOffset rt -> 0 <= h <= 23 -> 0 <= mi <= 59 ->
  normalizeTime rt (fixedDigits 2 h ++ js ":" ++ fixedDigits 2 mi ++ js "Z")
  = Ok (fixedDigits 2 (HourFromTime (MakeTime h mi 0 0 + localTZA rt))
        ++ js ":"
        ++ fixedDigits 2 (MinFromTime (MakeTime h mi 0 0 + localTZA rt))).
Proof.
  intros Hz Hh Hm. rewrite normalizeTime_run.
  rewrite trim_stamp by stamp.
  rewrite (Date_parse_epoch_time rt _ (MakeTime h mi 0 0) (js "Z") (Some 0)).
  - cbn [default]. unfold id. rewrite TimeClip_valid.
    + unfold getHours, getMinutes, LocalTime.
      replace (MakeTime h mi 0 0 - 0 + localTZA rt)
        with (MakeTime h mi 0 0 + localTZA rt) by lia.
      reflexivity.
    + unfold MakeTime, msPerHour, msPerMinute, msPerSecond, maxTime. lia.
  - rewrite parseTime_rest by (lia || reflexivity).
    assert (Hc : clockInRange h mi = true).
    { unfold clockInRange. rewrite orb_true_iff, !andb_true_iff, !Z.leb_le.
      lia. }
    rewrite Hc. reflexivity.
  - reflexivity.
Qed.

Lemma X5_time_utc_to_local_witness :
  normalizeTime kolkataRuntime (js "14:30Z") = Ok (js "20:00")
  /\ normalizeTime asciiRuntime (js "14:30Z") = Ok (js "14:30").
Proof.
  split.
  - apply (X5_time_utc_to_local kolkataRuntime 14 30); [|lia|lia].
    unfold validOffset. cbn. unfold msPerDay. lia.
  - apply (X5_time_utc_to_local asciiRuntime 14 30 asciiRuntime_offset); lia.
Defined.

(* ===================================================================== *)
(** * X6: the bounds of a time *)
(* ===================================================================== *)

(** X6. The hour 24 is accepted with minutes 00 and gives "00:00";
    hours and minutes of two digits beyond 23 and 59 are not of the
    format, and [normalizeTime] throws on them when the engine's own
    parser rejects them too. *)
Theorem X6_time_bounds (rt : Runtime) (h mi : Z) :
  0 <= h <= 99 -> 0 <= mi <= 99 ->
  (validOffset rt -> h <= 23 -> mi <= 59 ->
   normalizeTime rt (fixedDigits 2 h ++ js ":" ++ fixedDigits 2 mi)
   = Ok (fixedDigits 2 h ++ js ":" ++ fixedDigits 2 mi))
  /\ (validOffset rt -> h = 24 -> mi = 0 ->
      normalizeTime rt (fixedDigits 2 h ++ js ":" ++ fixedDigits 2 mi)
      = Ok (js "00:00"))
  /\ (clockInRange h mi = false ->
      legacyParse rt (js "1970-01-01T" ++ fixedDigits 2 h ++ js ":"
                      ++ fixedDigits 2 mi) = None ->
      normalizeTime rt (fixedDigits 2 h ++ js ":" ++ fixedDigits 2 mi)
      = Throw InvalidTimeError).
Proof.
  intros Hh Hm. split; [|split].
  - intros Hz H1 H2. apply normalizeTime_clock; [assumption|lia|lia].
  - intros Hz -> ->. rewrite normalizeTime_run.
    change (trim (fixedDigits 2 24 ++ js ":" ++ fixedDigits 2 0))
      with (js "24:00").
    rewrite (Date_parse_epoch_time rt (js "24:00") msPerDay [] None);
      [|reflexivity|reflexivity].
    cbn [default]. rewrite TimeClip_clock; [|assumption|unfold msPerDay; lia].
    unfold getHours, getMinutes, LocalTime.
    replace (msPerDay - localTZA rt + localTZA rt) with msPerDay by lia.
    reflexivity.
  - intros Hc Hl. rewrite normalizeTime_run, trim_clock.
    rewrite Date_parse_epoch_none.
    + rewrite Hl. reflexivity.
    + rewrite <- (app_nil_r (fixedDigits 2 mi)).
      rewrite parseTime_rest by (lia || reflexivity).
      rewrite Hc. reflexivity.
Qed.

Lemma X6_time_bounds_witness :
  normalizeTime asciiRuntime (js "24:00") = Ok (js "00:00")
  /\ normalizeTime asciiRuntime (js "24:01") = Throw InvalidTimeError
  /\ normalizeTime asciiRuntime (js "12:60") = Throw InvalidTimeError.
Proof.
  split; [|split].
  - apply (proj1 (proj2 (X6_time_bounds asciiRuntime 24 0 ltac:(lia) ltac:(lia))));
      [apply asciiRuntime_offset|reflexivity|reflexivity].
  - apply (proj2 (proj2 (X6_time_bounds asciiRuntime 24 1 ltac:(lia) ltac:(lia))));
      reflexivity.
  - apply (proj2 (proj2 (X6_time_bounds asciiRuntime 12 60 ltac:(lia) ltac:(lia))));
      reflexivity.
Defined.

(* ===================================================================== *)
(** * X7: a date without a time *)
(* ===================================================================== *)

(** X7. A date given as a day of the calendar, [YYYY-MM-DD], is read as
    that day at midnight UTC whatever the zone of the process and the
    engine's own formats, and the hook stores it as
    [YYYY-MM-DDT00:00:00.000Z]. *)
Theorem X7_date_only_is_utc_midnight (rt : Runtime) (y m d : Z) :
  0 <= y <= 9999 -> validDate y m d = true ->
  Date_parse rt (isoDate y m d) = Some (MakeDate (MakeDay y (m - 1) d) 0)
  /\ toISOString (MakeDate (MakeDay y (m - 1) d) 0)
     = isoDate y m d ++ js "T00:00:00.000Z"
  /\ forall doc,
       passesLoop doc = true ->
       get doc "date" = VString (isoDate y m d) ->
       get (fst (eventPreSave rt doc)) "date"
       = VString (isoDate y m d ++ js "T00:00:00.000Z").
Proof.
  intros Hy Hv.
  assert (Hp : Date_parse rt (isoDate y m d)
               = Some (MakeDate (MakeDay y (m - 1) d) 0)).
  { unfold Date_parse. rewrite parseISO_isoDate by (assumption || lia).
    apply TimeClip_valid.
    pose proof (common_era_in_range y m d 0 Hy Hv
                  ltac:(unfold msPerDay; lia)).
    unfold msPerDay in *. lia. }
  split; [exact Hp|]. split; [apply toISOString_midnight, Hv|].
  intros doc Hl Hd.
  rewrite (date_after_hook rt doc (MakeDate (MakeDay y (m - 1) d) 0) Hl).
  - rewrite toISOString_midnight by assumption. reflexivity.
  - rewrite Hd. cbn [strOf].
    rewrite (trim_no_space isStampChar _ isStampChar_no_space
               (isoDate_stamp y m d)).
    exact Hp.
Qed.

Lemma X7_date_only_is_utc_midnight_witness :
  Date_parse asciiRuntime (js "2024-02-29") = Some 1709164800000
  /\ toISOString 1709164800000 = js "2024-02-29T00:00:00.000Z".
Proof.
  destruct (X7_date_only_is_utc_midnight asciiRuntime 2024 2 29)
    as (H1 & H2 & _); [lia|reflexivity|].
  split; [exact H1|exact H2].
Defined.

(* ===================================================================== *)
(** * X8: a date with a time, in UTC *)
(* ===================================================================== *)

(** X8. A date with a time followed by [Z], [YYYY-MM-DDTHH:mmZ], is read
    in UTC on every runtime, whatever the zone of the process and the
    engine's own formats, and the hook stores it as
    [YYYY-MM-DDTHH:mm:00.000Z]. *)
Theorem X8_date_with_time_utc (rt : Runtime) (y m d h mi : Z) :
  0 <= y <= 9999 -> validDate y m d = true ->
  0 <= h <= 23 -> 0 <= mi <= 59 ->
  Date_parse rt (isoMinute y m d h mi ++ js "Z")
  = Some (MakeDate (MakeDay y (m - 1) d) (MakeTime h mi 0 0))
  /\ toISOString (MakeDate (MakeDay y (m - 1) d) (MakeTime h mi 0 0))
     = isoMinute y m d h mi ++ js ":00.000Z"
  /\ forall doc,
       passesLoop doc = true ->
       get doc "date" = VString (isoMinute y m d h mi ++ js "Z") ->
       get (fst (eventPreSave rt doc)) "date"
       = VString (isoMinute y m d h mi ++ js ":00.000Z").
Proof.
  intros Hy Hv Hh Hm.
  pose proof (Date_parse_minute_utc rt y m d h mi Hy Hv Hh Hm) as Hu.
  split; [exact Hu|]. split; [apply toISOString_minute; assumption|].
  intros doc Hp Hd.
  rewrite (date_after_hook rt doc
             (MakeDate (MakeDay y (m - 1) d) (MakeTime h mi 0 0)) Hp).
  - rewrite toISOString_minute by assumption. reflexivity.
  - rewrite Hd. cbn [strOf]. rewrite trim_stamp; [exact Hu|].
    apply Forall_app. split; [apply isoMinute_stamp|repeat constructor].
Qed.

Lemma X8_date_with_time_utc_witness :
  Date_parse kolkataRuntime (js "2024-03-01T14:30Z") = Some 1709303400000
  /\ toISOString 1709303400000 = js "2024-03-01T14:30:00.000Z".
Proof.
  destruct (X8_date_with_time_utc kolkataRuntime 2024 3 1 14 30)
    as (H1 & H2 & _); [lia|reflexivity|lia|lia|].
  split; [exact H1|exact H2].
Defined.

(* ===================================================================== *)
(** * X9: the first blank field *)
(* ===================================================================== *)

(** X9. When a required field is blank and the required fields listed
    before it are not, the hook hands to [next] the error that names this
    field, whatever the fields after it hold; the document is left with
    the fields before it trimmed and every other path as it was. *)
Theorem X9_first_blank_field (rt : Runtime) (d : Document)
    (pre post : list string) (f : string) :
  requiredStringFields = pre ++ f :: post ->
  (forall g, g ∈ pre -> ~ blank (get d g)) ->
  blank (get d f) ->
  snd (eventPreSave rt d) = Throw (RequiredFieldError f)
  /\ forall k,
       get (fst (eventPreSave rt d)) k
       = if bool_decide (k ∈ pre) then trimValue (get d k) else get d k.
Proof.
  intros E Hpre Hf.
  assert (Hpre' : forallb (fieldOk d) pre = true).
  { apply forallb_forall. intros g Hg. apply list_elem_of_In in Hg.
    destruct (fieldOk d g) eqn:Eg; [reflexivity|].
    apply fieldOk_blank in Eg. destruct (Hpre g Hg Eg). }
  apply fieldOk_blank in Hf.
  rewrite (eventPreSave_stops rt d pre f post E Hpre' Hf).
  split; [reflexivity|]. intros k. apply get_trimFields.
Qed.

Lemma X9_first_blank_field_witness :
  snd (eventPreSave asciiRuntime blankVenue)
  = Throw (RequiredFieldError "venue")
  /\ get (fst (eventPreSave asciiRuntime blankVenue)) "title"
     = VString (js "Tech Talk")
  /\ get (fst (eventPreSave asciiRuntime blankVenue)) "time" = VNull.
Proof.
  destruct (X9_first_blank_field asciiRuntime blankVenue
              ["title"; "description"; "overview"; "image"]
              ["location"; "date"; "time"; "mode"; "audience"; "organizer"]
              "venue") as [H1 H2].
  - reflexivity.
  - intros g Hg Hb. apply fieldOk_blank in Hb.
    apply list_elem_of_In in Hg. simpl in Hg.
    destruct Hg as [<-|[<-|[<-|[<-|[]]]]]; vm_compute in Hb; discriminate.
  - vm_compute. reflexivity.
  - split; [exact H1|]. split.
    + rewrite H2. vm_compute. reflexivity.
    + rewrite H2. vm_compute. reflexivity.
Defined.

(* ===================================================================== *)
(** * X10: the outcomes of the hook *)
(* ===================================================================== *)

(** X10. What the hook hands to [next]: nothing, when every required
    field passes the loop, the date parses and the time parses; the
    invalid-time error, when the first two hold and the time does not
    parse; and whatever the document holds, an error of the hook is the
    error of a blank required field, the invalid-date error or the
    invalid-time error: the casts to [string] never meet a value that is
    not a string. *)
Theorem X10_hook_outcomes (rt : Runtime) (d : Document) :
  (snd (eventPreSave rt d) = Ok tt
   <-> passesLoop d = true
       /\ is_Some (Date_parse rt (trim (strOf (get d "date"))))
       /\ is_Some (Date_parse rt (js "1970-01-01T"
                                  ++ trim (strOf (get d "time")))))
  /\ (snd (eventPreSave rt d) = Throw InvalidTimeError
      <-> passesLoop d = true
          /\ is_Some (Date_parse rt (trim (strOf (get d "date"))))
          /\ Date_parse rt (js "1970-01-01T" ++ trim (strOf (get d "time")))
             = None)
  /\ (forall e,
        snd (eventPreSave rt d) = Throw e ->
        e = InvalidDateError \/ e = InvalidTimeError
        \/ exists f, f ∈ requiredStringFields /\ blank (get d f)
                     /\ e = RequiredFieldError f).
Proof.
  destruct (passesLoop d) eqn:Hp.
  - rewrite (hook_error_after_loop rt d Hp), normalizeTime_run, trim_idem.
    destruct (Date_parse rt (trim (strOf (get d "date")))) as [t|].
    + destruct (Date_parse rt (js "1970-01-01T" ++ _)) as [t'|].
      * split; [|split].
        -- split; [intros _; repeat split; eexists; reflexivity|reflexivity].
        -- split; [discriminate|intros (_ & _ & ?); discriminate].
        -- discriminate.
      * split; [|split].
        -- split; [discriminate|intros (_ & _ & [? ?]); discriminate].
        -- split; [intros _; repeat split; eexists; reflexivity|reflexivity].
        -- intros e [= <-]. auto.
    + split; [|split].
      * split; [discriminate|intros (_ & [? ?] & _); discriminate].
      * split; [discriminate|intros (_ & [? ?] & _); discriminate].
      * intros e [= <-]. auto.
  - destruct (eventPreSave_loop_fails rt d Hp) as (d' & f & -> & Hin & Hf).
    cbn [snd]. split; [|split].
    + split; [discriminate|intros (? & _); discriminate].
    + split; [discriminate|intros (? & _); discriminate].
    + intros e [= <-]. right. right. exists f.
      split; [assumption|]. split; [apply fieldOk_blank, Hf|reflexivity].
Qed.

Lemma X10_hook_outcomes_witness :
  snd (eventPreSave asciiRuntime newTechTalk) = Ok tt
  /\ snd (eventPreSave asciiRuntime
            (mkDocument (("time", VString (js "noon")) :: techTalk "Tech Talk")
               [] true)) = Throw InvalidTimeError.
Proof.
  split.
  - apply (proj1 (X10_hook_outcomes asciiRuntime newTechTalk)).
    split; [vm_compute; reflexivity|].
    split; eexists; vm_compute; reflexivity.
  - apply (proj1 (proj2 (X10_hook_outcomes asciiRuntime _))).
    split; [vm_compute; reflexivity|].
    split; [eexists; vm_compute; reflexivity|vm_compute; reflexivity].
Defined.

(* ===================================================================== *)
(** * X11: the footprint of the hook *)
(* ===================================================================== *)

(** X11. The footprint of the hook.  Whether it succeeds or fails, the
    hook writes to no path but the eleven required fields and [slug]: any
    other path ([agenda], [tags], the timestamps, [_id]) holds what it
    held; [isNew] is as it was; and a path that was modified is still
    reported modified. *)
Theorem X11_hook_footprint (rt : Runtime) (d : Document) (k : string) :
  (k ∉ requiredStringFields -> k <> "slug" ->
   get (fst (eventPreSave rt d)) k = get d k)
  /\ isNew (fst (eventPreSave rt d)) = isNew d
  /\ (isModified k d = true ->
      isModified k (fst (eventPreSave rt d)) = true).
Proof.
  destruct (passesLoop d) eqn:Hp.
  - rewrite (eventPreSave_run rt d Hp). cbv zeta.
    split; [|split].
    + intros Hk Hs.
      assert (Hd : k <> "date")
        by (intros ->; apply Hk, in_required_date).
      assert (Ht : k <> "time")
        by (intros ->; apply Hk, in_required_time).
      assert (E : get (afterSlug rt (afterLoop d)) k = get d k).
      { rewrite get_afterSlug_ne by assumption.
        apply afterLoop_other, Hk. }
      destruct (Date_parse rt _); [destruct (normalizeTime rt _)|];
        cbn [fst]; rewrite ?get_setString_ne by congruence; exact E.
    + assert (E : isNew (afterSlug rt (afterLoop d)) = isNew d).
      { rewrite isNew_afterSlug. apply isNew_trimFields. }
      destruct (Date_parse rt _); [destruct (normalizeTime rt _)|];
        cbn [fst]; rewrite ?isNew_setString; exact E.
    + intros Hm.
      assert (E : isModified k (afterSlug rt (afterLoop d)) = true).
      { apply isModified_afterSlug_mono, isModified_trimFields_mono, Hm. }
      destruct (Date_parse rt _); [destruct (normalizeTime rt _)|];
        cbn [fst]; rewrite ?isModified_setString, ?E; reflexivity.
  - destruct (eventPreSave_fail_cases rt d Hp)
      as (pre & f & post & E & Hpre & Hf & ->).
    cbn [fst]. split; [|split].
    + intros Hk _. rewrite get_trimFields.
      rewrite bool_decide_eq_false_2; [reflexivity|].
      intros Hin. apply Hk. rewrite E. apply elem_of_app. left. exact Hin.
    + apply isNew_trimFields.
    + apply isModified_trimFields_mono.
Qed.

Lemma X11_hook_footprint_witness :
  get (fst (eventPreSave asciiRuntime newTechTalk)) "agenda"
  = VArray [js "Intro"; js "Q&A"]
  /\ isModified "title" (fst (eventPreSave asciiRuntime blankVenue)) = true.
Proof.
  split.
  - rewrite (proj1 (X11_hook_footprint asciiRuntime newTechTalk "agenda")).
    + vm_compute. reflexivity.
    + rewrite list_elem_of_In. simpl. intuition discriminate.
    + discriminate.
  - apply (proj2 (proj2 (X11_hook_footprint asciiRuntime blankVenue "title"))).
    vm_compute. reflexivity.
Defined.

(* ===================================================================== *)
(** * X12: the slug of a new event *)
(* ===================================================================== *)

(** X12. On a new document that passes the loop the slug is always
    derived from the title: a slug the caller supplied is overwritten
    with the slug of the trimmed title, and the path is marked modified,
    whether the hook then succeeds or fails on the date or the time. *)
Theorem X12_new_event_slug (rt : Runtime) (d : Document) :
  isNew d = true -> passesLoop d = true ->
  get (fst (eventPreSave rt d)) "slug"
  = VString (slugify rt (trim (strOf (get d "title"))))
  /\ isModified "slug" (fst (eventPreSave rt d)) = true.
Proof.
  intros Hn Hp. split; [apply new_slug; assumption|].
  assert (Hm : isModified "title" (afterLoop d) = true).
  { apply isModified_trimFields_new;
      [assumption|apply in_required_title|].
    destruct (fieldOk_string d "title"
                (passesLoop_field d "title" Hp in_required_title))
      as (s & -> & _). reflexivity. }
  assert (E : isModified "slug" (afterSlug rt (afterLoop d)) = true).
  { unfold afterSlug. rewrite Hm. cbn [orb].
    rewrite isModified_setString. unfold afterLoop at 2.
    rewrite isNew_trimFields, Hn.
    rewrite (bool_decide_eq_true_2 ("slug" = "slug")) by reflexivity.
    apply orb_true_r. }
  rewrite (eventPreSave_run rt d Hp). cbv zeta.
  destruct (Date_parse rt _); [destruct (normalizeTime rt _)|];
    cbn [fst]; rewrite ?isModified_setString, ?E; reflexivity.
Qed.

Lemma X12_new_event_slug_witness :
  get ownSlug "slug" = VString (js "my-own-slug")
  /\ get (fst (eventPreSave asciiRuntime ownSlug)) "slug"
     = VString (js "tech-talk-ai-you")
  /\ isModified "slug" (fst (eventPreSave asciiRuntime ownSlug)) = true.
Proof.
  split; [vm_compute; reflexivity|].
  destruct (X12_new_event_slug asciiRuntime ownSlug) as [H1 H2].
  - reflexivity.
  - vm_compute. reflexivity.
  - split; [|exact H2]. rewrite H1. vm_compute. reflexivity.
Defined.

(* ===================================================================== *)
(** * X13: saving again *)
(* ===================================================================== *)

(** X13. Saving again what has been saved is a no-op: the write of a
    document that a successful save has stored, read back and saved
    without a change, succeeds, leaves every path as it is and marks no
    path modified. *)
Theorem X13_resave_is_noop (rt : Runtime) (d d' : Document) :
  validOffset rt ->
  eventSave rt d = (d', Ok tt) ->
  eventSave rt (saved d') = (saved d', Ok tt).
Proof.
  intros Hz Hsave.
  destruct (resave_event rt d d' Hz Hsave) as (d'' & Hs & _).
  destruct (eventSave_ok_inv rt _ _ Hs) as (Hv' & Hp' & _).
  destruct (eventSave_ok_inv rt d d' Hsave) as (Hv & Hp & Hrun).
  assert (Hok : snd (eventPreSave rt d) = Ok tt) by (rewrite Hrun; reflexivity).
  assert (Hd' : fst (eventPreSave rt d) = d') by (rewrite Hrun; reflexivity).
  destruct (get_after_success rt d Hp Hok)
    as (t & h & m & Hparse & Hh & Hm & Hget).
  pose proof (required_after_success rt d) as Hreq.
  rewrite Hd' in *.
  unfold eventSave. rewrite Hv'.
  apply (hook_fixed rt (saved d') t h m); try assumption; try reflexivity.
  - intros f Hin. destruct (Hreq f Hp Hok Hin) as (s & E & Htr & _).
    exists s. rewrite get_saved. split; assumption.
  - rewrite !get_saved.
    destruct (truthy (get d' "slug")) eqn:Hty; [left; reflexivity|right].
    assert (Hsl := Hget "slug").
    destruct (decide ("slug" = "time")) as [?|_]; [discriminate|].
    destruct (decide ("slug" = "date")) as [?|_]; [discriminate|].
    rewrite get_afterSlug in Hsl.
    destruct (decide ("slug" = "slug")) as [_|?]; [|congruence].
    assert (Htitle : get d' "title" = get (afterLoop d) "title").
    { rewrite Hget.
      destruct (decide ("title" = "time")) as [?|_]; [discriminate|].
      destruct (decide ("title" = "date")) as [?|_]; [discriminate|].
      apply get_afterSlug_ne. discriminate. }
    destruct (isModified "title" (afterLoop d)
              || negb (truthy (get (afterLoop d) "slug"))) eqn:Hc.
    + rewrite Hsl, Htitle. reflexivity.
    + apply orb_false_iff in Hc as [_ Hc]. apply negb_false_iff in Hc.
      rewrite Hsl, Hc in Hty. discriminate.
  - apply (Date_parse_valid rt _ _ Hparse).
  - rewrite get_saved, Hget. reflexivity.
  - rewrite get_saved, Hget. reflexivity.
Qed.

Lemma X13_resave_is_noop_witness :
  eventSave asciiRuntime storedTechTalk = (storedTechTalk, Ok tt).
Proof.
  apply (X13_resave_is_noop asciiRuntime newTechTalk
           (fst (eventSave asciiRuntime newTechTalk))).
  - apply asciiRuntime_offset.
  - vm_compute. reflexivity.
Defined.

(* ===================================================================== *)
(** * X14: two events, one slug *)
(* ===================================================================== *)

(** X14. The slug is the key of an event.  Two new events whose titles,
    trimmed, have the same slug (titles that differ in case, in spacing or
    in punctuation only, or two titles without a letter or a digit)
    cannot both be created: once the first is stored, the creation of the
    second passes the schema and the hook and is refused by the unique
    index on [slug]. *)
Theorem X14_same_slug_collides (rt : Runtime) (coll : list Document)
    (d1 d1' d2 d2' : Document) :
  isNew d1 = true -> isNew d2 = true ->
  eventSave rt d1 = (d1', Ok tt) ->
  eventSave rt d2 = (d2', Ok tt) ->
  slugify rt (trim (strOf (get d1 "title")))
  = slugify rt (trim (strOf (get d2 "title"))) ->
  saved d1' ∈ coll ->
  createEvent rt coll d2
  = DuplicateKey "slug" (VString (slugify rt (trim (strOf (get d2 "title"))))).
Proof.
  intros Hn1 Hn2 Hs1 Hs2 Heq Hin.
  destruct (eventSave_ok_inv rt d1 d1' Hs1) as (_ & Hp1 & Hr1).
  destruct (eventSave_ok_inv rt d2 d2' Hs2) as (_ & Hp2 & Hr2).
  assert (Hg1 : get d1' "slug"
                = VString (slugify rt (trim (strOf (get d1 "title"))))).
  { rewrite <- (new_slug rt d1 Hn1 Hp1), Hr1. reflexivity. }
  assert (Hg2 : get d2' "slug"
                = VString (slugify rt (trim (strOf (get d2 "title"))))).
  { rewrite <- (new_slug rt d2 Hn2 Hp2), Hr2. reflexivity. }
  unfold createEvent. rewrite Hs2.
  rewrite (existsb_elem _ coll (saved d1') Hin).
  - rewrite Hg2. reflexivity.
  - apply bool_decide_eq_true. rewrite get_saved, Hg1, Hg2, Heq.
    reflexivity.
Qed.

Lemma X14_same_slug_collides_witness :
  createEvent asciiRuntime [storedTechTalk] lookAlike
  = DuplicateKey "slug" (VString (js "tech-talk-ai-you")).
Proof.
  rewrite (X14_same_slug_collides asciiRuntime [storedTechTalk]
             newTechTalk (fst (eventSave asciiRuntime newTechTalk))
             lookAlike (fst (eventSave asciiRuntime lookAlike))).
  - vm_compute. reflexivity.
  - reflexivity.
  - reflexivity.
  - vm_compute. reflexivity.
  - vm_compute. reflexivity.
  - vm_compute. reflexivity.
  - left.
Defined.

(* ===================================================================== *)
(** * X15: the addresses accepted *)
(* ===================================================================== *)

(** X15. The addresses [emailRegex] accepts are exactly the strings made
    of a local part, an at sign, a domain, a dot and a last part, the
    three parts not empty and free of whitespace and of at signs.  So an
    accepted address holds exactly one at sign, no whitespace, and at
    least five code units. *)
Theorem X15_email_shape (s : jsstring) :
  (test emailRegex s = true
   <-> exists loc dom tld,
         s = loc ++ [64%N] ++ dom ++ [46%N] ++ tld
         /\ loc <> [] /\ dom <> [] /\ tld <> []
         /\ Forall (fun c => isAddrChar c = true) (loc ++ dom ++ tld))
  /\ (test emailRegex s = true ->
      length (List.filter (N.eqb 64) s) = 1%nat
      /\ Forall (fun c => isWhiteSpace c = false) s
      /\ (5 <= length s)%nat).
Proof.
  split; [apply email_shape|].
  intros H. apply email_shape in H
    as (loc & dom & tld & -> & Hl & Hd & Ht & Hall).
  rewrite !Forall_app in Hall. destruct Hall as (Hl' & Hd' & Ht').
  split; [|split].
  - rewrite !List.filter_app.
    rewrite (filter_at_addr loc Hl'), (filter_at_addr dom Hd'),
      (filter_at_addr tld Ht').
    reflexivity.
  - assert (Hw : forall l, Forall (fun c => isAddrChar c = true) l ->
                           Forall (fun c => isWhiteSpace c = false) l).
    { intros l Hf. eapply Forall_impl; [exact Hf|].
      intros c Hc. apply isAddrChar_spec in Hc as [Hc _]. exact Hc. }
    rewrite !Forall_app. repeat split; auto; repeat constructor.
  - rewrite !length_app.
    destruct loc; [congruence|]. destruct dom; [congruence|].
    destruct tld; [congruence|]. simpl. lia.
Qed.

Lemma X15_email_shape_witness :
  length (List.filter (N.eqb 64) (js "ada@example.org")) = 1%nat
  /\ Forall (fun c => isWhiteSpace c = false) (js "ada@example.org")
  /\ (5 <= length (js "ada@example.org"))%nat.
Proof.
  apply (proj2 (X15_email_shape (js "ada@example.org"))). reflexivity.
Defined.

(* ===================================================================== *)
(** * X16: the outcomes of a booking *)
(* ===================================================================== *)

(** X16. Whatever a caller passes and whatever the collection of events
    holds, a creation ends in one of three ways: the booking is stored,
    the schema refuses it with a ValidationError, or the event is missing.
    The ValidationError names [eventId] exactly when no id is given and
    [email] exactly when the address, once cast, lower-cased and trimmed,
    is absent or fails [emailRegex]; it comes first, whether the event
    exists or not.  The hook's own test of the address never fires: the
    invalid-email error of line 66 is never the outcome of a creation.  A
    stored booking holds the id that was given, which is the id of an
    event that exists, and an address that is trimmed and passes
    [emailRegex].  On an id and a string the creation is
    [createBooking]. *)
Theorem X16_booking_outcomes (rt : Runtime)
    (events : gmap ObjectId Document) (input : BookingInput) :
  bookingCreate rt events input <> Throw InvalidEmailError
  /\ ((exists doc, bookingCreate rt events input = Ok doc)
      \/ bookingCreate rt events input
         = Throw (ValidationError (refusedPaths rt input))
      \/ bookingCreate rt events input = Throw MissingEventError)
  /\ (bookingCreate rt events input
      = Throw (ValidationError (refusedPaths rt input))
      <-> refusedPaths rt input <> [])
  /\ ("eventId" ∈ refusedPaths rt input <-> givenEventId input = None)
  /\ ("email" ∈ refusedPaths rt input
      <-> emailAccepted rt (givenEmail input) = false)
  /\ (forall doc,
        bookingCreate rt events input = Ok doc ->
        givenEventId input = Some (eventId doc)
        /\ castEmail rt (givenEmail input) = Some (email doc)
        /\ is_Some (events !! eventId doc)
        /\ test emailRegex (email doc) = true
        /\ trim (email doc) = email doc)
  /\ (forall id s,
        bookingCreate rt events
          {| givenEventId := Some id; givenEmail := VString s |}
        = createBooking rt events {| eventId := id; email := s |}).
Proof.
  split; [|split; [|split; [|split; [|split; [|split]]]]].
  - rewrite bookingCreate_run.
    destruct (refusedPaths rt input); [|discriminate].
    destruct (givenEventId input) as [id|]; [|discriminate].
    destruct (castEmail rt (givenEmail input)); [|discriminate].
    destruct (events !! id); discriminate.
  - rewrite bookingCreate_run.
    destruct (refusedPaths rt input) as [|p l] eqn:Er; [|auto].
    unfold refusedPaths, emailAccepted in Er.
    destruct (givenEventId input) as [id|]; [|discriminate].
    destruct (castEmail rt (givenEmail input)); [|discriminate].
    destruct (events !! id); eauto.
  - rewrite bookingCreate_run.
    destruct (refusedPaths rt input) as [|p l] eqn:Er.
    + unfold refusedPaths, emailAccepted in Er.
      destruct (givenEventId input) as [id|]; [|discriminate].
      destruct (castEmail rt (givenEmail input)); [|discriminate].
      destruct (events !! id); split; congruence.
    + split; [discriminate|reflexivity].
  - unfold refusedPaths.
    destruct (givenEventId input);
      destruct (emailAccepted rt (givenEmail input)); cbn [app];
      rewrite ?elem_of_cons, ?elem_of_nil; split; intros H;
      try discriminate; try (intuition discriminate); auto.
  - unfold refusedPaths.
    destruct (givenEventId input);
      destruct (emailAccepted rt (givenEmail input)); cbn [app];
      rewrite ?elem_of_cons, ?elem_of_nil; split; intros H;
      try discriminate; try (intuition discriminate); auto.
  - intros doc. rewrite bookingCreate_run.
    destruct (refusedPaths rt input) as [|p l] eqn:Er; [|discriminate].
    unfold refusedPaths, emailAccepted in Er.
    destruct (givenEventId input) as [id|]; [|discriminate].
    destruct (castEmail rt (givenEmail input)) as [e|] eqn:Ec;
      [|discriminate].
    destruct (events !! id) as [ev|] eqn:Ee; [|discriminate].
    intros [= <-]. cbn [eventId email]. rewrite Ee.
    split; [reflexivity|]. split; [reflexivity|].
    split; [eexists; reflexivity|].
    destruct ((0 <? length e)%nat && test emailRegex e) eqn:Et;
      [|discriminate].
    apply andb_true_iff in Et as [_ Et]. split; [exact Et|].
    destruct (givenEmail input); simpl in Ec; try discriminate;
      injection Ec as <-; apply trim_idem.
  - intros id s. reflexivity.
Qed.

Lemma X16_booking_outcomes_witness :
  bookingCreate asciiRuntime oneEvent
    {| givenEventId := None; givenEmail := VString (js "not an address") |}
  = Throw (ValidationError ["eventId"; "email"])
  /\ trim (js "foo@bar.com") = js "foo@bar.com".
Proof.
  split.
  - apply (proj2 (proj1 (proj2 (proj2 (X16_booking_outcomes asciiRuntime
             oneEvent
             {| givenEventId := None;
                givenEmail := VString (js "not an address") |}))))).
    discriminate.
  - apply (proj1 (proj2 (proj2 (proj2 (proj2 (proj2
             (X16_booking_outcomes asciiRuntime oneEvent
                {| givenEventId := Some 7%N;
                   givenEmail := VString (js " Foo@Bar.COM ") |}))))))
             {| eventId := 7%N; email := js "foo@bar.com" |}).
    reflexivity.
Defined.

(* ===================================================================== *)
(** * X17: one attempt *)
(* ===================================================================== *)

(** X17. One process, one attempt.  From the empty cache, whatever the
    calls, the settlements and the continuations, and however they
    interleave, [mongoose.connect] is called at most once, on the
    connection string of the environment; it has been called exactly when
    a promise is cached; and every call that is suspended awaits the
    promise of that one attempt. *)
Theorem X17_at_most_one_attempt (uri : option jsstring)
    (sched : list action) (w : World) (os : list outcome) :
  run sched (boot uri) = Some (w, os) ->
  (length (attempts w) <= 1)%nat
  /\ (forall e, e ∈ attempts w ->
        exists u, uri = Some u /\ e = Connect u 0%nat)
  /\ (attempts w = [] <-> promise (cached w) = None)
  /\ Forall (fun o => forall p, o = Awaiting p -> p = 0%nat) os.
Proof.
  intros H.
  destruct (singleAttempt_run uri sched _ w os (singleAttempt_boot uri) H)
    as [[Hu Hs] Hos].
  destruct (promise (cached w)) as [p|].
  - destruct Hs as (-> & Hl & u & -> & _ & Hat). rewrite Hat.
    split; [simpl; lia|]. split; [|split; [|exact Hos]].
    + intros e He. apply list_elem_of_singleton in He as ->.
      exists u. auto.
    + split; discriminate.
  - destruct Hs as (_ & Hat). rewrite Hat.
    split; [simpl; lia|]. split; [|split; [|exact Hos]].
    + intros e He. apply elem_of_nil in He. destruct He.
    + split; reflexivity.
Qed.

Lemma X17_at_most_one_attempt_witness :
  (length (attempts failedStill) <= 1)%nat
  /\ Forall (fun o => forall p, o = Awaiting p -> p = 0%nat)
       [Awaiting 0%nat; Threw (ConnectionError 111);
        Awaiting 0%nat; Awaiting 0%nat].
Proof.
  destruct (X17_at_most_one_attempt (Some mongoUri)
              [Call; Call; Settle 0%nat (Rejected 111); Continue 0%nat;
               Call]
              failedStill
              [Awaiting 0%nat; Threw (ConnectionError 111);
               Awaiting 0%nat; Awaiting 0%nat])
    as (H1 & _ & _ & H4).
  - reflexivity.
  - split; [exact H1|exact H4].
Defined.

(* ===================================================================== *)
(** * X18: one connection *)
(* ===================================================================== *)

(** X18. One process, one connection.  From the empty cache, whatever
    happens, a connection that a call has returned is the connection in
    the cache from then on; so all the calls that return, return the same
    connection, and a call made afterwards returns it at once. *)
Theorem X18_one_connection (uri : option jsstring)
    (sched : list action) (w : World) (os : list outcome)
    (c : Connection) :
  run sched (boot uri) = Some (w, os) ->
  Returned c ∈ os ->
  conn (cached w) = Some c
  /\ (forall c', Returned c' ∈ os -> c' = c)
  /\ connectToDatabase w = (w, Returned c).
Proof.
  intros H Hin.
  assert (Hc : conn (cached w) = Some c).
  { eapply returned_run; [apply wellFormed_boot|exact H|exact Hin]. }
  split; [exact Hc|]. split.
  - intros c' Hin'.
    assert (Hc' : conn (cached w) = Some c').
    { eapply returned_run; [apply wellFormed_boot|exact H|exact Hin']. }
    congruence.
  - unfold connectToDatabase. rewrite Hc. reflexivity.
Qed.

Lemma X18_one_connection_witness :
  conn (cached connectedTwice) = Some 9%N
  /\ connectToDatabase connectedTwice = (connectedTwice, Returned 9%N).
Proof.
  destruct (X18_one_connection (Some mongoUri)
              [Call; Call; Settle 0%nat (Fulfilled 9); Continue 0%nat;
               Continue 0%nat]
              connectedTwice
              [Returned 9%N; Returned 9%N; Awaiting 0%nat; Awaiting 0%nat]
              9%N) as (H1 & _ & H3).
  - reflexivity.
  - left.
  - split; [exact H1|exact H3].
Defined.

(* ===================================================================== *)
(** * X19: no connection string *)
(* ===================================================================== *)

(** X19. With no connection string in the environment nothing is ever
    cached: every call, however many are made, reads the environment
    again and throws the missing-URI error, no connection is attempted,
    and there is never a promise to settle or a call to continue. *)
Theorem X19_absent_uri_always_throws (uri : option jsstring)
    (sched : list action) (w : World) (os : list outcome) :
  absentUri uri = true ->
  run sched (boot uri) = Some (w, os) ->
  sched = replicate (length sched) Call
  /\ os = replicate (length sched) (Threw MissingUriError)
  /\ cached w = {| conn := None; promise := None |}
  /\ effects w = replicate (length sched) ReadEnv
  /\ attempts w = [].
Proof.
  intros Ha H.
  destruct (absent_run uri sched (boot uri) w os Ha eq_refl eq_refl eq_refl H)
    as (Hs & Ho & Hc & _ & He).
  cbn [boot effects cached] in *. rewrite app_nil_r in He.
  split; [assumption|]. split; [assumption|]. split; [assumption|].
  split; [assumption|].
  unfold attempts. rewrite He. clear.
  induction (length sched) as [|n IH]; [reflexivity|exact IH].
Qed.

Lemma X19_absent_uri_always_throws_witness :
  run [Call; Call; Call] (boot (Some []))
  = Some ({| cached := {| conn := None; promise := None |};
             MONGODB_URI := Some [];
             promises := []; waiting := [];
             effects := [ReadEnv; ReadEnv; ReadEnv] |},
          [Threw MissingUriError; Threw MissingUriError;
           Threw MissingUriError])
  /\ attempts {| cached := {| conn := None; promise := None |};
                 MONGODB_URI := Some [];
                 promises := []; waiting := [];
                 effects := [ReadEnv; ReadEnv; ReadEnv] |} = [].
Proof.
  split; [reflexivity|].
  apply (X19_absent_uri_always_throws (Some []) [Call; Call; Call] _
           [Threw MissingUriError; Threw MissingUriError;
            Threw MissingUriError]).
  - reflexivity.
  - reflexivity.
Defined.

(* ===================================================================== *)
(** * X20: after the connection *)
(* ===================================================================== *)

(** X20. Once the attempt has succeeded no call fails.  From a world the
    process has reached in which the cached promise is fulfilled with a
    connection, whatever happens afterwards no call throws: every outcome
    is a call suspended on that promise or a call returning that
    connection, no further attempt is made, and the continuation of a
    suspended call returns the connection. *)
Theorem X20_established_never_throws (uri : option jsstring)
    (sched1 sched2 : list action) (w1 w2 : World)
    (os1 os2 : list outcome) (p : PromiseId) (c : Connection) :
  run sched1 (boot uri) = Some (w1, os1) ->
  promise (cached w1) = Some p ->
  promises w1 !! p = Some (Fulfilled c) ->
  run sched2 w1 = Some (w2, os2) ->
  Forall (fun o => o = Awaiting p \/ o = Returned c) os2
  /\ attempts w2 = attempts w1
  /\ snd <$> resume p w2 = Some (Returned c).
Proof.
  intros Hrun1 Hp Hf Hrun2.
  assert (Hes : established p c w1).
  { split; [|split; assumption].
    eapply wellFormed_run; [apply wellFormed_boot|exact Hrun1]. }
  destruct (established_run p c sched2 w1 w2 os2 Hes Hrun2)
    as ((_ & _ & Hf2) & Ha & Hos).
  split; [assumption|]. split; [assumption|].
  unfold resume. rewrite Hf2. reflexivity.
Qed.

Lemma X20_established_never_throws_witness :
  Forall (fun o => o = Awaiting 0%nat \/ o = Returned 9%N)
    [Returned 9%N; Returned 9%N; Awaiting 0%nat]
  /\ attempts {| cached := {| conn := Some 9%N; promise := Some 0%nat |};
                 MONGODB_URI := Some mongoUri;
                 promises := [Fulfilled 9];
                 waiting := [0%nat];
                 effects := [Connect mongoUri 0%nat; ReadEnv] |}
     = attempts connectedOnce
  /\ snd <$> resume 0%nat
               {| cached := {| conn := Some 9%N; promise := Some 0%nat |};
                  MONGODB_URI := Some mongoUri;
                  promises := [Fulfilled 9];
                  waiting := [0%nat];
                  effects := [Connect mongoUri 0%nat; ReadEnv] |}
     = Some (Returned 9%N).
Proof.
  apply (X20_established_never_throws (Some mongoUri)
           [Call; Settle 0%nat (Fulfilled 9)]
           [Call; Continue 0%nat; Call]
           connectedOnce _ [Awaiting 0%nat] _ 0%nat 9%N).
  - reflexivity.
  - reflexivity.
  - reflexivity.
  - reflexivity.
Defined.

(* ===================================================================== *)
(** * X21: a date with a time, in local time *)
(* ===================================================================== *)

(** X21. A date with a time and no offset, [YYYY-MM-DDTHH:mm], is read in
    the local zone of the process.  In a zone whose offset from UTC is the
    same all year, the one offset [localTZA] of the runtime (a zone
    without daylight saving), its time value is that of the UTC reading
    moved back by the offset, and the hook stores the ISO string of that
    time value: what is stored depends on the zone of the server. *)
Theorem X21_date_with_time_local (rt : Runtime) (y m d h mi : Z) :
  validOffset rt ->
  0 <= y <= 9999 -> validDate y m d = true ->
  0 <= h <= 23 -> 0 <= mi <= 59 ->
  Date_parse rt (isoMinute y m d h mi)
  = Some (MakeDate (MakeDay y (m - 1) d) (MakeTime h mi 0 0) - localTZA rt)
  /\ forall doc,
       passesLoop doc = true ->
       get doc "date" = VString (isoMinute y m d h mi) ->
       get (fst (eventPreSave rt doc)) "date"
       = VString (toISOString
                    (MakeDate (MakeDay y (m - 1) d) (MakeTime h mi 0 0)
                     - localTZA rt)).
Proof.
  intros Hz Hy Hv Hh Hm.
  pose proof (Date_parse_minute_local rt y m d h mi Hz Hy Hv Hh Hm) as Hl.
  split; [exact Hl|]. intros doc Hp Hd.
  apply (date_after_hook rt doc _ Hp).
  rewrite Hd. cbn [strOf]. rewrite trim_stamp; [exact Hl|].
  apply isoMinute_stamp.
Qed.

Lemma X21_date_with_time_local_witness :
  Date_parse kolkataRuntime (js "2024-03-01T14:30") = Some 1709283600000
  /\ toISOString 1709283600000 = js "2024-03-01T09:00:00.000Z".
Proof.
  destruct (X21_date_with_time_local kolkataRuntime 2024 3 1 14 30)
    as (H1 & _).
  - unfold validOffset. cbn. unfold msPerDay. lia.
  - lia.
  - reflexivity.
  - lia.
  - lia.
  - split; [exact H1|vm_compute; reflexivity].
Defined.
